(** * Isotope-pattern tools: a shallow embedding of [tools.utils] and
    [tools.elements].

    Python floats are modelled by exact rationals [Q]; Python [int]s by
    [Z]; Python [str] by [string] (ASCII).  Exceptions are the constructors
    of [exn], threaded through the small error monad [res]. *)

From Stdlib Require Import ZArith QArith String Ascii List Bool Lia.
From Stdlib Require Import DecimalZ Qpower Qabs Lqa Sorted Permutation.
Import ListNotations.

Open Scope list_scope.
Open Scope string_scope.
Open Scope Z_scope.

(* ------------------------------------------------------------------ *)
(** ** Exceptions and the error monad *)

Inductive exn :=
| KeyError
| IndexError
| AttributeError
| TypeError
| ValueError
(** the plain [Exception] raised when the monoisotopic mass is zero *)
| MassError
| StopIteration.

Inductive res (A : Type) : Type :=
| Ok (a : A)
| Err (e : exn).
Arguments Ok {A} a.
Arguments Err {A} e.

Definition bind {A B} (m : res A) (f : A -> res B) : res B :=
  match m with Ok a => f a | Err e => Err e end.

Notation "'let*' x ':=' m 'in' f" := (bind m (fun x => f))
  (at level 200, x name, m at level 100, f at level 200).
Notation "'let*' ' p ':=' m 'in' f" := (bind m (fun x => match x with p => f end))
  (at level 200, p pattern, m at level 100, f at level 200).

Fixpoint map_res {A B} (f : A -> res B) (l : list A) : res (list B) :=
  match l with
  | [] => Ok []
  | x :: t => let* y := f x in let* ys := map_res f t in Ok (y :: ys)
  end.

(* ------------------------------------------------------------------ *)
(** ** Characters and strings *)

Definition in_range (lo hi : nat) (c : ascii) : bool :=
  (lo <=? nat_of_ascii c)%nat && (nat_of_ascii c <=? hi)%nat.

Definition is_upper : ascii -> bool := in_range 65 90.
Definition is_lower : ascii -> bool := in_range 97 122.
Definition is_digit : ascii -> bool := in_range 48 57.
Definition is_alpha (c : ascii) : bool := is_upper c || is_lower c.
Definition is_alnum (c : ascii) : bool := is_alpha c || is_digit c.
Definition is_sign (c : ascii) : bool :=
  Ascii.eqb c "+"%char || Ascii.eqb c "-"%char.
(** Python's [str.isspace] on ASCII: [\t\n\v\f\r], [\x1c]-[\x1f], space. *)
Definition is_py_space (c : ascii) : bool := in_range 9 13 c || in_range 28 32 c.
Definition newline : ascii := ascii_of_nat 10.

Fixpoint str_forallb (p : ascii -> bool) (s : string) : bool :=
  match s with
  | EmptyString => true
  | String c r => p c && str_forallb p r
  end.

Fixpoint str_filter (p : ascii -> bool) (s : string) : string :=
  match s with
  | EmptyString => EmptyString
  | String c r => if p c then String c (str_filter p r) else str_filter p r
  end.

(** Longest prefix of characters satisfying [p], and the rest. *)
Fixpoint span (p : ascii -> bool) (s : string) : string * string :=
  match s with
  | EmptyString => (EmptyString, EmptyString)
  | String c r =>
      if p c then let (a, b) := span p r in (String c a, b)
      else (EmptyString, s)
  end.

(** Text matched by [.*]: everything up to the first newline. *)
Definition dot_star (s : string) : string :=
  fst (span (fun c => negb (Ascii.eqb c newline)) s).

Definition digit_val (c : ascii) : Z := Z.of_nat (nat_of_ascii c) - 48.

(** Value of a string of decimal digits, most significant first. *)
Fixpoint digits_value_acc (s : string) (acc : Z) : Z :=
  match s with
  | EmptyString => acc
  | String c r => digits_value_acc r (10 * acc + digit_val c)
  end.
Definition digits_value (s : string) : Z := digits_value_acc s 0.

(** Python's [str(n)] for an [int]. *)
Fixpoint str_uint (u : Decimal.uint) : string :=
  match u with
  | Decimal.Nil => EmptyString
  | Decimal.D0 r => String "0" (str_uint r)
  | Decimal.D1 r => String "1" (str_uint r)
  | Decimal.D2 r => String "2" (str_uint r)
  | Decimal.D3 r => String "3" (str_uint r)
  | Decimal.D4 r => String "4" (str_uint r)
  | Decimal.D5 r => String "5" (str_uint r)
  | Decimal.D6 r => String "6" (str_uint r)
  | Decimal.D7 r => String "7" (str_uint r)
  | Decimal.D8 r => String "8" (str_uint r)
  | Decimal.D9 r => String "9" (str_uint r)
  end.

Definition str_Z (z : Z) : string :=
  match Z.to_int z with
  | Decimal.Pos u => str_uint u
  | Decimal.Neg u => String "-" (str_uint u)
  end.

(** Python's [int(text)] in base 10 on ASCII text: surrounding whitespace,
    an optional sign, digits with single underscores between them. *)
Fixpoint lstrip_ws (s : string) : string :=
  match s with
  | EmptyString => EmptyString
  | String c r => if is_py_space c then lstrip_ws r else s
  end.

Definition rev_str (s : string) : string :=
  string_of_list_ascii (rev (list_ascii_of_string s)).

Definition strip_ws (s : string) : string := rev_str (lstrip_ws (rev_str (lstrip_ws s))).

(** [digit ('_'? digit)*] *)
Fixpoint int_body_ok (first : bool) (s : string) : bool :=
  match s with
  | EmptyString => negb first
  | String c r =>
      if is_digit c then int_body_ok false r
      else if Ascii.eqb c "_"%char then
        (negb first) && match r with
                        | String d _ => is_digit d && int_body_ok true r
                        | EmptyString => false
                        end
      else false
  end.

Definition int_body (s : string) : res Z :=
  if int_body_ok true s then Ok (digits_value (str_filter is_digit s))
  else Err ValueError.

Definition py_int (s : string) : res Z :=
  match strip_ws s with
  | String c r =>
      if Ascii.eqb c "-"%char then let* v := int_body r in Ok (- v)
      else if Ascii.eqb c "+"%char then int_body r
      else int_body (String c r)
  | EmptyString => Err ValueError
  end.

Example py_int_ex1 : py_int " -1_000 " = Ok (-1000). Proof. reflexivity. Qed.
Example py_int_ex2 : py_int "1__0" = Err ValueError. Proof. reflexivity. Qed.
Example str_Z_ex : str_Z (-305) = "-305" /\ str_Z 0 = "0". Proof. split; reflexivity. Qed.

(* ------------------------------------------------------------------ *)
(** ** [utils.get_decoy_info] *)

(** [re.match] of the pattern [([+-])(\d+)?(.* )] against [decoy]: the
    sign, the greedy digits (the last group accepts anything, so no
    backtracking happens), and the text up to the first newline.  [None]
    when the match fails. *)
Definition decoy_match (decoy : string) : option (ascii * string * string) :=
  match decoy with
  | String c r =>
      if is_sign c then
        let (ds, rest) := span is_digit r in Some (c, ds, dot_star rest)
      else None
  | EmptyString => None
  end.

Definition get_decoy_info (decoy : string) : res (string * Z * Z) :=
  match decoy_match decoy with
  | Some (sg, ds, elem) =>
      let* sign := py_int (String sg "1") in
      let* multiple := (match ds with
                        | EmptyString => Ok 1
                        | _ => py_int ds
                        end) in
      Ok (elem, multiple, sign)
  | None => Err ValueError
  end.

Example get_decoy_info_tests :
  get_decoy_info "+H" = Ok ("H", 1, 1) /\ get_decoy_info "+2H" = Ok ("H", 2, 1) /\
  get_decoy_info "-H" = Ok ("H", 1, -1) /\ get_decoy_info "+Fe" = Ok ("Fe", 1, 1) /\
  get_decoy_info "+5Fe" = Ok ("Fe", 5, 1) /\ get_decoy_info "-2Fe" = Ok ("Fe", 2, -1).
Proof. repeat split; reflexivity. Qed.

(* ------------------------------------------------------------------ *)
(** ** [elements.Isotope], [elements.Element], [elements.IsotopeDB] *)

Record isotope := mkIsotope {
  iso_symbol : string;
  iso_mass : Q;
  iso_abund : Q
}.

(** An element's [isotopes] set, in its iteration order. *)
Record element := mkElement {
  el_symbol : string;
  el_isotopes : list isotope
}.

(** [IsotopeDB.elements]: one element per group of the isotope table. *)
Definition isotope_db := list element.

(** [Isotope.__eq__] between two isotopes. *)
Definition iso_eqb (a b : isotope) : bool :=
  Qeq_bool (iso_abund a) (iso_abund b) && String.eqb (iso_symbol a) (iso_symbol b)
  && Qeq_bool (iso_mass a) (iso_mass b).

(** Python [set.__eq__] on two isotope sets. *)
Definition iso_set_eqb (l1 l2 : list isotope) : bool :=
  (length l1 =? length l2)%nat && forallb (fun x => existsb (iso_eqb x) l2) l1.

(** [Element.__eq__] between two elements. *)
Definition elem_eqb (a b : element) : bool :=
  String.eqb (el_symbol a) (el_symbol b) && iso_set_eqb (el_isotopes a) (el_isotopes b).

(** Float [<] on the model's rationals. *)
Definition Qlt_bool (a b : Q) : bool := negb (Qle_bool b a).

(** [Isotope.__lt__]. *)
Definition iso_lt (a b : isotope) : bool := Qlt_bool (iso_abund a) (iso_abund b).

(** A stable insertion sort by [iso_lt]: the result of Python's [sorted]. *)
Fixpoint iso_insert (x : isotope) (l : list isotope) : list isotope :=
  match l with
  | [] => [x]
  | y :: t => if iso_lt x y then x :: l else y :: iso_insert x t
  end.

Definition iso_sorted (l : list isotope) : list isotope :=
  fold_left (fun acc x => iso_insert x acc) l [].

(** [Element.monoisotope]: [sorted(self.isotopes)[-1]]. *)
Definition monoisotope (e : element) : res isotope :=
  match rev (iso_sorted (el_isotopes e)) with
  | x :: _ => Ok x
  | [] => Err IndexError
  end.

(** [Element.other_isotopes]: [sorted(self.isotopes)[:-1]]. *)
Definition other_isotopes (e : element) : list isotope :=
  removelast (iso_sorted (el_isotopes e)).

(** Keys of the dictionaries the code builds: element symbols, or [Element]
    objects (which hash as their symbol and compare equal to it). *)
Inductive pykey :=
| KStr (s : string)
| KElem (e : element).

(** Python key equality between a stored key and a probe. *)
Definition pykey_eqb (k1 k2 : pykey) : bool :=
  match k1, k2 with
  | KStr a, KStr b => String.eqb a b
  | KStr a, KElem e | KElem e, KStr a => String.eqb (el_symbol e) a
  | KElem a, KElem b => elem_eqb a b
  end.

(** A Python [dict] with [int] values, in insertion order. *)
Definition dict := list (pykey * Z).

Section AssocList.
Context {K : Type} (eqk : K -> K -> bool).

Fixpoint aget (d : list (K * Z)) (k : K) : option Z :=
  match d with
  | [] => None
  | (k', v) :: t => if eqk k' k then Some v else aget t k
  end.

(** [d[k] = v]: the first equal key keeps its place, a new key is
    appended. *)
Fixpoint aset (d : list (K * Z)) (k : K) (v : Z) : list (K * Z) :=
  match d with
  | [] => [(k, v)]
  | (k', v') :: t => if eqk k' k then (k', v) :: t else (k', v') :: aset t k v
  end.

(** [d.get(k, 0)] *)
Definition aget0 (d : list (K * Z)) (k : K) : Z :=
  match aget d k with Some v => v | None => 0 end.
End AssocList.

Definition dget := aget pykey_eqb.
Definition dset := aset pykey_eqb.
Definition dget0 := aget0 pykey_eqb.

(** [d1 | d2] *)
Definition dict_union (d1 d2 : dict) : dict :=
  fold_left (fun acc kv => dset acc (fst kv) (snd kv)) d2 d1.

(** Lookup by symbol string: [element == item or item in element]. *)
Fixpoint db_getitem_str (db : isotope_db) (s : string) : res element :=
  match db with
  | [] => Err KeyError
  | e :: t =>
      if String.eqb (el_symbol e) s
         || existsb (fun i => String.eqb (iso_symbol i) s) (el_isotopes e)
      then Ok e else db_getitem_str t s
  end.

(** [any(item == isotope ...)] with an [Element] as [item]:
    [Element.__eq__] reads [other.isotopes] of an isotope whose symbol
    equals the element's, which raises [AttributeError]. *)
Fixpoint elem_in_isotopes (x : element) (l : list isotope) : res bool :=
  match l with
  | [] => Ok false
  | i :: t => if String.eqb (el_symbol x) (iso_symbol i) then Err AttributeError
              else elem_in_isotopes x t
  end.

Fixpoint db_getitem_elem (db : isotope_db) (x : element) : res element :=
  match db with
  | [] => Err KeyError
  | e :: t =>
      if elem_eqb e x then Ok e
      else let* b := elem_in_isotopes x (el_isotopes e) in
           if b then Ok e else db_getitem_elem t x
  end.

Definition db_getitem_key (db : isotope_db) (k : pykey) : res element :=
  match k with
  | KStr s => db_getitem_str db s
  | KElem x => db_getitem_elem db x
  end.

(** Lookup by an isotope: [element == iso] compares symbols and then reads
    [iso.isotopes] ([AttributeError]); [iso in element] uses
    [Isotope.__eq__]. *)
Fixpoint db_getitem_iso (db : isotope_db) (i : isotope) : res element :=
  match db with
  | [] => Err KeyError
  | e :: t =>
      if String.eqb (el_symbol e) (iso_symbol i) then Err AttributeError
      else if existsb (iso_eqb i) (el_isotopes e) then Ok e
      else db_getitem_iso t i
  end.

(* ------------------------------------------------------------------ *)
(** ** [elements.Compound] *)

Definition VALID_ELEMENTS : list string :=
  ["C"; "H"; "O"; "N"; "P"; "S"; "F"; "Cl"; "Br"; "I"].

Record compound := mkCompound {
  element_count : list (element * Z);
  formula : string;
  monomass : Q;
  monoabund : Q;
  monoisos : list isotope;
  nonmonoisos : list isotope
}.

(** [element_count] is a dict keyed by [Element]s. *)
Definition eset := aset elem_eqb.

(** The comprehension [{self.isotope_db[k]: v for k, v in ... if v != 0}]. *)
Fixpoint build_element_count (db : isotope_db) (l : dict) (acc : list (element * Z))
  : res (list (element * Z)) :=
  match l with
  | [] => Ok acc
  | (k, v) :: t =>
      if v =? 0 then build_element_count db t acc
      else let* e := db_getitem_key db k in build_element_count db t (eset acc e v)
  end.

(** The formula string: each symbol followed by its count, the count
    omitted when it is 1, joined over [element_count]. *)
Definition render_formula (ec : list (element * Z)) : string :=
  String.concat "" (map (fun ev => el_symbol (fst ev) ++
                                   (if snd ev =? 1 then "" else str_Z (snd ev))) ec).

Definition order_elements (db : isotope_db) (f : dict) : res (list (element * Z) * string) :=
  let order := map (fun s => (KStr s, 0)) VALID_ELEMENTS in
  let* ec := build_element_count db (dict_union order f) [] in
  Ok (ec, render_formula ec).

(** [_compute_mass_and_abundance], before the zero check. *)
Fixpoint mass_and_abundance (ec : list (element * Z)) (m a : Q) : res (Q * Q) :=
  match ec with
  | [] => Ok (m, a)
  | (e, v) :: t =>
      let* mi := monoisotope e in
      mass_and_abundance t (m + iso_mass mi * inject_Z v)%Q (a * Qpower (iso_abund mi) v)%Q
  end.

(** [Compound.__init__]; [None] stands for a [None] formula, for which
    [order | formula] raises [TypeError]. *)
Definition Compound_init (db : isotope_db) (f : option dict) : res compound :=
  match f with
  | None => Err TypeError
  | Some d =>
      let* '(ec, fml) := order_elements db d in
      let* '(m, a) := mass_and_abundance ec 0%Q 1%Q in
      if Qeq_bool m 0 then Err MassError
      else
        let* mis := map_res monoisotope (map fst ec) in
        Ok (mkCompound ec fml m a mis (flat_map other_isotopes (map fst ec)))
  end.

Definition Compound_new (db : isotope_db) (d : dict) : res compound :=
  Compound_init db (Some d).

(* ------------------------------------------------------------------ *)
(** ** [utils.str_to_dict] and [Compound.from_str] *)

(** [re.sub] of the pattern [[+-](\d+)?$] by the empty string.  A match
    is a sign followed by digits up to the end of the text or up to a
    final newline (where [$] also matches); that newline stays. *)
Definition charge_tail (r : string) : bool :=
  let rest := snd (span is_digit r) in
  String.eqb rest "" || String.eqb rest (String newline "").

Fixpoint strip_charge (s : string) : string :=
  match s with
  | EmptyString => EmptyString
  | String c r =>
      if is_sign c && charge_tail r then snd (span is_digit r)
      else String c (strip_charge r)
  end.

(** [re.split] on the pattern [([A-Z][a-z]?)]: the text before the first symbol,
    then each symbol followed by the text up to the next one. *)
Fixpoint split_sym (s : string) : list string :=
  match s with
  | EmptyString => [""]
  | String c r =>
      if is_upper c then
        match r with
        | String c2 r2 =>
            if is_lower c2 then "" :: String c (String c2 "") :: split_sym r2
            else "" :: String c "" :: split_sym r
        | EmptyString => "" :: String c "" :: split_sym r
        end
      else match split_sym r with
           | seg :: rest => String c seg :: rest
           | [] => [String c ""]
           end
  end.

Fixpoint pairs (l : list string) : list (string * string) :=
  match l with
  | a :: b :: t => (a, b) :: pairs t
  | _ => []
  end.

Fixpoint build_str_dict (l : list (string * string)) (acc : dict) : res dict :=
  match l with
  | [] => Ok acc
  | (k, amt) :: t =>
      let* v := (if String.eqb amt "" then Ok 1 else py_int amt) in
      build_str_dict t (dset acc (KStr k) v)
  end.

Definition str_to_dict (f : string) : res dict :=
  match split_sym (strip_charge f) with
  | _ :: rest => build_str_dict (pairs rest) []
  | [] => Ok []
  end.

Definition from_str (db : isotope_db) (f : string) : res compound :=
  let* d := str_to_dict f in Compound_new db d.

Example split_sym_ex : split_sym "CH4NaCl" = [""; "C"; ""; "H"; "4"; "Na"; ""; "Cl"; ""].
Proof. reflexivity. Qed.
Example str_to_dict_ex :
  str_to_dict "C4H9NO2+" = Ok [(KStr "C", 4); (KStr "H", 9); (KStr "N", 1); (KStr "O", 2)].
Proof. reflexivity. Qed.

(* ------------------------------------------------------------------ *)
(** ** [utils.get_element_count] *)

(** [aggregate_dict_values(dict1, dict2)]: adds [dict1] into [dict2]. *)
Definition aggregate_dict_values (d1 d2 : dict) : dict :=
  fold_left (fun acc kv => dset acc (fst kv) (dget0 acc (fst kv) + snd kv)) d1 d2.

Definition compound_abbreviations : list (string * string) :=
  [("ACN", "CH3CN"); ("DMSO", "(CH3)2SO"); ("FA", "CH2O2"); ("HAc", "CH3COOH");
   ("TFA", "CF3CO2H"); ("IsoProp", "CH3CHOHCH3")].

Fixpoint str_assoc (l : list (string * string)) (k : string) : option string :=
  match l with
  | [] => None
  | (a, b) :: t => if String.eqb a k then Some b else str_assoc t k
  end.

(** One match of [\(([^)]+)\)(\d+)] after an opening parenthesis. *)
Definition grouped_at (r : string) : option (string * string * string) :=
  let (inner, r1) := span (fun c => negb (Ascii.eqb c ")"%char)) r in
  if String.eqb inner "" then None
  else match r1 with
       | String c r2 =>
           if Ascii.eqb c ")"%char then
             let (ds, r3) := span is_digit r2 in
             if String.eqb ds "" then None else Some (inner, ds, r3)
           else None
       | EmptyString => None
       end.

(** [re.findall] of the pattern [\(([^)]+)\)(\d+)]; [fuel] bounds the scan. *)
Fixpoint findall_grouped (fuel : nat) (s : string) : list (string * string) :=
  match fuel with
  | O => []
  | S f =>
      match s with
      | EmptyString => []
      | String c r =>
          match (if Ascii.eqb c "("%char then grouped_at r else None) with
          | Some (inner, ds, rest) => (inner, ds) :: findall_grouped f rest
          | None => findall_grouped f r
          end
      end
  end.

(** The rest after a match of [\([^()]*\)] following an opening parenthesis. *)
Definition paren_at (r : string) : option string :=
  let (_, r1) := span (fun c => negb (Ascii.eqb c "("%char || Ascii.eqb c ")"%char)) r in
  match r1 with
  | String c r2 => if Ascii.eqb c ")"%char then Some r2 else None
  | EmptyString => None
  end.

(** [re.findall] of the pattern [\([^()]*\)|([A-Za-z][A-Za-z0-9]* )]: the group is
    empty for the parenthesised alternative. *)
Fixpoint findall_standalone (fuel : nat) (s : string) : list string :=
  match fuel with
  | O => []
  | S f =>
      match s with
      | EmptyString => []
      | String c r =>
          if Ascii.eqb c "("%char then
            match paren_at r with
            | Some rest => "" :: findall_standalone f rest
            | None => findall_standalone f r
            end
          else if is_alpha c then
            let (run, rest) := span is_alnum r in String c run :: findall_standalone f rest
          else findall_standalone f r
      end
  end.

(** [re.findall] of the pattern [[A-Z][^A-Z]* ], with the text before the first
    capital returned separately. *)
Fixpoint upper_runs (s : string) : string * list string :=
  match s with
  | EmptyString => ("", [])
  | String c r =>
      let (pre, l) := upper_runs r in
      if is_upper c then ("", String c pre :: l) else (String c pre, l)
  end.

(** [_get_element_count(element, multiplier)] *)
Definition elem_count (elem : string) (multiplier : Z) : dict :=
  let characters := str_filter is_alpha elem in
  let integer := str_filter is_digit elem in
  [(KStr characters, (if String.eqb integer "" then 1 else digits_value integer) * multiplier)].

Definition get_element_count (f : string) : dict :=
  let '(mult, f1) :=
    (let (ds, rest) := span is_digit f in
     if String.eqb ds "" then (1, f) else (digits_value ds, dot_star rest)) in
  let f2 := match str_assoc compound_abbreviations f1 with Some g => g | None => f1 end in
  let grouped := map (fun p => (fst p, digits_value (snd p)))
                     (findall_grouped (S (String.length f2)) f2) in
  let standalone := map (fun a => (a, 1)) (findall_standalone (S (String.length f2)) f2) in
  fold_left
    (fun acc sd =>
       fold_left (fun acc2 elem => aggregate_dict_values (elem_count elem (snd sd * mult)) acc2)
                 (snd (upper_runs (fst sd))) acc)
    (grouped ++ standalone) [].

(** Order-insensitive dict equality, for the unit tests. *)
Definition dict_eqb (d1 d2 : dict) : bool :=
  (length d1 =? length d2)%nat &&
  forallb (fun kv => match dget d2 (fst kv) with Some v => v =? snd kv | None => false end) d1.

Definition sdict (l : list (string * Z)) : dict := map (fun kv => (KStr (fst kv), snd kv)) l.

Example get_element_count_tests :
  dict_eqb (get_element_count "H2O") (sdict [("H", 2); ("O", 1)]) &&
  dict_eqb (get_element_count "CH3CHOHCH3") (sdict [("C", 3); ("H", 8); ("O", 1)]) &&
  dict_eqb (get_element_count "(CH3)2SO") (sdict [("C", 2); ("H", 6); ("S", 1); ("O", 1)]) &&
  dict_eqb (get_element_count "TFA") (sdict [("C", 2); ("F", 3); ("O", 2); ("H", 1)]) &&
  dict_eqb (get_element_count "Pb(NO3)2") (sdict [("Pb", 1); ("N", 2); ("O", 6)]) &&
  dict_eqb (get_element_count "2DMSO") (sdict [("C", 4); ("H", 12); ("S", 2); ("O", 2)])
  = true.
Proof. vm_compute. reflexivity. Qed.

(* ------------------------------------------------------------------ *)
(** ** [utils.modify_formula_dict] *)

(** [re.split] on the pattern [([+-])] *)
Fixpoint split_sign (s : string) : list string :=
  match s with
  | EmptyString => [""]
  | String c r =>
      if is_sign c then "" :: String c "" :: split_sign r
      else match split_sign r with
           | seg :: rest => String c seg :: rest
           | [] => [String c ""]
           end
  end.

(** [re.findall] of the pattern [^\[(\d+)M] on the first component, as the
    multiplier it gives. *)
Definition multiplier_prefix (c0 : string) : option Z :=
  match c0 with
  | String c r =>
      if Ascii.eqb c "["%char then
        let (ds, rest) := span is_digit r in
        match rest with
        | String m _ => if negb (String.eqb ds "") && Ascii.eqb m "M"%char
                        then Some (digits_value ds) else None
        | EmptyString => None
        end
      else None
  | EmptyString => None
  end.

(** [{k: n * v for k, v in d.items()}] *)
Definition scale_dict (n : Z) (d : dict) : dict :=
  fold_left (fun acc kv => dset acc (fst kv) (n * snd kv)) d [].

(** The comprehension that parses the sign followed by [str(v)] with
    [int] for every item of a term's element count. *)
Fixpoint signed_dict (sign : string) (d : dict) (acc : dict) : res dict :=
  match d with
  | [] => Ok acc
  | (k, v) :: t =>
      let* w := py_int (sign ++ str_Z v) in signed_dict sign t (dset acc k w)
  end.

Fixpoint apply_terms (l : list (string * string)) (updated : dict) : res dict :=
  match l with
  | [] => Ok updated
  | (sign, term) :: t =>
      let* ec := signed_dict sign (get_element_count term) [] in
      apply_terms t (aggregate_dict_values updated ec)
  end.

(** The updated formula before the final sign check. *)
Definition modify_updated (fd : dict) (adduct : string) : res dict :=
  let comps := split_sign adduct in
  let updated := match multiplier_prefix (hd "" comps) with
                 | Some n => scale_dict n fd
                 | None => fd
                 end in
  apply_terms (pairs (tl comps)) updated.

Definition has_negative (d : dict) : bool := existsb (fun kv => snd kv <? 0) d.

Definition modify_formula_dict (fd : dict) (adduct : string) : res (option dict) :=
  let* updated := modify_updated fd adduct in
  Ok (if has_negative updated then None else Some updated).

Definition test_base : dict :=
  sdict [("N", 0); ("C", 5); ("O", 2); ("H", 8); ("P", 0); ("S", 0); ("Cl", 0); ("I", 0)].

Definition modify_matches (adduct : string) (expected : option (list (string * Z))) : bool :=
  match modify_formula_dict test_base adduct, expected with
  | Ok None, None => true
  | Ok (Some d), Some e => dict_eqb d (sdict e)
  | _, _ => false
  end.

Example modify_formula_dict_tests :
  modify_matches "-2C" (Some [("N", 0); ("C", 3); ("O", 2); ("H", 8); ("P", 0); ("S", 0); ("Cl", 0); ("I", 0)]) &&
  modify_matches "-H2O" (Some [("N", 0); ("C", 5); ("O", 1); ("H", 6); ("P", 0); ("S", 0); ("Cl", 0); ("I", 0)]) &&
  modify_matches "+H" (Some [("N", 0); ("C", 5); ("O", 2); ("H", 9); ("P", 0); ("S", 0); ("Cl", 0); ("I", 0)]) &&
  modify_matches "[M+H-NH4]" None &&
  modify_matches "[M+H+Na]2+" (Some [("N", 0); ("C", 5); ("O", 2); ("H", 9); ("P", 0); ("S", 0); ("Cl", 0); ("I", 0); ("Na", 1)]) &&
  modify_matches "[M-H]-" (Some [("N", 0); ("C", 5); ("O", 2); ("H", 7); ("P", 0); ("S", 0); ("Cl", 0); ("I", 0)]) &&
  modify_matches "[M+CH3OH+H]+" (Some [("N", 0); ("C", 6); ("O", 3); ("H", 13); ("P", 0); ("S", 0); ("Cl", 0); ("I", 0)]) &&
  modify_matches "[M+2Na-H]+" (Some [("N", 0); ("C", 5); ("O", 2); ("H", 7); ("P", 0); ("S", 0); ("Cl", 0); ("I", 0); ("Na", 2)]) &&
  modify_matches "[M+DMSO+2H]2+" (Some [("N", 0); ("C", 7); ("O", 3); ("H", 16); ("P", 0); ("S", 1); ("Cl", 0); ("I", 0)]) &&
  modify_matches "[M+2ACN+2H]2+" (Some [("N", 2); ("C", 9); ("O", 2); ("H", 16); ("P", 0); ("S", 0); ("Cl", 0); ("I", 0)]) &&
  modify_matches "[2M+NH4]+" (Some [("N", 1); ("C", 10); ("O", 4); ("H", 20); ("P", 0); ("S", 0); ("Cl", 0); ("I", 0)]) &&
  modify_matches "[3M-H]+" (Some [("N", 0); ("C", 15); ("O", 6); ("H", 23); ("P", 0); ("S", 0); ("Cl", 0); ("I", 0)])
  = true.
Proof. vm_compute. reflexivity. Qed.

(** [Compound.get_updated_compound], on values (the aliasing is treated in
    the module [Heap] below). *)
Definition ec_dict (ec : list (element * Z)) : dict :=
  map (fun ev => (KElem (fst ev), snd ev)) ec.

Definition get_updated_compound (db : isotope_db) (c : compound) (adduct : string)
  : res compound :=
  let* m := modify_formula_dict (ec_dict (element_count c)) adduct in
  Compound_init db m.

(* ------------------------------------------------------------------ *)
(** ** A sample isotope table

    Rows [element, isotope, mass, abundance] of the kind [data/iso_list.csv]
    holds (the table itself is data, not code of the repository). *)

Definition iso (s : string) (m a : Q) : isotope := mkIsotope s m a.

Definition el_C := mkElement "C" [iso "12C" 12 0.9893; iso "13C" 13.0033548378 0.0107].
Definition el_H := mkElement "H" [iso "1H" 1.00782503207 0.999885; iso "2H" 2.0141017778 0.000115].
Definition el_O := mkElement "O" [iso "16O" 15.99491461956 0.99757; iso "17O" 16.99913170 0.00038;
                                  iso "18O" 17.9991610 0.00205].
Definition el_N := mkElement "N" [iso "14N" 14.0030740048 0.99636; iso "15N" 15.0001088982 0.00364].
Definition el_F := mkElement "F" [iso "19F" 18.99840322 1].
Definition el_Na := mkElement "Na" [iso "23Na" 22.9897692809 1].
Definition el_Fe := mkElement "Fe" [iso "54Fe" 53.9396105 0.05845; iso "56Fe" 55.9349375 0.91754;
                                    iso "57Fe" 56.9353940 0.02119; iso "58Fe" 57.9332756 0.00282].
Definition el_Cl := mkElement "Cl" [iso "35Cl" 34.96885268 0.7576; iso "37Cl" 36.96590259 0.2424].

Definition sample_db : isotope_db := [el_C; el_H; el_Cl; el_F; el_Fe; el_N; el_Na; el_O].

Example fe_lookup :
  (let* e := db_getitem_str sample_db "Fe" in let* m := monoisotope e in Ok (iso_symbol m))
    = Ok "56Fe" /\
  (let* e := db_getitem_str sample_db "Fe" in Ok (map iso_symbol (other_isotopes e)))
    = Ok ["58Fe"; "57Fe"; "54Fe"].
Proof. split; vm_compute; reflexivity. Qed.

Example adduct_CHO :
  (let* c := Compound_new sample_db (sdict [("C", 1); ("H", 1); ("O", 1)]) in
   let* c' := get_updated_compound sample_db c "[M+H]+" in
   Ok (formula c', map iso_symbol (monoisos c'), Qeq_bool (monomass c') 30.01056468370))
  = Ok ("CH2O", ["12C"; "1H"; "16O"], true).
Proof. vm_compute. reflexivity. Qed.

(* ------------------------------------------------------------------ *)
(** ** [Compound.isopattern] *)

(** One row of the [peaks] frame: the isotope count columns, [mass],
    [abundance], [generation], [stop] and [noniso] ([None] for NaN). *)
Record row := mkRow {
  cnt : list (isotope * Z);
  mass : Q;
  abundance : Q;
  generation : Z;
  stop : Z;
  noniso : option isotope
}.

(** [row[iso]]: a missing column label raises [KeyError]. *)
Definition cnt_get (l : list (isotope * Z)) (i : isotope) : res Z :=
  match aget iso_eqb l i with Some v => Ok v | None => Err KeyError end.

Definition cnt_set := aset iso_eqb.

Definition with_stop (r : row) (s : Z) : row :=
  mkRow (cnt r) (mass r) (abundance r) (generation r) s (noniso r).
Definition with_noniso (r : row) (n : option isotope) : row :=
  mkRow (cnt r) (mass r) (abundance r) (generation r) (stop r) n.

Section Isopattern.
Variable db : isotope_db.
Variable c : compound.
Variable limit : Q.

(** The nested [isotope_permutation]; [Ok None] is the all-NaN row
    [pd.Series(None, index=row.index)]. *)
Definition isotope_permutation (r : row) : res (option row) :=
  if stop r =? 1 then Ok (Some r)
  else
    match noniso r with
    | None => Ok (Some r)
    | Some nonmono =>
        let* el := db_getitem_iso db nonmono in
        let* monoiso := monoisotope el in
        let* cm := cnt_get (cnt r) monoiso in
        if cm =? 0 then Ok None
        else
          let mass' := (mass r - iso_mass monoiso + iso_mass nonmono)%Q in
          let prop := (inject_Z cm / iso_abund monoiso)%Q in
          let* cn := cnt_get (cnt r) nonmono in
          let ab' := (abundance r * (iso_abund nonmono / (inject_Z cn + 1) * prop))%Q in
          let* cm' := cnt_get (cnt r) monoiso in
          let c1 := cnt_set (cnt r) monoiso (cm' - 1) in
          let* cn' := cnt_get c1 nonmono in
          let c2 := cnt_set c1 nonmono (cn' + 1) in
          Ok (Some (mkRow c2 mass' ab' (generation r + 1)
                          (if Qlt_bool ab' limit then 1 else stop r) (Some nonmono)))
    end.

(** The frame built before the loop. *)
Definition initial_peaks : list row :=
  let zeros := map (fun i => (i, 0)) (nonmonoisos c) in
  let base := fold_left (fun acc iv => cnt_set acc (fst iv) (snd iv))
                        (combine (monoisos c) (map snd (element_count c))) zeros in
  let mk n := mkRow base (monomass c) (monoabund c) 0 0 n in
  let single := match monoisos c with
                | [m] => Qeq_bool (iso_abund m) 1
                | _ => false
                end in
  (if single then with_stop (mk None) 1 else mk None)
    :: map (fun nm => mk (Some nm)) (nonmonoisos c).

Fixpoint filter_some (l : list (option row)) : list row :=
  match l with
  | [] => []
  | Some r :: t => r :: filter_some t
  | None :: t => filter_some t
  end.

(** numpy's [round] to [d] decimals: half to even on [x * 10^d]. *)
Definition rint (q : Q) : Z :=
  let n := Qnum q in
  let dd := Zpos (Qden q) in
  let fl := n / dd in
  let r := n mod dd in
  if 2 * r <? dd then fl
  else if dd <? 2 * r then fl + 1
  else if Z.even fl then fl else fl + 1.

Definition round_dec (d : Z) (x : Q) : Q := (inject_Z (rint (x * inject_Z (10 ^ d))) / inject_Z (10 ^ d))%Q.

Fixpoint cnt_eqb (a b : list (isotope * Z)) : bool :=
  match a, b with
  | [], [] => true
  | (i, v) :: t, (j, w) :: u => iso_eqb i j && (v =? w) && cnt_eqb t u
  | _, _ => false
  end.

(** The columns compared by [duplicated()]: counts, rounded [mass] and
    [abundance]. *)
Definition row_key (r : row) : list (isotope * Z) * Q * Q :=
  (cnt r, round_dec 9 (mass r), round_dec 3 (abundance r)).

Definition key_eqb (k1 k2 : list (isotope * Z) * Q * Q) : bool :=
  let '(c1, m1, a1) := k1 in
  let '(c2, m2, a2) := k2 in
  cnt_eqb c1 c2 && Qeq_bool m1 m2 && Qeq_bool a1 a2.

(** [peaks.drop(_peaks[_peaks.duplicated()].index)] where [_peaks] are
    the rows of generation [g]. *)
Fixpoint dedup_aux (g : Z) (seen : list (list (isotope * Z) * Q * Q)) (l : list row)
  : list row :=
  match l with
  | [] => []
  | r :: t =>
      if generation r =? g then
        if existsb (fun k => key_eqb k (row_key r)) seen then dedup_aux g seen t
        else r :: dedup_aux g (row_key r :: seen) t
      else r :: dedup_aux g seen t
  end.

Definition dedup (g : Z) (l : list row) : list row := dedup_aux g [] l.

Record state := mkState {
  peaks : list row;
  iteration : Z;
  n_tries : Z
}.

Definition active_at (it : Z) (r : row) : bool := (generation r =? it) && (stop r =? 0).

(** [any(peaks[peaks.generation == iteration].stop == 0) and n_tries < max_iter] *)
Definition loop_cond (max_iter : Z) (s : state) : bool :=
  existsb (active_at (iteration s)) (peaks s) && (n_tries s <? max_iter).

(** [over_limit.explode(["noniso"])] after every [noniso] cell was set to
    [self.nonmonoisos]; an empty list explodes to one NaN row. *)
Definition explode (over : list row) : list row :=
  flat_map (fun r => match nonmonoisos c with
                     | [] => [with_noniso r None]
                     | nms => map (fun nm => with_noniso r (Some nm)) nms
                     end) over.

Definition loop_body (s : state) : res state :=
  let* p1 := map_res isotope_permutation (peaks s) in
  let p2 := filter_some p1 in
  let p3 := if iteration s =? 0 then p2 else dedup (iteration s + 1) p2 in
  let it := iteration s + 1 in
  let nt := Z.of_nat (length p3) in
  let over := filter (active_at it) p3 in
  let p4 := match over with
            | [] => p3
            | _ => (map (fun r => with_stop r 1) p3 ++ explode over)%list
            end in
  Ok (mkState p4 it nt).

Inductive outcome :=
| Done (s : state)
| Raised (e : exn)
| OutOfFuel.

(** The [while] loop, run for at most [fuel] iterations. *)
Fixpoint run_loop (fuel : nat) (max_iter : Z) (s : state) : outcome :=
  match fuel with
  | O => OutOfFuel
  | S f =>
      if loop_cond max_iter s then
        match loop_body s with
        | Ok s' => run_loop f max_iter s'
        | Err e => Raised e
        end
      else Done s
  end.

Definition initial_state : state := mkState initial_peaks 0 0.
End Isopattern.

(** Values a float column can hold after the division of the relative
    scaling. *)
Inductive pyfloat :=
| Fin (q : Q)
| PInf
| NInf
| NaN.

(** numpy division of two floats. *)
Definition py_div (x y : Q) : pyfloat :=
  if Qeq_bool y 0 then
    if Qeq_bool x 0 then NaN else if Qlt_bool 0 x then PInf else NInf
  else Fin (x / y).

Section Sort.
Context {A : Type} (lt : A -> A -> bool).
Fixpoint sort_insert (x : A) (l : list A) : list A :=
  match l with
  | [] => [x]
  | y :: t => if lt x y then x :: l else y :: sort_insert x t
  end.
(** [sort_values]: ties keep their input order in the model (pandas'
    default quicksort leaves their order unspecified). *)
Definition sort_by (l : list A) : list A := fold_left (fun acc x => sort_insert x acc) l [].
End Sort.

(** Descending order of [sort_values(ascending=False)]; NaN last. *)
Definition pf_before (x y : pyfloat) : bool :=
  match x, y with
  | NaN, _ => false
  | _, NaN => true
  | PInf, PInf => false
  | PInf, _ => true
  | _, PInf => false
  | NInf, _ => false
  | Fin _, NInf => true
  | Fin a, Fin b => Qlt_bool b a
  end.

Definition Qmin2 (a b : Q) : Q := if Qle_bool a b then a else b.
Definition Qmax2 (a b : Q) : Q := if Qle_bool a b then b else a.

(** [Series.min()] and [Series.max()] (only used on non-empty columns). *)
Definition Qmin_list (l : list Q) : Q :=
  match l with [] => 0%Q | x :: t => fold_left Qmin2 t x end.
Definition Qmax_list (l : list Q) : Q :=
  match l with [] => 0%Q | x :: t => fold_left Qmax2 t x end.

(** The code after the loop, for [get_details=False]: the
    [(mass, abundance)] pairs. *)
Definition finalize (charge : Z) (scale : string) (rows : list row) : list (Q * pyfloat) :=
  let r1 := filter (fun r => negb (Qeq_bool (abundance r) 0)) rows in
  let masses := map (fun r => if charge =? 0 then mass r
                              else ((mass r - 5.486 * (1 / 10000) * inject_Z charge)
                                    / inject_Z (Z.abs charge))%Q) r1 in
  let ab := map abundance r1 in
  if String.eqb scale "rel" then
    let mn := Qmin_list ab in
    let mx := Qmax_list ab in
    sort_by (fun x y => pf_before (snd x) (snd y))
            (combine masses (map (fun a => py_div (100 * (a - mn)) (mx - mn))%Q ab))
  else sort_by (fun x y => Qlt_bool (fst x) (fst y)) (combine masses (map Fin ab)).

(** [Compound.isopattern(charge, abundance_limit, max_iter, False, scale)].
    The loop is given [max_iter + 1] iterations; [None] would mean it had
    not finished within them (theorem [isopattern_terminates] shows it
    always has). *)
Definition isopattern (db : isotope_db) (c : compound) (charge : Z) (abundance_limit : Q)
  (max_iter : Z) (scale : string) : option (res (list (Q * pyfloat))) :=
  match run_loop db c abundance_limit (S (Z.to_nat max_iter)) max_iter (initial_state c) with
  | Done s => Some (Ok (finalize charge scale (peaks s)))
  | Raised e => Some (Err e)
  | OutOfFuel => None
  end.

(* ------------------------------------------------------------------ *)
(** ** Association lists with values of any type *)

Section AnyAssoc.
Context {K V : Type} (eqk : K -> K -> bool).

Fixpoint kget (d : list (K * V)) (k : K) : option V :=
  match d with
  | [] => None
  | (k', v) :: t => if eqk k' k then Some v else kget t k
  end.

(** [d[k] = v] *)
Fixpoint kset (d : list (K * V)) (k : K) (v : V) : list (K * V) :=
  match d with
  | [] => [(k, v)]
  | (k', v') :: t => if eqk k' k then (k', v) :: t else (k', v') :: kset t k v
  end.
End AnyAssoc.

(* ------------------------------------------------------------------ *)
(** ** [IsotopeDB.get_mass_update] and [Element.__getitem__] *)

Definition get_mass_update (db : isotope_db) (item : string) : res Q :=
  let* '(elem, multiple, sign) := get_decoy_info item in
  let* e := db_getitem_str db elem in
  let* m := monoisotope e in
  Ok (iso_mass m * inject_Z multiple * inject_Z sign)%Q.

(** [Element._isotope_lookup]: [{iso.symbol: iso for iso in self.isotopes}]. *)
Definition isotope_lookup (e : element) : list (string * isotope) :=
  fold_left (fun acc i => kset String.eqb acc (iso_symbol i) i) (el_isotopes e) [].

(** [Element.__getitem__] with a string [item]; a missing key of the
    lookup dict raises [KeyError]. *)
Definition element_getitem (e : element) (item : string) : res isotope :=
  if String.eqb item (el_symbol e) then monoisotope e
  else match kget String.eqb (isotope_lookup e) item with
       | Some i => Ok i
       | None => Err KeyError
       end.

(* ------------------------------------------------------------------ *)
(** ** [utils.get_adducts] *)

(** The class [[M[+-]]: the characters [M], [[], [+] and [-]. *)
Definition adduct_head (c : ascii) : bool :=
  Ascii.eqb c "M"%char || Ascii.eqb c "["%char || is_sign c.

(** [(\d+)?[+-]] after the closing bracket: with backtracking, the first
    character after the run of digits must be a sign. *)
Definition adduct_tail (r : string) : bool :=
  match snd (span is_digit r) with
  | String c _ => is_sign c
  | EmptyString => false
  end.

(** [.*](\d+)?[+-]]: [.*] stops at some closing bracket before the first
    newline, which is followed by the tail. *)
Fixpoint adduct_body (r : string) : bool :=
  match r with
  | EmptyString => false
  | String c t =>
      (Ascii.eqb c "]"%char && adduct_tail t)
      || (negb (Ascii.eqb c newline) && adduct_body t)
  end.

(** [re.match("^[M[+-].*](\d+)?[+-]", item)] succeeds. *)
Definition adduct_match (item : string) : bool :=
  match item with
  | String c r => adduct_head c && adduct_body r
  | EmptyString => false
  end.

Definition get_adducts (header : list string) : list string := filter adduct_match header.

Example get_adducts_ex :
  get_adducts ["mz"; "[M+H]+"; "[M-H]-"; "[M+2H]2+"; "[M+H]"; "M+H"; "[2M+Na]+"; "-H]+";
               "M]]5"; "M]]5-"; "[M]12+x"; String "+" (String newline "]+")]
  = ["[M+H]+"; "[M-H]-"; "[M+2H]2+"; "[2M+Na]+"; "-H]+"; "M]]5-"; "[M]12+x"].
Proof. reflexivity. Qed.

(* ------------------------------------------------------------------ *)
(** ** [utils.get_ppm_range], [utils.calculate_ppm_error] *)

(** On one entry of the bound arrays (numpy works entrywise). *)
Definition get_ppm_range (lower_bound upper_bound ppm_error : Q) : Q * Q :=
  ((lower_bound + - ppm_error / 1000000 * lower_bound)%Q,
   (upper_bound + ppm_error / 1000000 * upper_bound)%Q).

Definition calculate_ppm_error (observed_mz theoretical_mz : Q) : Q :=
  (Qabs ((observed_mz - theoretical_mz) / theoretical_mz) * 1000000)%Q.

(* ------------------------------------------------------------------ *)
(** ** [utils.remove_noise], [utils.normalize_intensity] *)

(** A spectrum: the rows [(m/z, intensity)] of the two-column array. *)
Definition spectrum_rows := list (Q * Q).

(** [np.array(spectra)] of an empty list has one dimension, so
    [spectra[:, 1]] raises [IndexError]; a [None] threshold makes the
    product raise [TypeError]. *)
Definition remove_noise (spectra : spectrum_rows) (noise : option Q) : res spectrum_rows :=
  match spectra with
  | [] => Err IndexError
  | _ =>
      match noise with
      | None => Err TypeError
      | Some n =>
          let thr := (Qmax_list (map snd spectra) * n)%Q in
          Ok (map (fun p => (fst p, if Qle_bool thr (snd p) then snd p else 0%Q)) spectra)
      end
  end.

(** [np.sum(spectrum[:, 1])] *)
Definition intensity_sum (spectrum : spectrum_rows) : Q := fold_left Qplus (map snd spectrum) 0%Q.

(** The intensity column is divided in place; the array is returned. *)
Definition normalize_intensity (spectrum : spectrum_rows) : spectrum_rows :=
  if (0 <? length spectrum)%nat && Qlt_bool 0 (intensity_sum spectrum) then
    map (fun p => (fst p, snd p / intensity_sum spectrum)%Q) spectrum
  else spectrum.

(* ------------------------------------------------------------------ *)
(** ** [utils.get_file_delimiter] *)

(** [str.split(sep)] with a one-character separator. *)
Fixpoint str_split (sep : ascii) (s : string) : list string :=
  match s with
  | EmptyString => [""]
  | String c r =>
      if Ascii.eqb c sep then "" :: str_split sep r
      else match str_split sep r with
           | seg :: rest => String c seg :: rest
           | [] => [String c ""]
           end
  end.

Definition tab : ascii := ascii_of_nat 9.

(** Line ends of a file read in text mode (universal newlines). *)
Definition is_line_break (c : ascii) : bool := Ascii.eqb c newline || Ascii.eqb c (ascii_of_nat 13).

(** On the text of the file: [next(f)] raises [StopIteration] on an empty
    file; the [for] loop leaves [sep] at its last value [" "] when no
    separator splits the first line. *)
Definition get_file_delimiter (content : string) : res string :=
  match content with
  | EmptyString => Err StopIteration
  | _ =>
      let first_line := strip_ws (fst (span (fun c => negb (is_line_break c)) content)) in
      Ok (if (1 <? length (str_split ","%char first_line))%nat then ","
          else if (1 <? length (str_split tab first_line))%nat then String tab ""
          else " ")
  end.

(* ------------------------------------------------------------------ *)
(** ** [spectra.Spectra] *)

Definition VALID_RT_UNITS : list string := ["seconds"; "minute"; "hour"].

Definition CONVERSIONS : list ((string * string) * (Q -> Q)) :=
  [(("seconds", "minute"), fun x => x / 60);
   (("seconds", "hour"), fun x => x / 3600);
   (("minute", "seconds"), fun x => x * 60);
   (("minute", "hour"), fun x => x / 60);
   (("hour", "seconds"), fun x => x * 3600);
   (("hour", "minute"), fun x => x * 60)]%Q.

Definition pair_eqb (a b : string * string) : bool := String.eqb (fst a) (fst b) && String.eqb (snd a) (snd b).

Definition configure_retention_time_unit (unit : string) : res string :=
  if existsb (String.eqb unit) VALID_RT_UNITS then Ok unit else Err ValueError.

(** [_configure_retention_time], with [self.rtime_unit] passed in and
    returned. *)
Definition configure_retention_time (rtime_unit : option string) (rtime : Q) (unit : string)
  : res (option string * Q) :=
  let* unit := configure_retention_time_unit unit in
  match rtime_unit with
  | None => Ok (Some unit, rtime)
  | Some u =>
      if String.eqb u unit then Ok (rtime_unit, rtime)
      else match kget pair_eqb CONVERSIONS (unit, u) with
           | Some f => Ok (rtime_unit, f rtime)
           | None => Err KeyError
           end
  end.

(** What [_read_mzml_files] reads of one scan of a [pymzml] run;
    [negative_scan] is [None] when [spec["negative scan"]] raises
    [KeyError], and otherwise its truth value. *)
Record scan := mkScan {
  scan_time : Q * string;
  sc_index : Z;
  sc_ms_level : Z;
  sc_ID : Z;
  sc_mz : list Q;
  sc_i : list Q;
  negative_scan : option bool
}.

Record spectrum := mkSpectrum {
  spectrum_index : Z;
  ms_level : Z;
  rtime : Q;
  scan_index : Z;
  file : string;
  sp_mz : list Q;
  intensity : list Q;
  polarity : Z;
  rtime_unit : option string
}.

(** The inner loop over the scans of the run read from [path]. *)
Fixpoint read_run (path : string) (scans : list scan) (st : option string)
  : res (option string * list spectrum) :=
  match scans with
  | [] => Ok (st, [])
  | spec :: t =>
      let* '(st1, rt) := configure_retention_time st (fst (scan_time spec)) (snd (scan_time spec)) in
      let pol := match negative_scan spec with
                 | Some b => if b then 0 else 1
                 | None => -1
                 end in
      let sp := mkSpectrum (sc_index spec) (sc_ms_level spec) rt (sc_ID spec) path
                           (sc_mz spec) (sc_i spec) pol st1 in
      let* '(st2, rest) := read_run path t st1 in
      Ok (st2, sp :: rest)
  end.

Fixpoint read_mzml_files (files : list (string * list scan)) (st : option string)
  : res (option string * list spectrum) :=
  match files with
  | [] => Ok (st, [])
  | (path, scans) :: t =>
      let* '(st1, l1) := read_run path scans st in
      let* '(st2, l2) := read_mzml_files t st1 in
      Ok (st2, (l1 ++ l2)%list)
  end.

(** [Spectra(filepaths)]: the final [rtime_unit] and [spectra]. *)
Definition Spectra_init (files : list (string * list scan)) : res (option string * list spectrum) :=
  read_mzml_files files None.

(* ------------------------------------------------------------------ *)
(** ** [peak.Peak] and [peak.Peaks] *)

Record peak := mkPeak {
  peak_id : string;
  peak_mz : Q;
  peak_rt : Q;
  peak_accession : option string;
  peak_level : option Z;
  peak_annotation : option string;
  peak_formula : option compound
}.

(** The [formula] computed by [Peak.__post_init__]: only [ValueError] is
    ignored. *)
Definition Peak_formula (db : isotope_db) (formula_str : option string) : res (option compound) :=
  match formula_str with
  | None => Ok None
  | Some f =>
      match from_str db f with
      | Ok c => Ok (Some c)
      | Err ValueError => Ok None
      | Err e => Err e
      end
  end.

Definition Peak_new (db : isotope_db) (pid : string) (mz rt : Q) (formula_str : option string)
  (level : option Z) (accession annotation : option string) : res peak :=
  let* f := Peak_formula db formula_str in
  Ok (mkPeak pid mz rt accession level annotation f).

(** A row of the frame [_read_and_validate] returns, after the [mz] and
    [rt] columns were chosen and renamed and the optional columns added
    ([Unknown] and NaN cells being [None]). *)
Record peak_row := mkPeakRow {
  row_peak_id : string;
  row_mz : Q;
  row_rt : Q;
  row_formula : option string;
  row_level : option Z;
  row_accession : option string;
  row_annotation : option string
}.

(** [Series.nunique()] *)
Definition nunique (l : list string) : nat :=
  length (fold_left (fun acc x => if existsb (String.eqb x) acc then acc else (acc ++ [x])%list) l []).

(** The duplicate check of [_read_and_validate]. *)
Definition validate_peak_ids (df : list peak_row) : res (list peak_row) :=
  if (length df =? nunique (map row_peak_id df))%nat then Ok df else Err ValueError.

(** The dict comprehension of [_process_peaks]. *)
Fixpoint process_rows (db : isotope_db) (rows : list peak_row) (acc : list (string * peak))
  : res (list (string * peak)) :=
  match rows with
  | [] => Ok acc
  | r :: t =>
      let* p := Peak_new db (row_peak_id r) (row_mz r) (row_rt r) (row_formula r)
                         (row_level r) (row_accession r) (row_annotation r) in
      process_rows db t (kset String.eqb acc (row_peak_id r) p)
  end.

Definition process_peaks (db : isotope_db) (df : list peak_row) : res (list (string * peak)) :=
  let* df := validate_peak_ids df in process_rows db df [].

(** [Peaks.__getitem__] *)
Definition Peaks_getitem (peaks : list (string * peak)) (item : string) : res peak :=
  match kget String.eqb peaks item with
  | Some p => Ok p
  | None => Err KeyError
  end.

(* ================================================================== *)
(** * Auxiliary definitions of the proofs *)

(** The decoy grammar of the specification: [Sign [Digits] ElementSymbol],
    an element symbol being a capital optionally followed by a small letter. *)
Definition element_symbol_ok (s : string) : bool :=
  match s with
  | String u EmptyString => is_upper u
  | String u (String l EmptyString) => is_upper u && is_lower l
  | _ => false
  end.

Definition decoy_grammar (s : string) : bool :=
  match s with
  | String c r => is_sign c && element_symbol_ok (snd (span is_digit r))
  | EmptyString => false
  end.

Definition row_13C : row :=
  mkRow [(iso "13C" 13.0033548378 0.0107, 0); (iso "12C" 12 0.9893, 2)]
        24 (0.9893 * 0.9893) 0 0 (Some (iso "13C" 13.0033548378 0.0107)).

(** Number of rows satisfying [p]. *)
Definition count_rows (p : row -> bool) (l : list row) : nat := length (filter p l).

Definition stopped (r : row) : bool := stop r =? 1.

(** Invariant of the generation loop: no row is ahead of the iteration
    counter and at least [n_tries] rows are stopped. *)
Definition loop_inv (s : state) : Prop :=
  Forall (fun r => generation r <= iteration s) (peaks s) /\
  n_tries s <= Z.of_nat (count_rows stopped (peaks s)).

(** String-keyed versions of the dictionaries built from symbols. *)
Definition sunion (A B : list (string * Z)) : list (string * Z) :=
  fold_left (fun acc kv => aset String.eqb acc (fst kv) (snd kv)) B A.

Definition nonzero (kv : string * Z) : bool := negb (snd kv =? 0).

Definition nzopt (o : option Z) : option Z :=
  match o with Some v => if v =? 0 then None else Some v | None => None end.

Definition valid_zeros : list (string * Z) := map (fun s => (s, 0)) VALID_ELEMENTS.

Definition inb (k : string) (l : list string) : bool := existsb (String.eqb k) l.

(** The formula string of a list of symbol-count pairs. *)
Definition render_pairs (L : list (string * Z)) : string :=
  String.concat "" (map (fun kv => fst kv ++ (if snd kv =? 1 then "" else str_Z (snd kv))) L).

(** A database in which every element symbol is a capital optionally
    followed by a small letter, and looking a symbol up gives its element. *)
Definition db_wf (db : isotope_db) : Prop :=
  forall e, In e db -> element_symbol_ok (el_symbol e) = true /\ db_getitem_str db (el_symbol e) = Ok e.

Definition ethanol_counts : list (string * Z) := [("C", 2); ("H", 6); ("O", 1)].

Definition ethanol : compound :=
  match Compound_new sample_db (sdict ethanol_counts) with
  | Ok c => c
  | Err _ => mkCompound [] "" 0 0 [] []
  end.

Definition count_str (v : Z) : string := if v =? 1 then "" else str_Z v.

(** The adduct arithmetic as the specification words it: a term's count
    is added after a [+] and subtracted after a [-]. *)
Definition signed_count (sign : string) (v : Z) : Z := if String.eqb sign "-" then - v else v.

Definition signed_terms_spec (sign : string) (d : dict) : dict :=
  fold_left (fun acc kv => dset acc (fst kv) (signed_count sign (snd kv))) d [].

Definition apply_terms_spec (l : list (string * string)) (updated : dict) : dict :=
  fold_left (fun upd st => aggregate_dict_values upd (signed_terms_spec (fst st) (get_element_count (snd st))))
            l updated.

Definition sign_ok (p : string * string) : Prop := fst p = "+" \/ fst p = "-".

Definition nonneg_dict (d : dict) : Prop := Forall (fun kv => 0 <= snd kv) d.

Definition modify_updated_spec (fd : dict) (adduct : string) : dict :=
  let comps := split_sign adduct in
  let updated := match multiplier_prefix (hd "" comps) with
                 | Some n => scale_dict n fd
                 | None => fd
                 end in
  apply_terms_spec (pairs (tl comps)) updated.

(* ------------------------------------------------------------------ *)
(** ** Dicts as shared objects

    [modify_formula_dict] and [Compound.get_updated_compound] with the
    dicts they touch kept in a store of objects addressed by numbers:
    [formula_dict.copy()], a dict display or a comprehension allocates a
    new dict, and [aggregate_dict_values] writes into its second argument. *)
Module Heap.

Definition store := list dict.

Definition load (h : store) (a : nat) : dict := nth a h [].

Definition alloc (h : store) (d : dict) : store * nat := ((h ++ [d])%list, length h).

(** Replacing the contents of the dict at [a]. *)
Fixpoint update (h : store) (a : nat) (d : dict) : store :=
  match h, a with
  | [], _ => []
  | _ :: t, O => d :: t
  | x :: t, S a' => x :: update t a' d
  end.

(** [aggregate_dict_values(dict1, dict2)]: [dict2] is updated and returned. *)
Definition aggregate_dict_values_h (h : store) (a1 a2 : nat) : store * nat :=
  (update h a2 (aggregate_dict_values (load h a1) (load h a2)), a2).

Fixpoint apply_terms_h (l : list (string * string)) (h : store) (u : nat) : store * res nat :=
  match l with
  | [] => (h, Ok u)
  | (sign, term) :: t =>
      let '(h1, a_ec) := alloc h (get_element_count term) in
      match signed_dict sign (load h1 a_ec) [] with
      | Err e => (h1, Err e)
      | Ok sd =>
          let '(h2, a_sd) := alloc h1 sd in
          let '(h3, u') := aggregate_dict_values_h h2 u a_sd in
          apply_terms_h t h3 u'
      end
  end.

Definition modify_formula_dict_h (h : store) (fd : nat) (adduct : string) : store * res (option nat) :=
  let '(h1, u0) := alloc h (load h fd) in
  let comps := split_sign adduct in
  let '(h2, u1) := match multiplier_prefix (hd "" comps) with
                   | Some n => alloc h1 (scale_dict n (load h1 u0))
                   | None => (h1, u0)
                   end in
  match apply_terms_h (pairs (tl comps)) h2 u1 with
  | (h3, Err e) => (h3, Err e)
  | (h3, Ok u) => (h3, Ok (if has_negative (load h3 u) then None else Some u))
  end.

(** A [Compound] object: the address of its [element_count] dict and its
    other attributes, which [get_updated_compound] never assigns. *)
Record cobj := mkCobj { c_ec : nat; c_val : compound }.

Definition obj_ok (h : store) (o : cobj) : Prop :=
  (c_ec o < length h)%nat /\ load h (c_ec o) = ec_dict (element_count (c_val o)).

(** [Compound(modify_formula_dict(self.element_count, adduct), self.isotope_db)]:
    [Compound.__init__] reads the formula through [order | formula] and
    allocates the new compound's [element_count]. *)
Definition get_updated_compound_h (db : isotope_db) (h : store) (self : cobj) (adduct : string)
  : store * res cobj :=
  match modify_formula_dict_h h (c_ec self) adduct with
  | (h1, Err e) => (h1, Err e)
  | (h1, Ok m) =>
      match Compound_init db (option_map (load h1) m) with
      | Err e => (h1, Err e)
      | Ok c => let '(h2, a) := alloc h1 (ec_dict (element_count c)) in (h2, Ok (mkCobj a c))
      end
  end.

End Heap.

(** Extra properties: the symbol a key compares equal to. *)
Definition key_symbol (k : pykey) : string :=
  match k with KStr s => s | KElem e => el_symbol e end.

(** Every key of [d] is a string. *)
Definition str_keys (d : dict) : Prop := Forall (fun kv => exists s, fst kv = KStr s) d.

(** Sum of the values [d] lists under keys equal to [k]. *)
Definition key_sum (d : dict) (k : string) : Z :=
  fold_right (fun kv acc => (if pykey_eqb (fst kv) (KStr k) then snd kv else 0) + acc) 0 d.

(** Total under [k] of the element counts of the groups, with multiplier 1. *)
Definition groups_total (L : list (string * Z)) (k : string) : Z :=
  fold_right (fun sd tot =>
    fold_right (fun elem t2 => key_sum (elem_count elem (snd sd)) k + t2) 0
               (snd (upper_runs (fst sd))) + tot) 0 L.

(** A capital followed by small letters. *)
Definition capitalised (s : string) : bool :=
  match s with
  | String u w => is_upper u && str_forallb is_lower w
  | EmptyString => false
  end.

(** The count of the last pair of [L] with key [k]. *)
Definition last_value (L : list (string * Z)) (k : string) : option Z :=
  fold_left (fun acc kv => if String.eqb (fst kv) k then Some (snd kv) else acc) L None.

(** Equality of two results of float computations: equal values or the
    same exception. *)
Definition res_Qeq (x y : res Q) : Prop :=
  match x, y with
  | Ok a, Ok b => (a == b)%Q
  | Err e1, Err e2 => e1 = e2
  | _, _ => False
  end.

(** Float [<=] on the abundances of two isotopes. *)
Definition abund_le (a b : isotope) : Prop := (iso_abund a <= iso_abund b)%Q.

(** One row of the array [remove_noise] returns, for the threshold [thr]. *)
Definition noise_keep (thr : Q) (p : Q * Q) : Q * Q :=
  (fst p, if Qle_bool thr (snd p) then snd p else 0%Q).

(** Seconds per retention-time unit. *)
Definition secs_per_unit (u : string) : Q :=
  if String.eqb u "seconds" then 1%Q else if String.eqb u "minute" then 60%Q else 3600%Q.

(** The scans of the files [_read_mzml_files] reads, each with its path. *)
Definition all_scans (files : list (string * list scan)) : list (string * scan) :=
  flat_map (fun f => map (pair (fst f)) (snd f)) files.

(** A spectrum read from scan [ps] when the retention times are
    expressed in the unit [u0]. *)
Definition spectrum_of_scan (u0 : string) (ps : string * scan) (sp : spectrum) : Prop :=
  file sp = fst ps /\ spectrum_index sp = sc_index (snd ps) /\ ms_level sp = sc_ms_level (snd ps) /\
  scan_index sp = sc_ID (snd ps) /\ sp_mz sp = sc_mz (snd ps) /\ intensity sp = sc_i (snd ps) /\
  rtime_unit sp = Some u0 /\
  (rtime sp * secs_per_unit u0 == fst (scan_time (snd ps)) * secs_per_unit (snd (scan_time (snd ps))))%Q.

(* ================================================================== *)
(** * Properties *)

(* ------------------------------------------------------------------ *)
(** ** Association lists *)

Section AssocLemmas.
Context {K : Type} (eqk : K -> K -> bool).
Hypothesis eqk_refl : forall k, eqk k k = true.
Hypothesis eqk_sym : forall a b, eqk a b = eqk b a.
Hypothesis eqk_trans : forall a b c, eqk a b = true -> eqk b c = true -> eqk a c = true.

Lemma aget_aset (d : list (K * Z)) k v k' :
  aget eqk (aset eqk d k v) k' = if eqk k k' then Some v else aget eqk d k'.
Proof.
  induction d as [|[k0 v0] t IH]; simpl.
  - rewrite eqk_sym. destruct (eqk k k'); reflexivity.
  - destruct (eqk k0 k) eqn:E0; simpl.
    + destruct (eqk k0 k') eqn:E1, (eqk k k') eqn:E2; try reflexivity.
      * rewrite eqk_sym in E0. rewrite (eqk_trans _ _ _ E0 E1) in E2. discriminate.
      * rewrite (eqk_trans _ _ _ E0 E2) in E1. discriminate.
    + destruct (eqk k0 k') eqn:E1; [|exact IH].
      destruct (eqk k k') eqn:E2; [|reflexivity].
      rewrite eqk_sym in E2. rewrite (eqk_trans _ _ _ E1 E2) in E0. discriminate.
Qed.
End AssocLemmas.

Lemma Qeq_bool_refl' (q : Q) : Qeq_bool q q = true.
Proof. apply Qeq_bool_iff. reflexivity. Qed.

Lemma Qeq_bool_sym' (a b : Q) : Qeq_bool a b = Qeq_bool b a.
Proof.
  destruct (Qeq_bool a b) eqn:E1, (Qeq_bool b a) eqn:E2; try reflexivity.
  - apply Qeq_bool_iff in E1. symmetry in E1. apply Qeq_bool_iff in E1. congruence.
  - apply Qeq_bool_iff in E2. symmetry in E2. apply Qeq_bool_iff in E2. congruence.
Qed.

Lemma Qeq_bool_trans' (a b c : Q) :
  Qeq_bool a b = true -> Qeq_bool b c = true -> Qeq_bool a c = true.
Proof.
  intros H1 H2. apply Qeq_bool_iff in H1, H2. apply Qeq_bool_iff. now rewrite H1.
Qed.

Lemma iso_eqb_refl i : iso_eqb i i = true.
Proof. unfold iso_eqb. now rewrite !Qeq_bool_refl', String.eqb_refl. Qed.

Lemma iso_eqb_sym a b : iso_eqb a b = iso_eqb b a.
Proof.
  unfold iso_eqb. rewrite (Qeq_bool_sym' (iso_abund a)), (Qeq_bool_sym' (iso_mass a)),
    String.eqb_sym. reflexivity.
Qed.

Lemma iso_eqb_trans a b c : iso_eqb a b = true -> iso_eqb b c = true -> iso_eqb a c = true.
Proof.
  unfold iso_eqb. intros H1 H2.
  apply andb_true_iff in H1 as [H1 H1m]; apply andb_true_iff in H1 as [H1a H1s].
  apply andb_true_iff in H2 as [H2 H2m]; apply andb_true_iff in H2 as [H2a H2s].
  apply String.eqb_eq in H1s, H2s.
  rewrite (Qeq_bool_trans' _ _ _ H1a H2a), (Qeq_bool_trans' _ _ _ H1m H2m).
  rewrite H1s, H2s, String.eqb_refl. reflexivity.
Qed.

Lemma cnt_get_set l i v j :
  cnt_get (cnt_set l i v) j = if iso_eqb i j then Ok v else cnt_get l j.
Proof.
  unfold cnt_get, cnt_set.
  rewrite (aget_aset iso_eqb iso_eqb_sym iso_eqb_trans).
  destruct (iso_eqb i j); reflexivity.
Qed.

(* ------------------------------------------------------------------ *)
(** ** C7: decoy parsing *)

(** C7 (code_bug).  [get_decoy_info] maps [+2Fe] to [(Fe, 2, 1)] and [-H]
    to [(H, 1, -1)] and raises on [Fe+], but it does not raise on [+],
    which does not follow [Sign [Digits] ElementSymbol]: it returns the
    empty element with multiple 1 and sign 1. *)
Theorem get_decoy_info_accepts_malformed :
  get_decoy_info "+2Fe" = Ok ("Fe", 2, 1) /\
  get_decoy_info "-H" = Ok ("H", 1, -1) /\
  get_decoy_info "Fe+" = Err ValueError /\
  decoy_grammar "+" = false /\
  get_decoy_info "+" = Ok ("", 1, 1).
Proof. repeat split; reflexivity. Qed.

(* ------------------------------------------------------------------ *)
(** ** C2: one substitution step *)

(** C2.  On an active row ([stop = 0]) whose target [nonmono] belongs to
    an element with monoisotope [monoiso]: when no atom of [monoiso] is
    left the row is discarded (the all-NaN row); otherwise the mass
    becomes [mass - monoiso.mass + nonmono.mass], the abundance
    [abundance * (nonmono.abundance / (cn + 1)) * (cm / monoiso.abundance)],
    the [monoiso] count drops by one, the [nonmono] count rises by one,
    the other counts are kept, the generation rises by one and the row
    stops exactly when the new abundance is below the limit. *)
Theorem isotope_permutation_step (db : isotope_db) (limit : Q) (r : row)
  (nonmono monoiso : isotope) (el : element) (cm cn : Z) :
  stop r = 0 ->
  noniso r = Some nonmono ->
  db_getitem_iso db nonmono = Ok el ->
  monoisotope el = Ok monoiso ->
  iso_eqb monoiso nonmono = false ->
  cnt_get (cnt r) monoiso = Ok cm ->
  cnt_get (cnt r) nonmono = Ok cn ->
  (cm = 0 -> isotope_permutation db limit r = Ok None) /\
  (1 <= cm ->
   exists r',
     isotope_permutation db limit r = Ok (Some r') /\
     mass r' = (mass r - iso_mass monoiso + iso_mass nonmono)%Q /\
     (abundance r' == abundance r * (iso_abund nonmono / (inject_Z cn + 1))
                      * (inject_Z cm / iso_abund monoiso))%Q /\
     cnt_get (cnt r') monoiso = Ok (cm - 1) /\
     cnt_get (cnt r') nonmono = Ok (cn + 1) /\
     (forall i, iso_eqb monoiso i = false -> iso_eqb nonmono i = false ->
                cnt_get (cnt r') i = cnt_get (cnt r) i) /\
     generation r' = generation r + 1 /\
     stop r' = (if Qlt_bool (abundance r') limit then 1 else 0) /\
     noniso r' = Some nonmono).
Proof.
  intros Hs Hn Hel Hmi Hne Hcm Hcn.
  unfold isotope_permutation. rewrite Hs, Hn, Hel. cbn [bind Z.eqb]. rewrite Hmi. cbn [bind].
  rewrite Hcm. cbn [bind]. split.
  - intros ->. reflexivity.
  - intros Hge. destruct (cm =? 0) eqn:E0; [apply Z.eqb_eq in E0; lia|].
    rewrite Hcn. cbn [bind]. rewrite cnt_get_set, Hne, Hcn. cbn [bind].
    eexists. split; [reflexivity|]. simpl.
    repeat split.
    + ring.
    + rewrite cnt_get_set, iso_eqb_sym, Hne, cnt_get_set, iso_eqb_refl. reflexivity.
    + rewrite cnt_get_set, iso_eqb_refl. reflexivity.
    + intros i H1 H2. rewrite cnt_get_set, H2, cnt_get_set, H1. reflexivity.
Qed.

Lemma isotope_permutation_step_witness :
  exists r', isotope_permutation sample_db (1 / 1000) row_13C = Ok (Some r') /\
             cnt_get (cnt r') (iso "12C" 12 0.9893) = Ok 1.
Proof.
  destruct (isotope_permutation_step sample_db (1 / 1000) row_13C
              (iso "13C" 13.0033548378 0.0107) (iso "12C" 12 0.9893) el_C 2 0
              eq_refl eq_refl eq_refl eq_refl eq_refl eq_refl eq_refl) as [_ H].
  destruct H as [r' [H1 [_ [_ [H4 _]]]]]; [lia|].
  exists r'. split; [exact H1 | exact H4].
Defined.

(* ------------------------------------------------------------------ *)
(** ** C1: termination of the generation loop *)

Lemma map_res_Forall2 {A B} (f : A -> res B) l l' :
  map_res f l = Ok l' -> Forall2 (fun x y => f x = Ok y) l l'.
Proof.
  revert l'. induction l as [|x t IH]; intros l' H; simpl in H.
  - inversion H. constructor.
  - destruct (f x) eqn:Ef; [|discriminate]. simpl in H.
    destruct (map_res f t) eqn:Et; [|discriminate]. simpl in H.
    inversion H; subst. constructor; [exact Ef | apply IH; reflexivity].
Qed.

Lemma count_rows_cons p r l :
  count_rows p (r :: l) = ((if p r then 1 else 0) + count_rows p l)%nat.
Proof. unfold count_rows. simpl. destruct (p r); reflexivity. Qed.

Lemma count_rows_app p l1 l2 :
  count_rows p (l1 ++ l2) = (count_rows p l1 + count_rows p l2)%nat.
Proof. unfold count_rows. rewrite filter_app, length_app. reflexivity. Qed.

Lemma count_rows_ext p q l :
  (forall r, In r l -> p r = q r) -> count_rows p l = count_rows q l.
Proof.
  intros H. unfold count_rows. f_equal. apply filter_ext_in. exact H.
Qed.

Lemma count_rows_disjoint p q l :
  (forall r, p r = true -> q r = true -> False) ->
  (count_rows p l + count_rows q l <= length l)%nat.
Proof.
  intros Hd. induction l as [|r t IH]; [unfold count_rows; simpl; lia|].
  rewrite !count_rows_cons. simpl.
  destruct (p r) eqn:E1, (q r) eqn:E2; try lia. exfalso. exact (Hd r E1 E2).
Qed.

Lemma count_rows_pos p l r : In r l -> p r = true -> (1 <= count_rows p l)%nat.
Proof.
  intros Hi Hp. unfold count_rows.
  destruct (filter p l) eqn:E; [|simpl; lia].
  assert (In r (filter p l)) by (apply filter_In; auto). rewrite E in H. destruct H.
Qed.

Lemma isotope_permutation_stopped db limit r :
  stop r = 1 -> isotope_permutation db limit r = Ok (Some r).
Proof. intros H. unfold isotope_permutation. rewrite H. reflexivity. Qed.

Lemma isotope_permutation_generation db limit r r' :
  isotope_permutation db limit r = Ok (Some r') ->
  generation r' <= generation r + 1.
Proof.
  unfold isotope_permutation. intros H.
  destruct (stop r =? 1); [inversion H; subst; lia|].
  destruct (noniso r) as [nm|]; [|inversion H; subst; lia].
  destruct (db_getitem_iso db nm) as [el|]; [|discriminate]. cbn [bind] in H.
  destruct (monoisotope el) as [mi|]; [|discriminate]. cbn [bind] in H.
  destruct (cnt_get (cnt r) mi) as [cm|]; [|discriminate]. cbn [bind] in H.
  destruct (cm =? 0); [discriminate|].
  destruct (cnt_get (cnt r) nm) as [cn|]; [|discriminate]. cbn [bind] in H.
  destruct (cnt_get (cnt_set (cnt r) mi (cm - 1)) nm) as [cn'|]; [|discriminate].
  cbn [bind] in H. inversion H; subst. simpl. lia.
Qed.

Section LoopStep.
Variable db : isotope_db.
Variable c : compound.
Variable limit : Q.

Let rel (x : row) (y : option row) := isotope_permutation db limit x = Ok y.

Lemma filter_some_count (p : row -> bool) l p1 :
  (forall r, p r = true -> stop r = 1) ->
  Forall2 rel l p1 -> (count_rows p l <= count_rows p (filter_some p1))%nat.
Proof.
  intros Hp HF. induction HF as [|x y t u Hxy HF IH]; [unfold count_rows; simpl; lia|].
  rewrite count_rows_cons. destruct (p x) eqn:E.
  - unfold rel in Hxy. rewrite (isotope_permutation_stopped db limit x (Hp x E)) in Hxy.
    inversion Hxy; subst. cbn [filter_some]. rewrite count_rows_cons, E. lia.
  - destruct y as [y|]; cbn [filter_some]; [rewrite count_rows_cons; destruct (p y)|]; lia.
Qed.

Lemma filter_some_generation it l p1 :
  Forall (fun r => generation r <= it) l -> Forall2 rel l p1 ->
  Forall (fun r => generation r <= it + 1) (filter_some p1).
Proof.
  intros Hg HF. induction HF as [|x y t u Hxy HF IH]; simpl; [constructor|].
  inversion Hg; subst.
  destruct y as [y|]; [|auto].
  constructor; [|auto].
  apply isotope_permutation_generation in Hxy. lia.
Qed.
End LoopStep.

Lemma dedup_aux_count g p seen l :
  (forall r, p r = true -> generation r <> g) ->
  count_rows p (dedup_aux g seen l) = count_rows p l.
Proof.
  intros Hp. revert seen. induction l as [|r t IH]; intros seen; [reflexivity|].
  simpl. destruct (generation r =? g) eqn:Eg.
  - apply Z.eqb_eq in Eg.
    assert (p r = false) as Hr.
    { destruct (p r) eqn:E; [exfalso; exact (Hp r E Eg) | reflexivity]. }
    destruct (existsb _ seen);
      rewrite ?count_rows_cons, IH, ?count_rows_cons, Hr; reflexivity.
  - rewrite !count_rows_cons, IH. reflexivity.
Qed.

Lemma dedup_aux_incl g seen l r : In r (dedup_aux g seen l) -> In r l.
Proof.
  revert seen. induction l as [|x t IH]; intros seen H; simpl in H; [destruct H|].
  destruct (generation x =? g); [destruct (existsb _ seen)|].
  - right. eapply IH. exact H.
  - destruct H as [->|H]; [left; reflexivity | right; eapply IH; exact H].
  - destruct H as [->|H]; [left; reflexivity | right; eapply IH; exact H].
Qed.

Lemma explode_generation c over x :
  In x (explode c over) -> exists r, In r over /\ generation x = generation r.
Proof.
  unfold explode. intros H. apply in_flat_map in H as [r [Hr Hx]].
  exists r. split; [exact Hr|].
  destruct (nonmonoisos c) as [|nm nms].
  - destruct Hx as [<-|[]]. reflexivity.
  - apply in_map_iff in Hx as [n [<- _]]. reflexivity.
Qed.

Lemma count_rows_freeze l :
  count_rows stopped (map (fun r => with_stop r 1) l) = length l.
Proof. induction l as [|r t IH]; [reflexivity|]. simpl. rewrite count_rows_cons, IH. reflexivity. Qed.

(** One iteration of the loop keeps the invariant's first half, and when
    the loop goes on, [n_tries] grows strictly and the second half holds. *)
Lemma loop_body_progress db c limit s s' :
  Forall (fun r => generation r <= iteration s) (peaks s) ->
  loop_body db c limit s = Ok s' ->
  iteration s' = iteration s + 1 /\
  Forall (fun r => generation r <= iteration s') (peaks s') /\
  (existsb (active_at (iteration s')) (peaks s') = true ->
   Z.of_nat (count_rows stopped (peaks s)) + 1 <= n_tries s' /\
   n_tries s' <= Z.of_nat (count_rows stopped (peaks s'))).
Proof.
  intros Hg Hb. unfold loop_body in Hb.
  destruct (map_res (isotope_permutation db limit) (peaks s)) as [p1|] eqn:Hp1; [|discriminate].
  cbn [bind] in Hb. apply map_res_Forall2 in Hp1.
  set (it := iteration s) in *.
  set (p2 := filter_some p1) in *.
  set (p3 := if it =? 0 then p2 else dedup (it + 1) p2) in *.
  set (P := fun r => stopped r && (generation r <=? it)).
  assert (HP : forall r, P r = true -> stop r = 1).
  { intros r H. unfold P, stopped in H. apply andb_true_iff in H as [H _]. lia. }
  assert (Hc0 : count_rows stopped (peaks s) = count_rows P (peaks s)).
  { apply count_rows_ext. intros r Hr. rewrite Forall_forall in Hg.
    specialize (Hg r Hr). unfold P. destruct (stopped r); simpl; [|reflexivity].
    symmetry. apply Z.leb_le. exact Hg. }
  assert (Hc2 : (count_rows P (peaks s) <= count_rows P p2)%nat)
    by (apply (filter_some_count db limit); assumption).
  assert (Hc3 : count_rows P p3 = count_rows P p2).
  { unfold p3. destruct (it =? 0); [reflexivity|]. unfold dedup.
    apply dedup_aux_count. intros r H. unfold P in H.
    apply andb_true_iff in H as [_ H]. apply Z.leb_le in H. lia. }
  assert (Hg2 : Forall (fun r => generation r <= it + 1) p2)
    by (apply (filter_some_generation db limit it (peaks s)); assumption).
  assert (Hg3 : Forall (fun r => generation r <= it + 1) p3).
  { unfold p3. destruct (it =? 0); [exact Hg2|].
    rewrite Forall_forall in *. intros r Hr. apply Hg2. eapply dedup_aux_incl. exact Hr. }
  destruct (filter (active_at (it + 1)) p3) as [|r0 over'] eqn:Hover;
    inversion Hb; subst; cbn [peaks iteration n_tries]; (split; [reflexivity|]).
  - split; [exact Hg3|]. intros Hex. exfalso.
    apply existsb_exists in Hex as [r [Hr Ha]].
    assert (In r (filter (active_at (it + 1)) p3)) by (apply filter_In; auto).
    rewrite Hover in H. destruct H.
  - split.
    + apply Forall_app. split.
      * rewrite Forall_forall in *. intros x Hx. apply in_map_iff in Hx as [r [<- Hr]].
        simpl. apply Hg3. exact Hr.
      * rewrite Forall_forall in *. intros x Hx.
        apply (explode_generation c (r0 :: over')) in Hx as [r [Hr ->]].
        assert (In r (filter (active_at (it + 1)) p3)) by (rewrite Hover; exact Hr).
        apply filter_In in H as [H _]. apply Hg3. exact H.
    + intros _.
      assert (Hr0 : In r0 (filter (active_at (it + 1)) p3)) by (rewrite Hover; left; reflexivity).
      apply filter_In in Hr0 as [Hr0 Ha0].
      pose proof (count_rows_pos (fun r => generation r =? it + 1) p3 r0 Hr0) as Hpos.
      assert ((generation r0 =? it + 1) = true) as Hq.
      { unfold active_at in Ha0. apply andb_true_iff in Ha0 as [H _]. exact H. }
      specialize (Hpos Hq).
      pose proof (count_rows_disjoint P (fun r => generation r =? it + 1) p3) as Hdis.
      assert (Hd : forall r, P r = true -> (generation r =? it + 1) = true -> False).
      { intros r H1 H2. unfold P in H1. apply andb_true_iff in H1 as [_ H1].
        apply Z.leb_le in H1. apply Z.eqb_eq in H2. lia. }
      specialize (Hdis Hd).
      rewrite count_rows_app, count_rows_freeze. lia.
Qed.

Lemma initial_peaks_generation c :
  Forall (fun r => generation r <= 0) (initial_peaks c).
Proof.
  unfold initial_peaks. constructor.
  - destruct (match monoisos c with [m] => _ | _ => false end); simpl; lia.
  - apply Forall_forall. intros x Hx. apply in_map_iff in Hx as [n [<- _]]. simpl. lia.
Qed.

Lemma run_loop_not_out_of_fuel db c limit max_iter k s :
  loop_inv s -> (Z.to_nat (max_iter - n_tries s) <= k)%nat ->
  run_loop db c limit (S k) max_iter s <> OutOfFuel.
Proof.
  revert s. induction k as [|k IH]; intros s [Hg Hn] Hk; simpl.
  - destruct (loop_cond max_iter s) eqn:Hc; [|discriminate].
    unfold loop_cond in Hc. apply andb_true_iff in Hc as [_ Hc]. apply Z.ltb_lt in Hc. lia.
  - destruct (loop_cond max_iter s) eqn:Hc; [|discriminate].
    unfold loop_cond in Hc. apply andb_true_iff in Hc as [_ Hc]. apply Z.ltb_lt in Hc.
    destruct (loop_body db c limit s) as [s'|e] eqn:Hb; [|discriminate].
    destruct (loop_body_progress db c limit s s' Hg Hb) as [Hit [Hg' Hex]].
    destruct (existsb (active_at (iteration s')) (peaks s')) eqn:Ha.
    + destruct (Hex eq_refl) as [H1 H2].
      apply IH; [split; assumption | lia].
    + simpl. unfold loop_cond. rewrite Ha. discriminate.
Qed.

Lemma run_loop_done db c limit fuel max_iter s s' :
  run_loop db c limit fuel max_iter s = Done s' -> loop_cond max_iter s' = false.
Proof.
  revert s. induction fuel as [|f IH]; intros s H; simpl in H; [discriminate|].
  destruct (loop_cond max_iter s) eqn:Hc.
  - destruct (loop_body db c limit s); [eapply IH; exact H | discriminate].
  - inversion H; subst. exact Hc.
Qed.

Lemma run_loop_more_fuel db c limit fuel d max_iter s :
  run_loop db c limit fuel max_iter s <> OutOfFuel ->
  run_loop db c limit (fuel + d) max_iter s = run_loop db c limit fuel max_iter s.
Proof.
  revert s. induction fuel as [|f IH]; intros s H; simpl in *; [congruence|].
  destruct (loop_cond max_iter s); [|reflexivity].
  destruct (loop_body db c limit s); [apply IH; exact H | reflexivity].
Qed.

(** C1.  The loop of [isopattern] always ends within [max_iter + 1]
    iterations, whatever the compound, the limit and the bound: [isopattern]
    never runs out of its iterations, any larger budget gives the same
    result, and when the loop ends either no row of the current generation
    is still active or [n_tries] has reached [max_iter]. *)
Theorem isopattern_terminates (db : isotope_db) (c : compound) (limit : Q) (max_iter : Z) :
  (forall charge scale, isopattern db c charge limit max_iter scale <> None) /\
  (forall fuel, (S (Z.to_nat max_iter) <= fuel)%nat ->
     run_loop db c limit fuel max_iter (initial_state c) =
     run_loop db c limit (S (Z.to_nat max_iter)) max_iter (initial_state c)) /\
  (forall s, run_loop db c limit (S (Z.to_nat max_iter)) max_iter (initial_state c) = Done s ->
     existsb (active_at (iteration s)) (peaks s) = false \/ max_iter <= n_tries s).
Proof.
  assert (Hnf : run_loop db c limit (S (Z.to_nat max_iter)) max_iter (initial_state c)
                <> OutOfFuel).
  { apply run_loop_not_out_of_fuel.
    - split; [apply initial_peaks_generation | simpl; lia].
    - simpl. lia. }
  split; [|split].
  - intros charge scale. unfold isopattern.
    destruct (run_loop _ _ _ _ _ _); [discriminate | discriminate | contradiction].
  - intros fuel Hf. replace fuel with (S (Z.to_nat max_iter) + (fuel - S (Z.to_nat max_iter)))%nat
      by lia.
    apply run_loop_more_fuel. exact Hnf.
  - intros s Hs. apply run_loop_done in Hs. unfold loop_cond in Hs.
    apply andb_false_iff in Hs as [H|H]; [left; exact H | right; apply Z.ltb_ge in H; exact H].
Qed.

(* ------------------------------------------------------------------ *)
(** ** C10: the charge suffix *)

Lemma span_all p s : str_forallb p s = true -> span p s = (s, EmptyString).
Proof.
  induction s as [|ch r IH]; simpl; [reflexivity|].
  intros H. apply andb_true_iff in H as [H1 H2]. rewrite H1, IH by exact H2. reflexivity.
Qed.

Lemma strip_charge_no_sign s :
  str_forallb (fun ch => negb (is_sign ch)) s = true -> strip_charge s = s.
Proof.
  induction s as [|ch r IH]; simpl; [reflexivity|].
  intros H. apply andb_true_iff in H as [H1 H2].
  destruct (is_sign ch); [discriminate|]. simpl. rewrite IH by exact H2. reflexivity.
Qed.

Lemma strip_charge_suffix base sg ds :
  str_forallb (fun ch => negb (is_sign ch)) base = true ->
  is_sign sg = true -> str_forallb is_digit ds = true ->
  strip_charge (base ++ String sg ds) = base.
Proof.
  intros Hb Hs Hd. induction base as [|ch r IH]; simpl.
  - rewrite Hs. unfold charge_tail. rewrite span_all by exact Hd. reflexivity.
  - simpl in Hb. apply andb_true_iff in Hb as [H1 H2].
    destruct (is_sign ch); [discriminate|]. simpl. rewrite IH by exact H2. reflexivity.
Qed.

(** C10.  A formula without sign characters followed by a charge suffix,
    a sign and digits, gives the same atom-count map under [str_to_dict]
    as the formula alone, and hence the same compound under [from_str]. *)
Theorem str_to_dict_charge_suffix (base : string) (sg : ascii) (ds : string) :
  str_forallb (fun ch => negb (is_sign ch)) base = true ->
  is_sign sg = true ->
  str_forallb is_digit ds = true ->
  str_to_dict (base ++ String sg ds) = str_to_dict base /\
  (forall db, from_str db (base ++ String sg ds) = from_str db base).
Proof.
  intros Hb Hs Hd.
  assert (H : str_to_dict (base ++ String sg ds) = str_to_dict base).
  { unfold str_to_dict. rewrite strip_charge_suffix, strip_charge_no_sign by assumption.
    reflexivity. }
  split; [exact H|]. intros db. unfold from_str. rewrite H. reflexivity.
Qed.

Lemma str_to_dict_charge_suffix_witness :
  str_to_dict ("C4H9NO2" ++ String "+" "2") = str_to_dict "C4H9NO2".
Proof.
  apply (str_to_dict_charge_suffix "C4H9NO2" "+" "2"); reflexivity.
Defined.

(* ------------------------------------------------------------------ *)
(** ** C3: scaling of the pattern *)

(** C3 (code_bug).  For the valid compound F2 (fluorine has one isotope)
    the loop keeps a single row, so the relative scaling divides 0 by 0:
    the returned abundance is NaN, not 100 and 0.  Besides, only the
    selector [rel] scales: [relative] is treated like [abs]. *)
Theorem isopattern_rel_single_row :
  exists c,
    Compound_new sample_db (sdict [("F", 2)]) = Ok c /\
    monomass c = 37.99680644%Q /\
    isopattern sample_db c 0 (1 / 1000) 10 "rel" = Some (Ok [(37.99680644%Q, NaN)]) /\
    (forall charge rows, finalize charge "relative" rows = finalize charge "abs" rows).
Proof.
  eexists. split; [vm_compute; reflexivity|]. split; [vm_compute; reflexivity|].
  split; [vm_compute; reflexivity|]. intros charge rows. reflexivity.
Qed.

(* ------------------------------------------------------------------ *)
(** ** Printing and parsing counts *)

Lemma digits_value_acc_pos u acc :
  digits_value_acc (str_uint u) (Zpos acc) = Zpos (Pos.of_uint_acc u acc).
Proof.
  revert acc. induction u as [|u IH|u IH|u IH|u IH|u IH|u IH|u IH|u IH|u IH|u IH];
    intros acc; cbn [str_uint digits_value_acc Pos.of_uint_acc]; try reflexivity;
    rewrite <- IH; f_equal;
    lazymatch goal with
    | |- context [digit_val ?ch] =>
        let v := eval vm_compute in (digit_val ch) in change (digit_val ch) with v
    end; lia.
Qed.

Lemma digits_value_str_uint u : digits_value (str_uint u) = Z.of_uint u.
Proof.
  unfold digits_value, Z.of_uint.
  induction u as [|u IH|u|u|u|u|u|u|u|u|u]; simpl; try reflexivity;
    [exact IH|..]; rewrite <- digits_value_acc_pos; reflexivity.
Qed.

Lemma str_uint_digits u : str_forallb is_digit (str_uint u) = true.
Proof. induction u; simpl; try reflexivity; exact IHu. Qed.

Lemma digit_not_space ch : is_digit ch = true -> is_py_space ch = false.
Proof.
  unfold is_digit, is_py_space, in_range. intros H.
  apply andb_true_iff in H as [H1 H2]. apply Nat.leb_le in H1, H2.
  destruct (9 <=? nat_of_ascii ch)%nat eqn:E1, (nat_of_ascii ch <=? 13)%nat eqn:E2,
           (28 <=? nat_of_ascii ch)%nat eqn:E3, (nat_of_ascii ch <=? 32)%nat eqn:E4;
    simpl; try reflexivity;
    repeat match goal with H : (_ <=? _)%nat = _ |- _ => first [apply Nat.leb_le in H | apply Nat.leb_gt in H] end;
    lia.
Qed.

Lemma lstrip_ws_digit_head ch r : is_digit ch = true -> lstrip_ws (String ch r) = String ch r.
Proof. intros H. simpl. rewrite digit_not_space by exact H. reflexivity. Qed.

Lemma str_forallb_list p s : str_forallb p s = forallb p (list_ascii_of_string s).
Proof. induction s as [|ch r IH]; simpl; [reflexivity|]. rewrite IH. reflexivity. Qed.

Lemma rev_str_involutive s : rev_str (rev_str s) = s.
Proof.
  unfold rev_str. rewrite list_ascii_of_string_of_list_ascii, rev_involutive.
  apply string_of_list_ascii_of_string.
Qed.

Lemma forallb_rev {A} (p : A -> bool) l : forallb p (rev l) = forallb p l.
Proof.
  induction l as [|x t IH]; simpl; [reflexivity|].
  rewrite forallb_app, IH. simpl. rewrite andb_true_r, andb_comm. reflexivity.
Qed.

Lemma lstrip_ws_digits s : str_forallb is_digit s = true -> lstrip_ws s = s.
Proof.
  destruct s as [|ch r]; [reflexivity|]. simpl. intros H.
  apply andb_true_iff in H as [H _]. rewrite digit_not_space by exact H. reflexivity.
Qed.

Lemma strip_ws_digits s : str_forallb is_digit s = true -> strip_ws s = s.
Proof.
  intros H. unfold strip_ws. rewrite (lstrip_ws_digits s H).
  rewrite lstrip_ws_digits; [apply rev_str_involutive|].
  unfold rev_str. rewrite str_forallb_list, list_ascii_of_string_of_list_ascii, forallb_rev,
    <- str_forallb_list. exact H.
Qed.

Lemma int_body_ok_digits s : str_forallb is_digit s = true -> int_body_ok false s = true.
Proof.
  induction s as [|ch r IH]; simpl; [reflexivity|].
  intros H. apply andb_true_iff in H as [H1 H2]. rewrite H1. apply IH. exact H2.
Qed.

Lemma str_filter_all p s : str_forallb p s = true -> str_filter p s = s.
Proof.
  induction s as [|ch r IH]; simpl; [reflexivity|].
  intros H. apply andb_true_iff in H as [H1 H2]. rewrite H1, IH by exact H2. reflexivity.
Qed.

Lemma digit_not_sign ch : is_digit ch = true -> Ascii.eqb ch "-"%char = false /\ Ascii.eqb ch "+"%char = false.
Proof.
  intros H. split; destruct (Ascii.eqb ch _) eqn:E; try reflexivity;
    apply Ascii.eqb_eq in E; subst; discriminate.
Qed.

Lemma py_int_digits s :
  s <> EmptyString -> str_forallb is_digit s = true -> py_int s = Ok (digits_value s).
Proof.
  intros Hne H. unfold py_int. rewrite strip_ws_digits by exact H.
  destruct s as [|ch r]; [contradiction|].
  simpl in H. apply andb_true_iff in H as [H1 H2].
  destruct (digit_not_sign ch H1) as [-> ->].
  unfold int_body. simpl. rewrite H1, int_body_ok_digits by exact H2.
  rewrite str_filter_all by exact H2. reflexivity.
Qed.

Lemma str_Z_pos v : 0 < v ->
  str_Z v <> EmptyString /\ str_forallb is_digit (str_Z v) = true /\ py_int (str_Z v) = Ok v.
Proof.
  intros Hv. destruct v as [|p|p]; try lia.
  pose proof (DecimalZ.of_to (Zpos p)) as Hof. unfold str_Z. simpl in *.
  assert (Hn : str_uint (Pos.to_uint p) <> EmptyString).
  { intros E. destruct (Pos.to_uint p); simpl in *; discriminate. }
  split; [exact Hn|]. split; [apply str_uint_digits|].
  rewrite py_int_digits by (exact Hn || apply str_uint_digits).
  rewrite digits_value_str_uint, Hof. reflexivity.
Qed.

(* ------------------------------------------------------------------ *)
(** ** String-keyed dictionaries *)

Lemma str_eqb_trans a b c : String.eqb a b = true -> String.eqb b c = true -> String.eqb a c = true.
Proof. intros H1 H2. apply String.eqb_eq in H1, H2. subst. apply String.eqb_refl. Qed.

Lemma saget_aset (L : list (string * Z)) k v k' :
  aget String.eqb (aset String.eqb L k v) k' =
  if String.eqb k k' then Some v else aget String.eqb L k'.
Proof. apply aget_aset; [exact String.eqb_sym | exact str_eqb_trans]. Qed.

Lemma sdict_dset L k v : dset (sdict L) (KStr k) v = sdict (aset String.eqb L k v).
Proof.
  induction L as [|[k0 v0] t IH]; [reflexivity|].
  unfold dset in *. simpl. destruct (String.eqb k0 k); [reflexivity|]. simpl. rewrite IH. reflexivity.
Qed.

Lemma dict_union_sdict A B : dict_union (sdict A) (sdict B) = sdict (sunion A B).
Proof.
  unfold dict_union, sunion. revert A. induction B as [|[k v] t IH]; intros A; [reflexivity|].
  simpl. rewrite sdict_dset. apply IH.
Qed.

Lemma saget_none L k : ~ In k (map fst L) -> aget String.eqb L k = None.
Proof.
  induction L as [|[k0 v0] t IH]; simpl; [reflexivity|]. intros H.
  destruct (String.eqb k0 k) eqn:E; [apply String.eqb_eq in E; tauto|]. apply IH. tauto.
Qed.

Lemma saget_some_in L k v : aget String.eqb L k = Some v -> In (k, v) L.
Proof.
  induction L as [|[k0 v0] t IH]; simpl; [discriminate|].
  destruct (String.eqb k0 k) eqn:E; intros H.
  - apply String.eqb_eq in E. inversion H; subst. left. reflexivity.
  - right. apply IH. exact H.
Qed.

Lemma saget_in L k v : NoDup (map fst L) -> In (k, v) L -> aget String.eqb L k = Some v.
Proof.
  induction L as [|[k0 v0] t IH]; simpl; [tauto|]. intros Hnd Hin. inversion Hnd; subst.
  destruct Hin as [E|Hin].
  - inversion E; subst. rewrite String.eqb_refl. reflexivity.
  - destruct (String.eqb k0 k) eqn:E.
    + apply String.eqb_eq in E. subst. exfalso. apply H1. apply in_map_iff. exists (k, v). auto.
    + apply IH; assumption.
Qed.

Lemma saget_keys L k : In k (map fst L) -> exists v, aget String.eqb L k = Some v.
Proof.
  induction L as [|[k0 v0] t IH]; simpl; [tauto|]. intros H.
  destruct (String.eqb k0 k) eqn:E; [eexists; reflexivity|].
  apply IH. destruct H as [H|H]; [subst; rewrite String.eqb_refl in E; discriminate|exact H].
Qed.

Lemma keys_aset_in L k v : In k (map fst L) -> map fst (aset String.eqb L k v) = map fst L.
Proof.
  induction L as [|[k0 v0] t IH]; simpl; [tauto|]. intros H.
  destruct (String.eqb k0 k) eqn:E; simpl; [reflexivity|].
  rewrite IH; [reflexivity|]. destruct H as [H|H]; [subst; rewrite String.eqb_refl in E; discriminate|exact H].
Qed.

Lemma keys_aset_new L k v : ~ In k (map fst L) -> map fst (aset String.eqb L k v) = (map fst L ++ [k])%list.
Proof.
  induction L as [|[k0 v0] t IH]; simpl; [reflexivity|]. intros H.
  destruct (String.eqb k0 k) eqn:E; [apply String.eqb_eq in E; tauto|]. simpl. rewrite IH by tauto.
  reflexivity.
Qed.

Lemma inb_In k l : inb k l = true <-> In k l.
Proof.
  unfold inb. rewrite existsb_exists. split.
  - intros [x [Hx E]]. apply String.eqb_eq in E. subst. exact Hx.
  - intros H. exists k. split; [exact H | apply String.eqb_refl].
Qed.

Lemma inb_app k l1 l2 : inb k (l1 ++ l2)%list = inb k l1 || inb k l2.
Proof. unfold inb. apply existsb_app. Qed.

Lemma sunion_keys A B : NoDup (map fst B) ->
  map fst (sunion A B) = (map fst A ++ filter (fun k => negb (inb k (map fst A))) (map fst B))%list.
Proof.
  unfold sunion. revert A. induction B as [|[k v] t IH]; intros A Hnd; simpl; [rewrite app_nil_r; reflexivity|].
  inversion Hnd; subst. rewrite IH by assumption.
  destruct (inb k (map fst A)) eqn:Ek; simpl.
  - apply inb_In in Ek. rewrite keys_aset_in by exact Ek. reflexivity.
  - assert (Hk : ~ In k (map fst A)) by (rewrite <- inb_In; congruence).
    rewrite keys_aset_new by exact Hk. rewrite <- app_assoc. simpl. f_equal. f_equal.
    apply filter_ext_in. intros x Hx. rewrite inb_app. simpl.
    destruct (String.eqb x k) eqn:E; [apply String.eqb_eq in E; subst; contradiction|].
    rewrite orb_false_r. reflexivity.
Qed.

Lemma sunion_aget A B k : NoDup (map fst B) ->
  aget String.eqb (sunion A B) k =
  match aget String.eqb B k with Some v => Some v | None => aget String.eqb A k end.
Proof.
  unfold sunion. revert A. induction B as [|[k0 v0] t IH]; intros A Hnd; simpl; [reflexivity|].
  inversion Hnd; subst. rewrite IH by assumption. rewrite saget_aset.
  destruct (String.eqb k0 k) eqn:E; [|reflexivity].
  apply String.eqb_eq in E. subst. rewrite saget_none by assumption. reflexivity.
Qed.

Lemma NoDup_filter_keys (p : string * Z -> bool) L :
  NoDup (map fst L) -> NoDup (map fst (filter p L)).
Proof.
  induction L as [|[k v] t IH]; simpl; [constructor|]. intros Hnd. inversion Hnd; subst.
  destruct (p (k, v)); simpl; [|auto]. constructor; [|auto].
  intros Hin. apply H1. apply in_map_iff in Hin as [kv [E Hkv]].
  apply filter_In in Hkv as [Hkv _]. apply in_map_iff. exists kv. auto.
Qed.

Lemma NoDup_app_str (l1 l2 : list string) :
  NoDup l1 -> NoDup l2 -> (forall x, In x l1 -> ~ In x l2) -> NoDup (l1 ++ l2)%list.
Proof.
  induction l1 as [|x t IH]; simpl; [auto|]. intros H1 H2 Hd. inversion H1; subst.
  constructor.
  - rewrite in_app_iff. intros [H|H]; [tauto | exact (Hd x (or_introl eq_refl) H)].
  - apply IH; auto.
Qed.

Lemma sunion_nodup A B : NoDup (map fst A) -> NoDup (map fst B) -> NoDup (map fst (sunion A B)).
Proof.
  intros HA HB. rewrite sunion_keys by exact HB. apply NoDup_app_str; [exact HA| |].
  - apply NoDup_filter. exact HB.
  - intros x Hx Hy. apply filter_In in Hy as [_ Hy]. apply inb_In in Hx. rewrite Hx in Hy. discriminate.
Qed.

Lemma saget_ext L1 L2 :
  NoDup (map fst L1) -> map fst L1 = map fst L2 ->
  (forall k, aget String.eqb L1 k = aget String.eqb L2 k) -> L1 = L2.
Proof.
  revert L2. induction L1 as [|[k v] t IH]; intros [|[k2 v2] u] Hnd Hk Hg; try discriminate;
    [reflexivity|].
  simpl in Hk. injection Hk as Hk1 Hk2. subst k2. inversion Hnd as [|? ? Hnot Hnd']; subst.
  pose proof (Hg k) as H. simpl in H. rewrite String.eqb_refl in H. inversion H; subst v2.
  f_equal. apply IH; [exact Hnd' | exact Hk2|]. intros k'.
  specialize (Hg k'). simpl in Hg. destruct (String.eqb k k') eqn:E; [|exact Hg].
  apply String.eqb_eq in E. subst k'. rewrite !saget_none; [reflexivity | rewrite <- Hk2 | ]; exact Hnot.
Qed.

Lemma filter_nonzero_aget L k : NoDup (map fst L) ->
  aget String.eqb (filter nonzero L) k = nzopt (aget String.eqb L k).
Proof.
  induction L as [|[k0 v0] t IH]; simpl; [reflexivity|]. intros Hnd. inversion Hnd; subst.
  unfold nonzero at 1. simpl. destruct (v0 =? 0) eqn:Ev; simpl.
  - rewrite IH by assumption. destruct (String.eqb k0 k) eqn:E; [|reflexivity].
    apply String.eqb_eq in E. subst. rewrite saget_none by assumption. simpl. rewrite Ev. reflexivity.
  - destruct (String.eqb k0 k) eqn:E; simpl; [rewrite Ev; reflexivity|]. apply IH. assumption.
Qed.

Lemma filter_nonzero_keys L : NoDup (map fst L) ->
  map fst (filter nonzero L) =
  filter (fun k => match nzopt (aget String.eqb L k) with Some _ => true | None => false end) (map fst L).
Proof.
  induction L as [|[k0 v0] t IH]; simpl; [reflexivity|]. intros Hnd. inversion Hnd; subst.
  rewrite String.eqb_refl. unfold nonzero at 1. simpl.
  assert (Hf : filter (fun k => match nzopt (if String.eqb k0 k then Some v0 else aget String.eqb t k)
                               with Some _ => true | None => false end) (map fst t) =
               filter (fun k => match nzopt (aget String.eqb t k) with Some _ => true | None => false end)
                      (map fst t)).
  { apply filter_ext_in. intros x Hx. destruct (String.eqb k0 x) eqn:E; [|reflexivity].
    apply String.eqb_eq in E. subst. contradiction. }
  rewrite Hf, <- IH by assumption. destruct (v0 =? 0); reflexivity.
Qed.

Lemma valid_zeros_aget k v : aget String.eqb valid_zeros k = Some v -> v = 0.
Proof.
  unfold valid_zeros. generalize VALID_ELEMENTS. intros W. induction W as [|w t IH]; simpl; [discriminate|].
  destruct (String.eqb w k); [intros H; inversion H; reflexivity | exact IH].
Qed.

Lemma nzopt_some o v : nzopt o = Some v -> o = Some v /\ v <> 0.
Proof.
  destruct o as [x|]; simpl; [|discriminate]. destruct (x =? 0) eqn:E; [discriminate|].
  intros H. inversion H; subst. split; [reflexivity|]. apply Z.eqb_neq. exact E.
Qed.

Lemma filter_id_in {A} (p : A -> bool) l : (forall x, In x l -> p x = true) -> filter p l = l.
Proof.
  induction l as [|x t IH]; simpl; [reflexivity|]. intros H.
  rewrite H by (left; reflexivity). f_equal. apply IH. intros y Hy. apply H. right. exact Hy.
Qed.

Lemma filter_nil_in {A} (p : A -> bool) l : (forall x, In x l -> p x = false) -> filter p l = [].
Proof.
  induction l as [|x t IH]; simpl; [reflexivity|]. intros H.
  rewrite H by (left; reflexivity). apply IH. intros y Hy. apply H. right. exact Hy.
Qed.

Lemma valid_zeros_nodup : NoDup (map fst valid_zeros).
Proof.
  unfold valid_zeros, VALID_ELEMENTS. simpl.
  repeat (constructor; [simpl; intuition discriminate|]). constructor.
Qed.

(** Ordering a map by the whitelist and dropping its zero counts is
    idempotent. *)
Lemma normalize_idem l : NoDup (map fst l) ->
  filter nonzero (sunion valid_zeros (filter nonzero (sunion valid_zeros l))) =
  filter nonzero (sunion valid_zeros l).
Proof.
  intros Hl.
  set (U := sunion valid_zeros l). set (F := filter nonzero U). set (V := sunion valid_zeros F).
  set (W := map fst valid_zeros).
  assert (HU : NoDup (map fst U)) by (apply sunion_nodup; [apply valid_zeros_nodup | exact Hl]).
  assert (HF : NoDup (map fst F)) by (apply NoDup_filter_keys; exact HU).
  assert (HV : NoDup (map fst V)) by (apply sunion_nodup; [apply valid_zeros_nodup | exact HF]).
  assert (HgF : forall k, aget String.eqb F k = nzopt (aget String.eqb U k))
    by (intros k; apply filter_nonzero_aget; exact HU).
  assert (HgV : forall k, nzopt (aget String.eqb V k) = aget String.eqb F k).
  { intros k. unfold V. rewrite sunion_aget by exact HF.
    destruct (aget String.eqb F k) as [v|] eqn:E.
    - rewrite HgF in E. apply nzopt_some in E as [_ E]. simpl.
      destruct (v =? 0) eqn:E0; [apply Z.eqb_eq in E0; contradiction | reflexivity].
    - destruct (aget String.eqb valid_zeros k) as [x|] eqn:Ez; [|reflexivity].
      apply valid_zeros_aget in Ez. subst. reflexivity. }
  set (P := fun k => match aget String.eqb F k with Some _ => true | None => false end).
  apply saget_ext.
  - apply NoDup_filter_keys. exact HV.
  - rewrite filter_nonzero_keys by exact HV.
    rewrite (filter_ext _ P) by (intros k; unfold P; rewrite HgV; reflexivity).
    assert (HkF : map fst F = (filter P W ++ filter P (filter (fun k => negb (inb k W)) (map fst l)))%list).
    { unfold F. rewrite filter_nonzero_keys by exact HU.
      rewrite (filter_ext _ P) by (intros k; unfold P; rewrite HgF; reflexivity).
      unfold U. rewrite sunion_keys by exact Hl. apply filter_app. }
    assert (Hmid : filter P (filter (fun k => negb (inb k W)) (map fst F)) =
                   filter P (filter (fun k => negb (inb k W)) (map fst l))).
    { rewrite filter_id_in.
      - rewrite HkF, filter_app. rewrite filter_nil_in.
        + simpl. apply filter_id_in. intros x Hx. apply filter_In in Hx as [Hx _].
          apply filter_In in Hx as [_ Hx]. exact Hx.
        + intros x Hx. apply filter_In in Hx as [Hx _]. apply negb_false_iff. apply inb_In. exact Hx.
      - intros x Hx. apply filter_In in Hx as [Hx _]. unfold P.
        destruct (saget_keys F x Hx) as [v ->]. reflexivity. }
    unfold V. rewrite sunion_keys by exact HF. fold W. rewrite filter_app, Hmid, HkF.
    reflexivity.
  - intros k. rewrite filter_nonzero_aget by exact HV. apply HgV.
Qed.

(* ------------------------------------------------------------------ *)
(** ** Building [element_count] *)

Lemma build_element_count_nonzero db L acc :
  build_element_count db (sdict L) acc = build_element_count db (sdict (filter nonzero L)) acc.
Proof.
  revert acc. induction L as [|[k v] t IH]; intros acc; [reflexivity|].
  unfold nonzero at 1. cbn [filter fst snd]. destruct (v =? 0) eqn:Ev; cbn [negb].
  - simpl. rewrite Ev. apply IH.
  - simpl. rewrite Ev. destruct (db_getitem_str db k); simpl; [apply IH | reflexivity].
Qed.

Lemma aset_absent {K} (eqk : K -> K -> bool) (d : list (K * Z)) k v :
  (forall kv, In kv d -> eqk (fst kv) k = false) -> aset eqk d k v = (d ++ [(k, v)])%list.
Proof.
  induction d as [|[k0 v0] t IH]; simpl; [reflexivity|]. intros H.
  pose proof (H (k0, v0) (or_introl eq_refl)) as H0. simpl in H0. rewrite H0. f_equal. apply IH. intros kv Hkv. apply H. right. exact Hkv.
Qed.

Lemma elem_eqb_symbol a b : elem_eqb a b = true -> el_symbol a = el_symbol b.
Proof. unfold elem_eqb. intros H. apply andb_true_iff in H as [H _]. apply String.eqb_eq. exact H. Qed.

Lemma build_element_count_fresh db L acc :
  db_wf db ->
  (forall k, In k (map fst L) -> exists e, In e db /\ el_symbol e = k) ->
  NoDup (map fst L) ->
  Forall (fun kv => snd kv <> 0) L ->
  (forall ev, In ev acc -> ~ In (el_symbol (fst ev)) (map fst L)) ->
  exists ec, build_element_count db (sdict L) acc = Ok (acc ++ ec)%list /\
             map (fun ev => (el_symbol (fst ev), snd ev)) ec = L.
Proof.
  intros Hwf. revert acc. induction L as [|[k v] t IH]; intros acc Hdb Hnd Hnz Hacc.
  - exists []. rewrite app_nil_r. split; reflexivity.
  - inversion Hnd as [|? ? Hk Hnd']; subst. inversion Hnz as [|? ? Hv Hnz']; subst. simpl in Hv.
    destruct (Hdb k (or_introl eq_refl)) as [e [He Hek]].
    destruct (Hwf e He) as [_ Hlook]. rewrite Hek in Hlook.
    simpl. destruct (v =? 0) eqn:Ev; [apply Z.eqb_eq in Ev; contradiction|].
    rewrite Hlook. simpl.
    assert (Hset : eset acc e v = (acc ++ [(e, v)])%list).
    { apply aset_absent. intros ev Hev. destruct (elem_eqb (fst ev) e) eqn:E; [|reflexivity].
      exfalso. apply elem_eqb_symbol in E. apply (Hacc ev Hev). rewrite E, Hek. left. reflexivity. }
    rewrite Hset.
    destruct (IH (acc ++ [(e, v)])%list) as [ec [Hb Hm]].
    + intros k' Hk'. apply Hdb. right. exact Hk'.
    + exact Hnd'.
    + exact Hnz'.
    + intros ev Hev. apply in_app_iff in Hev as [Hev|[<-|[]]].
      * intros Hin. apply (Hacc ev Hev). right. exact Hin.
      * simpl. rewrite Hek. exact Hk.
    + exists ((e, v) :: ec). rewrite Hb, <- app_assoc. split; [reflexivity|].
      simpl. rewrite Hek, Hm. reflexivity.
Qed.

Lemma render_formula_pairs ec :
  render_formula ec = render_pairs (map (fun ev => (el_symbol (fst ev), snd ev)) ec).
Proof. unfold render_formula, render_pairs. rewrite map_map. reflexivity. Qed.

(* ------------------------------------------------------------------ *)
(** ** Parsing a rendered formula *)

Lemma str_app_nil_r (s : string) : (s ++ "")%string = s.
Proof. induction s as [|ch r IH]; simpl; [reflexivity|]. rewrite IH. reflexivity. Qed.

Lemma str_app_assoc (a b c : string) : ((a ++ b) ++ c)%string = (a ++ (b ++ c))%string.
Proof. induction a as [|ch r IH]; simpl; [reflexivity|]. rewrite IH. reflexivity. Qed.

Lemma str_forallb_app p (a b : string) :
  str_forallb p (a ++ b) = str_forallb p a && str_forallb p b.
Proof. induction a as [|ch r IH]; simpl; [reflexivity|]. rewrite IH, andb_assoc. reflexivity. Qed.

Lemma concat_empty_cons (x : string) l : String.concat "" (x :: l) = (x ++ String.concat "" l)%string.
Proof. destruct l; simpl; [rewrite str_app_nil_r|]; reflexivity. Qed.


Lemma render_pairs_cons k v L :
  render_pairs ((k, v) :: L) = (k ++ (count_str v ++ render_pairs L))%string.
Proof. unfold render_pairs. simpl map. rewrite concat_empty_cons, str_app_assoc. reflexivity. Qed.

Lemma in_range_disjoint a b a' b' ch :
  in_range a b ch = true -> in_range a' b' ch = true -> (b < a' \/ b' < a)%nat -> False.
Proof.
  unfold in_range. intros H1 H2 H. apply andb_true_iff in H1 as [H1 H1'], H2 as [H2 H2'].
  apply Nat.leb_le in H1, H1', H2, H2'. lia.
Qed.

Lemma in_range_false a b ch (P : ascii -> bool) :
  P = in_range a b -> forall a' b', in_range a' b' ch = true -> (b < a' \/ b' < a)%nat -> P ch = false.
Proof.
  intros -> a' b' H Hd. destruct (in_range a b ch) eqn:E; [|reflexivity].
  exfalso. exact (in_range_disjoint _ _ _ _ _ E H Hd).
Qed.

Lemma count_str_digits v : 1 <= v -> str_forallb is_digit (count_str v) = true.
Proof.
  intros Hv. unfold count_str. destruct (v =? 1); [reflexivity|]. apply str_Z_pos. lia.
Qed.

Lemma str_forallb_impl (p q : ascii -> bool) s :
  (forall ch, p ch = true -> q ch = true) -> str_forallb p s = true -> str_forallb q s = true.
Proof.
  intros H. induction s as [|ch r IH]; simpl; [reflexivity|]. intros Hs.
  apply andb_true_iff in Hs as [H1 H2]. rewrite H, IH; auto.
Qed.

Lemma symbol_chars k :
  element_symbol_ok k = true ->
  str_forallb (fun ch => negb (is_sign ch)) k = true.
Proof.
  destruct k as [|u [|l [|x r]]]; simpl; try discriminate.
  - intros H. rewrite andb_true_r. destruct (is_sign u) eqn:E; [|reflexivity].
    unfold is_sign in E. apply orb_true_iff in E as [E|E]; apply Ascii.eqb_eq in E; subst; discriminate.
  - intros H. apply andb_true_iff in H as [Hu Hl]. rewrite andb_true_r.
    destruct (is_sign u) eqn:E; [unfold is_sign in E; apply orb_true_iff in E as [E|E];
      apply Ascii.eqb_eq in E; subst; discriminate|].
    destruct (is_sign l) eqn:E'; [unfold is_sign in E'; apply orb_true_iff in E' as [E'|E'];
      apply Ascii.eqb_eq in E'; subst; discriminate|]. reflexivity.
Qed.

Lemma digit_not_sign' ch : is_digit ch = true -> negb (is_sign ch) = true.
Proof.
  intros H. destruct (digit_not_sign ch H) as [H1 H2]. unfold is_sign. rewrite H1, H2. reflexivity.
Qed.

Lemma render_pairs_no_sign L :
  Forall (fun kv => element_symbol_ok (fst kv) = true /\ 1 <= snd kv) L ->
  str_forallb (fun ch => negb (is_sign ch)) (render_pairs L) = true.
Proof.
  induction L as [|[k v] t IH]; intros H; [reflexivity|]. inversion H as [|? ? [Hk Hv] Ht]; subst.
  rewrite render_pairs_cons, !str_forallb_app, symbol_chars by exact Hk. simpl.
  rewrite IH by exact Ht. rewrite andb_true_r.
  apply (str_forallb_impl is_digit); [exact digit_not_sign' | apply count_str_digits; exact Hv].
Qed.

Lemma upper_not_lower ch : is_upper ch = true -> is_lower ch = false.
Proof. intros H. apply (in_range_false 97 122 ch is_lower eq_refl 65 90); [exact H | lia]. Qed.

Lemma digit_not_lower ch : is_digit ch = true -> is_lower ch = false.
Proof. intros H. apply (in_range_false 97 122 ch is_lower eq_refl 48 57); [exact H | lia]. Qed.

Lemma digit_not_upper ch : is_digit ch = true -> is_upper ch = false.
Proof. intros H. apply (in_range_false 65 90 ch is_upper eq_refl 48 57); [exact H | lia]. Qed.

Lemma split_sym_prefix ds rest seg t :
  str_forallb (fun ch => negb (is_upper ch)) ds = true ->
  split_sym rest = seg :: t -> split_sym (ds ++ rest) = (ds ++ seg)%string :: t.
Proof.
  intros Hds Hr. induction ds as [|ch r IH]; simpl; [exact Hr|].
  simpl in Hds. apply andb_true_iff in Hds as [H1 H2].
  destruct (is_upper ch); [discriminate|]. rewrite IH by exact H2. reflexivity.
Qed.

Lemma split_sym_symbol k r :
  element_symbol_ok k = true ->
  (forall ch r', r = String ch r' -> is_lower ch = false) ->
  split_sym (k ++ r) = "" :: k :: split_sym r.
Proof.
  intros Hk Hr. destruct k as [|u [|l [|x q]]]; simpl in Hk; try discriminate; simpl.
  - rewrite Hk. destruct r as [|c2 r2]; [reflexivity|]. rewrite (Hr c2 r2 eq_refl). reflexivity.
  - apply andb_true_iff in Hk as [Hu Hl]. rewrite Hu, Hl. reflexivity.
Qed.

Lemma render_pairs_head L ch r :
  Forall (fun kv => element_symbol_ok (fst kv) = true /\ 1 <= snd kv) L ->
  render_pairs L = String ch r -> is_upper ch = true.
Proof.
  destruct L as [|[k v] t]; [discriminate|]. intros H. inversion H as [|? ? [Hk _] _]; subst.
  rewrite render_pairs_cons. simpl in Hk.
  destruct k as [|u [|l [|x q]]]; simpl in Hk; try discriminate; simpl; intros E; inversion E; subst.
  - exact Hk.
  - apply andb_true_iff in Hk as [Hu _]. exact Hu.
Qed.

Lemma split_sym_render L :
  Forall (fun kv => element_symbol_ok (fst kv) = true /\ 1 <= snd kv) L ->
  split_sym (render_pairs L) = "" :: flat_map (fun kv => [fst kv; count_str (snd kv)]) L.
Proof.
  induction L as [|[k v] t IH]; intros H; [reflexivity|].
  inversion H as [|? ? [Hk Hv] Ht]; subst.
  pose proof (count_str_digits v Hv) as Hd.
  rewrite render_pairs_cons, split_sym_symbol; [|exact Hk|].
  - rewrite (split_sym_prefix _ _ "" _) by
      (try (apply (str_forallb_impl is_digit); [intros ch Hc; rewrite digit_not_upper; auto | exact Hd]);
       apply IH; exact Ht).
    rewrite str_app_nil_r. reflexivity.
  - intros ch r' E. destruct (count_str v) as [|c0 r0] eqn:Ec.
    + simpl in E. apply upper_not_lower. apply (render_pairs_head t ch r' Ht E).
    + simpl in E. inversion E; subst. simpl in Hd. apply andb_true_iff in Hd as [Hd _].
      apply digit_not_lower. exact Hd.
Qed.

Lemma pairs_flat L :
  pairs (flat_map (fun kv => [fst kv; count_str (snd kv)]) L) =
  map (fun kv => (fst kv, count_str (snd kv))) L.
Proof. induction L as [|kv t IH]; simpl; [reflexivity|]. rewrite IH. reflexivity. Qed.

Lemma build_str_dict_fresh L A :
  NoDup (map fst L) ->
  Forall (fun kv => 1 <= snd kv) L ->
  (forall k, In k (map fst L) -> ~ In k (map fst A)) ->
  build_str_dict (map (fun kv => (fst kv, count_str (snd kv))) L) (sdict A) = Ok (sdict (A ++ L)).
Proof.
  revert A. induction L as [|[k v] t IH]; intros A Hnd Hv Hd; simpl.
  - rewrite app_nil_r. reflexivity.
  - inversion Hnd as [|? ? Hk Hnd']; subst. inversion Hv as [|? ? Hv1 Hv']; subst. simpl in Hv1.
    assert (Hc : (if String.eqb (count_str v) "" then Ok 1 else py_int (count_str v)) = Ok v).
    { unfold count_str. destruct (v =? 1) eqn:E1; [apply Z.eqb_eq in E1; subst; reflexivity|].
      apply Z.eqb_neq in E1. destruct (str_Z_pos v) as [Hne [_ Hp]]; [lia|].
      destruct (String.eqb (str_Z v) "") eqn:E; [apply String.eqb_eq in E; contradiction|]. exact Hp. }
    rewrite Hc. simpl. rewrite sdict_dset, aset_absent.
    + rewrite (IH (A ++ [(k, v)])%list Hnd' Hv'), <- app_assoc. reflexivity.
      intros k' Hk' Hin. rewrite map_app, in_app_iff in Hin. destruct Hin as [Hin|[E|[]]].
      * apply (Hd k' (or_intror Hk') Hin).
      * simpl in E. subst. contradiction.
    + intros kv Hkv. destruct (String.eqb (fst kv) k) eqn:E; [|reflexivity].
      apply String.eqb_eq in E. exfalso. apply (Hd k (or_introl eq_refl)). rewrite <- E.
      apply in_map. exact Hkv.
Qed.

Lemma str_to_dict_render L :
  NoDup (map fst L) ->
  Forall (fun kv => element_symbol_ok (fst kv) = true /\ 1 <= snd kv) L ->
  str_to_dict (render_pairs L) = Ok (sdict L).
Proof.
  intros Hnd H. unfold str_to_dict.
  rewrite strip_charge_no_sign by (apply render_pairs_no_sign; exact H).
  rewrite split_sym_render by exact H. rewrite pairs_flat.
  apply (build_str_dict_fresh L []); [exact Hnd| |intros k _ []].
  eapply Forall_impl; [|exact H]. intros kv [_ Hv]. exact Hv.
Qed.

(* ------------------------------------------------------------------ *)
(** ** C4: the formula round trip *)

Lemma order_elements_sdict db L :
  order_elements db (sdict L) =
  (let* ec := build_element_count db (sdict (filter nonzero (sunion valid_zeros L))) [] in
   Ok (ec, render_formula ec)).
Proof.
  unfold order_elements.
  change (map (fun s => (KStr s, 0)) VALID_ELEMENTS) with (sdict valid_zeros).
  rewrite dict_union_sdict, build_element_count_nonzero. reflexivity.
Qed.

Lemma Compound_new_normalize db l :
  NoDup (map fst l) ->
  Compound_new db (sdict (filter nonzero (sunion valid_zeros l))) = Compound_new db (sdict l).
Proof.
  intros Hl. unfold Compound_new, Compound_init.
  rewrite !order_elements_sdict, normalize_idem by exact Hl. reflexivity.
Qed.

Lemma normalize_entries l k v :
  NoDup (map fst l) ->
  In (k, v) (filter nonzero (sunion valid_zeros l)) -> In (k, v) l /\ v <> 0.
Proof.
  intros Hl Hin.
  assert (HU : NoDup (map fst (sunion valid_zeros l)))
    by (apply sunion_nodup; [apply valid_zeros_nodup | exact Hl]).
  apply saget_in in Hin; [|apply NoDup_filter_keys; exact HU].
  rewrite filter_nonzero_aget in Hin by exact HU.
  apply nzopt_some in Hin as [Hin Hv]. rewrite sunion_aget in Hin by exact Hl.
  split; [|exact Hv].
  destruct (aget String.eqb l k) as [x|] eqn:E.
  - inversion Hin; subst. apply saget_some_in. exact E.
  - apply valid_zeros_aget in Hin. contradiction.
Qed.

(** C4.  Over a well-formed database, a compound built from a map from
    element symbols of the database (each at most once) to non-negative
    counts is rebuilt exactly by [from_str] from its own formula string;
    in particular the formula strings agree. *)
Theorem formula_roundtrip (db : isotope_db) (l : list (string * Z)) (c : compound) :
  db_wf db ->
  NoDup (map fst l) ->
  Forall (fun kv => In (fst kv) (map el_symbol db) /\ 0 <= snd kv) l ->
  Compound_new db (sdict l) = Ok c ->
  from_str db (formula c) = Ok c.
Proof.
  intros Hwf Hnd Hl Hc.
  set (F := filter nonzero (sunion valid_zeros l)).
  assert (HU : NoDup (map fst (sunion valid_zeros l)))
    by (apply sunion_nodup; [apply valid_zeros_nodup | exact Hnd]).
  assert (HF : NoDup (map fst F)) by (apply NoDup_filter_keys; exact HU).
  assert (HE : forall kv, In kv F -> In kv l /\ snd kv <> 0)
    by (intros [k v] H; apply normalize_entries; assumption).
  rewrite Forall_forall in Hl.
  destruct (build_element_count_fresh db F [] Hwf) as [ec [Hb Hm]].
  - intros k Hk. apply in_map_iff in Hk as [[k' v] [<- Hkv]].
    destruct (HE _ Hkv) as [Hkl _]. destruct (Hl _ Hkl) as [Hdb _].
    apply in_map_iff in Hdb as [e [He Hin]]. exists e. split; assumption.
  - exact HF.
  - apply Forall_forall. intros kv Hkv. apply HE. exact Hkv.
  - intros ev [].
  - assert (Hfml : formula c = render_pairs F).
    { revert Hc. unfold Compound_new, Compound_init. rewrite order_elements_sdict. fold F.
      rewrite Hb. cbn [bind app].
      destruct (mass_and_abundance ec 0 1) as [[m a]|]; cbn [bind]; [|discriminate].
      destruct (Qeq_bool m 0); [discriminate|].
      destruct (map_res monoisotope (map fst ec)); cbn [bind]; [|discriminate].
      intros H. inversion H; subst. simpl. rewrite render_formula_pairs, Hm. reflexivity. }
    unfold from_str. rewrite Hfml, str_to_dict_render.
    + cbn [bind]. unfold F. rewrite Compound_new_normalize by exact Hnd. exact Hc.
    + exact HF.
    + apply Forall_forall. intros [k v] Hkv. destruct (HE _ Hkv) as [Hkl Hv].
      destruct (Hl _ Hkl) as [Hdb Hv0]. simpl in *. split; [|lia].
      apply in_map_iff in Hdb as [e [<- He]]. apply (Hwf e He).
Qed.

Lemma sample_db_wf : db_wf sample_db.
Proof.
  intros e He. simpl in He.
  repeat (destruct He as [<-|He]; [split; vm_compute; reflexivity|]). destruct He.
Qed.

Lemma formula_roundtrip_witness :
  formula ethanol = "C2H6O" /\ from_str sample_db (formula ethanol) = Ok ethanol.
Proof.
  split; [vm_compute; reflexivity|].
  apply (formula_roundtrip sample_db ethanol_counts ethanol).
  - apply sample_db_wf.
  - unfold ethanol_counts. simpl. repeat constructor; simpl; intuition discriminate.
  - unfold ethanol_counts. repeat constructor; simpl; try lia; intuition discriminate.
  - vm_compute. reflexivity.
Defined.

(* ------------------------------------------------------------------ *)
(** ** C6: the mass check of the constructor *)

Lemma db_getitem_str_err db s e : db_getitem_str db s = Err e -> e = KeyError.
Proof.
  induction db as [|x t IH]; simpl; [congruence|].
  destruct (_ || _); [discriminate | exact IH].
Qed.

Lemma elem_in_isotopes_err x l e : elem_in_isotopes x l = Err e -> e = AttributeError.
Proof.
  induction l as [|i t IH]; simpl; [discriminate|].
  destruct (String.eqb _ _); [congruence | exact IH].
Qed.

Lemma db_getitem_elem_err db x e : db_getitem_elem db x = Err e -> e = KeyError \/ e = AttributeError.
Proof.
  induction db as [|y t IH]; simpl; [intros H; inversion H; auto|].
  destruct (elem_eqb y x); [discriminate|].
  destruct (elem_in_isotopes x (el_isotopes y)) as [b|e'] eqn:E; simpl.
  - destruct b; [discriminate | exact IH].
  - intros H. inversion H; subst. apply elem_in_isotopes_err in E. auto.
Qed.

Lemma db_getitem_key_err db k e : db_getitem_key db k = Err e -> e <> MassError.
Proof.
  destruct k as [s|x]; simpl; intros H.
  - apply db_getitem_str_err in H. congruence.
  - apply db_getitem_elem_err in H. destruct H; congruence.
Qed.

Lemma build_element_count_err db L acc e :
  build_element_count db L acc = Err e -> e <> MassError.
Proof.
  revert acc. induction L as [|[k v] t IH]; intros acc; simpl; [discriminate|].
  destruct (v =? 0); [apply IH|].
  destruct (db_getitem_key db k) as [x|e'] eqn:E; simpl; [apply IH|].
  intros H. inversion H; subst. eapply db_getitem_key_err. exact E.
Qed.

Lemma mass_and_abundance_err ec m a e : mass_and_abundance ec m a = Err e -> e = IndexError.
Proof.
  revert m a. induction ec as [|[x v] t IH]; intros m a; simpl; [discriminate|].
  unfold monoisotope. destruct (rev _); simpl; [congruence | apply IH].
Qed.

Lemma map_res_monoisotope_err l e : map_res monoisotope l = Err e -> e = IndexError.
Proof.
  induction l as [|x t IH]; simpl; [discriminate|].
  unfold monoisotope at 1. destruct (rev _); simpl; [congruence|].
  destruct (map_res monoisotope t); simpl; [discriminate | exact IH].
Qed.

Lemma db_getitem_str_in db s e : db_getitem_str db s = Ok e -> In e db.
Proof.
  induction db as [|x t IH]; simpl; [discriminate|].
  destruct (_ || _); [intros H; inversion H; left; reflexivity | intros H; right; auto].
Qed.

Lemma db_getitem_elem_in db x e : db_getitem_elem db x = Ok e -> In e db.
Proof.
  induction db as [|y t IH]; simpl; [discriminate|].
  destruct (elem_eqb y x); [intros H; inversion H; left; reflexivity|].
  destruct (elem_in_isotopes x (el_isotopes y)) as [[|]|]; simpl;
    [intros H; inversion H; left; reflexivity | intros H; right; auto | discriminate].
Qed.

Lemma db_getitem_key_in db k e : db_getitem_key db k = Ok e -> In e db.
Proof. destruct k; simpl; [apply db_getitem_str_in | apply db_getitem_elem_in]. Qed.

Lemma aset_Forall {K} (eqk : K -> K -> bool) (P : K * Z -> Prop) d k v :
  Forall P d -> (forall k0 v0, In (k0, v0) d -> P (k0, v)) -> P (k, v) -> Forall P (aset eqk d k v).
Proof.
  induction d as [|[k0 v0] t IH]; simpl; intros Hd Hs Hk; [constructor; auto|].
  inversion Hd; subst. destruct (eqk k0 k).
  - constructor; [apply (Hs k0 v0); left; reflexivity | assumption].
  - constructor; [assumption|]. apply IH; [assumption | | exact Hk].
    intros k1 v1 Hkv. apply (Hs k1 v1). right. exact Hkv.
Qed.

Lemma dict_union_nonneg d1 d2 :
  Forall (fun kv => 0 <= snd kv) d1 -> Forall (fun kv => 0 <= snd kv) d2 ->
  Forall (fun kv => 0 <= snd kv) (dict_union d1 d2).
Proof.
  unfold dict_union. revert d1. induction d2 as [|[k v] t IH]; intros d1 H1 H2; simpl; [exact H1|].
  inversion H2; subst. apply IH; [|assumption].
  apply aset_Forall; [exact H1 | intros; exact H3 | exact H3].
Qed.

Lemma build_element_count_entries db L acc ec :
  Forall (fun ev => In (fst ev) db /\ snd ev <> 0) acc ->
  build_element_count db L acc = Ok ec ->
  Forall (fun ev => In (fst ev) db /\ snd ev <> 0) ec.
Proof.
  revert acc. induction L as [|[k v] t IH]; intros acc Hacc; simpl; [congruence|].
  destruct (v =? 0) eqn:Ev; [apply IH; exact Hacc|].
  destruct (db_getitem_key db k) as [e|] eqn:E; simpl; [|discriminate].
  apply IH. apply aset_Forall; [exact Hacc| |].
  - intros k0 v0 H. rewrite Forall_forall in Hacc. split; [apply (Hacc _ H) | apply Z.eqb_neq; exact Ev].
  - split; [eapply db_getitem_key_in; exact E | apply Z.eqb_neq; exact Ev].
Qed.

Lemma build_element_count_nonneg db L acc ec :
  Forall (fun kv => 0 <= snd kv) L ->
  Forall (fun ev => 0 <= snd ev) acc ->
  build_element_count db L acc = Ok ec ->
  Forall (fun ev => 0 <= snd ev) ec.
Proof.
  revert acc. induction L as [|[k v] t IH]; intros acc HL Hacc; simpl; [congruence|].
  inversion HL; subst. destruct (v =? 0); [apply IH; assumption|].
  destruct (db_getitem_key db k) as [e|]; simpl; [|discriminate].
  apply IH; [assumption|]. apply aset_Forall; [exact Hacc | intros; exact H1 | exact H1].
Qed.

Lemma iso_insert_in x y l : In x (iso_insert y l) -> x = y \/ In x l.
Proof.
  induction l as [|z t IH]; simpl; [intuition|].
  destruct (iso_lt y z); simpl; intuition.
Qed.

Lemma iso_sorted_in x l : In x (iso_sorted l) -> In x l.
Proof.
  unfold iso_sorted.
  assert (H : forall acc, In x (fold_left (fun acc y => iso_insert y acc) l acc) -> In x l \/ In x acc).
  { induction l as [|y t IH]; simpl; intros acc H; [auto|].
    apply IH in H as [H|H]; [auto|]. apply iso_insert_in in H as [->|H]; auto. }
  intros Hx. apply H in Hx as [Hx|[]]. exact Hx.
Qed.

Lemma monoisotope_in e i : monoisotope e = Ok i -> In i (el_isotopes e).
Proof.
  unfold monoisotope. destruct (rev (iso_sorted (el_isotopes e))) as [|x t] eqn:E; [discriminate|].
  intros H. inversion H; subst. apply iso_sorted_in. apply in_rev. rewrite E. left. reflexivity.
Qed.

Lemma Qpower_positive_le_1 (p : Q) n : (0 <= p)%Q -> (p <= 1)%Q -> (Qpower_positive p n <= 1)%Q.
Proof.
  intros Hp0 Hp1. induction n as [|n IH] using Pos.peano_ind; [exact Hp1|].
  rewrite <- Pos.add_1_r, Qpower_plus_positive. simpl Qpower_positive at 2.
  rewrite <- (Qmult_1_r 1). apply Qmult_le_compat_nonneg; split;
    [apply Qpower_pos_positive; exact Hp0 | exact IH | exact Hp0 | exact Hp1].
Qed.

Lemma Qpower_unit (p : Q) v : (0 < p)%Q -> (p <= 1)%Q -> 0 <= v -> (0 < p ^ v /\ p ^ v <= 1)%Q.
Proof.
  intros H0 H1 Hv. split; [apply Qpower_0_lt; exact H0|].
  destruct v as [|n|n]; [apply Qle_refl | | lia]. simpl.
  apply Qpower_positive_le_1; [apply Qlt_le_weak; exact H0 | exact H1].
Qed.

Lemma mass_and_abundance_bounds db ec m a m' a' :
  (forall e i, In e db -> In i (el_isotopes e) -> (0 < iso_mass i /\ 0 < iso_abund i <= 1)%Q) ->
  Forall (fun ev => In (fst ev) db) ec ->
  Forall (fun ev => 0 <= snd ev) ec ->
  (0 <= m)%Q -> (0 < a <= 1)%Q ->
  mass_and_abundance ec m a = Ok (m', a') ->
  (0 <= m' /\ 0 < a' <= 1)%Q.
Proof.
  intros Hdb. revert m a. induction ec as [|[e v] t IH]; intros m a Hin Hv Hm Ha; simpl.
  - intros H. inversion H; subst. auto.
  - inversion Hin; inversion Hv; subst. simpl in *.
    destruct (monoisotope e) as [i|] eqn:Ei; simpl; [|discriminate].
    apply monoisotope_in in Ei. destruct (Hdb e i H1 Ei) as [Hmi [Hai Hai']].
    apply IH; try assumption.
    + apply (Qle_trans _ (m + 0)); [rewrite Qplus_0_r; exact Hm|].
      apply Qplus_le_compat; [apply Qle_refl|]. apply Qmult_le_0_compat; [apply Qlt_le_weak; exact Hmi|].
      change 0%Q with (inject_Z 0). rewrite <- Zle_Qle. exact H5.
    + destruct (Qpower_unit (iso_abund i) v Hai Hai' H5) as [Hp Hp'].
      destruct Ha as [Ha Ha']. split; [apply Qmult_lt_0_compat; assumption|].
      rewrite <- (Qmult_1_r 1). apply Qmult_le_compat_nonneg; split; try assumption;
        apply Qlt_le_weak; assumption.
Qed.

Lemma Compound_new_ok db d c :
  Compound_new db d = Ok c ->
  build_element_count db (dict_union (map (fun s => (KStr s, 0)) VALID_ELEMENTS) d) [] = Ok (element_count c) /\
  formula c = render_formula (element_count c) /\
  mass_and_abundance (element_count c) 0 1 = Ok (monomass c, monoabund c) /\
  Qeq_bool (monomass c) 0 = false.
Proof.
  unfold Compound_new, Compound_init, order_elements.
  destruct (build_element_count _ _ _) as [ec|]; cbn [bind]; [|discriminate].
  destruct (mass_and_abundance ec 0 1) as [[m a]|] eqn:Em; cbn [bind]; [|discriminate].
  destruct (Qeq_bool m 0) eqn:Eq; [discriminate|].
  destruct (map_res monoisotope (map fst ec)); cbn [bind]; [|discriminate].
  intros H. inversion H; subst. simpl. auto.
Qed.

(** C6 (amended).  [Compound_new] raises the mass error exactly when the
    element lookups succeed and the monoisotopic mass sums to zero; a
    constructed compound never has mass zero; and when the counts are
    non-negative and every isotope has a positive mass and an abundance
    in (0, 1], a constructed compound has a positive [monomass] and a
    [monoabund] in [0, 1]: the exact product of the abundances is
    positive, but the code computes it in floating point, where
    [abundance ** count] underflows to 0.0 for large counts, so only
    the bound [0 <= monoabund] holds for the code. *)
Theorem Compound_new_mass (db : isotope_db) (d : dict) :
  (Compound_new db d = Err MassError <->
   exists ec fml m a, order_elements db d = Ok (ec, fml) /\
                      mass_and_abundance ec 0 1 = Ok (m, a) /\ (m == 0)%Q) /\
  (forall c, Compound_new db d = Ok c -> ~ (monomass c == 0)%Q) /\
  ((forall kv, In kv d -> 0 <= snd kv) ->
   (forall e i, In e db -> In i (el_isotopes e) -> (0 < iso_mass i /\ 0 < iso_abund i <= 1)%Q) ->
   forall c, Compound_new db d = Ok c -> (0 < monomass c /\ 0 <= monoabund c <= 1)%Q).
Proof.
  split; [|split].
  - unfold Compound_new, Compound_init. split.
    + destruct (order_elements db d) as [[ec fml]|e] eqn:Eo; cbn [bind].
      * destruct (mass_and_abundance ec 0 1) as [[m a]|e] eqn:Em; cbn [bind].
        -- destruct (Qeq_bool m 0) eqn:Eq.
           ++ intros _. exists ec, fml, m, a.
              split; [first [exact Eo | reflexivity]|]. split; [first [exact Em | reflexivity]|].
              apply Qeq_bool_iff. exact Eq.
           ++ destruct (map_res monoisotope (map fst ec)) as [|e] eqn:Emr; cbn [bind]; [discriminate|].
              intros H. inversion H; subst. apply map_res_monoisotope_err in Emr. discriminate.
        -- intros H. inversion H; subst. apply mass_and_abundance_err in Em. discriminate.
      * intros H. inversion H; subst. unfold order_elements in Eo.
        destruct (build_element_count _ _ _) eqn:Eb; cbn [bind] in Eo; [discriminate|].
        inversion Eo; subst. apply build_element_count_err in Eb. contradiction.
    + intros [ec [fml [m [a [Eo [Em Hm]]]]]]. rewrite Eo. cbn [bind]. rewrite Em. cbn [bind].
      apply Qeq_bool_iff in Hm. rewrite Hm. reflexivity.
  - intros c Hc. apply Compound_new_ok in Hc as [_ [_ [_ Hq]]]. intros H.
    apply Qeq_bool_iff in H. congruence.
  - intros Hd Hdb c Hc. apply Compound_new_ok in Hc as [Hb [_ [Hm Hq]]].
    assert (Hnn : Forall (fun ev => 0 <= snd ev) (element_count c)).
    { eapply build_element_count_nonneg; [|constructor|exact Hb].
      apply dict_union_nonneg; [repeat constructor; simpl; lia|]. apply Forall_forall. exact Hd. }
    assert (Hin : Forall (fun ev => In (fst ev) db) (element_count c)).
    { pose proof (build_element_count_entries db _ [] _ (Forall_nil _) Hb) as H.
      eapply Forall_impl; [|exact H]. intros ev [H1 _]. exact H1. }
    assert (H01 : (0 < 1 <= 1)%Q) by (split; [reflexivity | apply Qle_refl]).
    destruct (mass_and_abundance_bounds db _ 0 1 _ _ Hdb Hin Hnn (Qle_refl 0) H01 Hm) as [Hm0 Ha].
    split; [|split; [apply Qlt_le_weak; apply Ha | apply Ha]].
    apply Qle_lteq in Hm0 as [Hm0|Hm0]; [exact Hm0|].
    exfalso. symmetry in Hm0. apply Qeq_bool_iff in Hm0. congruence.
Qed.

Lemma Compound_new_mass_witness :
  (0 < monomass ethanol /\ 0 <= monoabund ethanol <= 1)%Q.
Proof.
  destruct (Compound_new_mass sample_db (sdict ethanol_counts)) as [_ [_ H]].
  apply H.
  - intros kv Hkv. simpl in Hkv. repeat destruct Hkv as [<-|Hkv]; try destruct Hkv; simpl; lia.
  - intros e i He Hi. simpl in He. repeat destruct He as [<-|He]; try destruct He;
      simpl in Hi; repeat destruct Hi as [<-|Hi]; try destruct Hi;
      (split; [reflexivity | split; [reflexivity | discriminate]]).
  - vm_compute. reflexivity.
Defined.

Lemma negative_count_compound :
  exists c, Compound_new sample_db (sdict [("C", -1)]) = Ok c /\
            (monomass c == -12)%Q /\ (1 < monoabund c)%Q.
Proof.
  eexists. split; [vm_compute; reflexivity|]. split; vm_compute; reflexivity.
Qed.

(* ------------------------------------------------------------------ *)
(** ** [modify_formula_dict] *)

Lemma strip_ws_sign_digits sg s :
  is_sign sg = true -> s <> EmptyString -> str_forallb is_digit s = true ->
  strip_ws (String sg s) = String sg s.
Proof.
  intros Hsg Hne Hd. unfold strip_ws.
  assert (H1 : lstrip_ws (String sg s) = String sg s).
  { unfold is_sign in Hsg. apply orb_true_iff in Hsg as [E|E]; apply Ascii.eqb_eq in E; subst; reflexivity. }
  rewrite H1.
  assert (H2 : lstrip_ws (rev_str (String sg s)) = rev_str (String sg s)).
  { unfold rev_str. cbn [list_ascii_of_string rev]. rewrite str_forallb_list, <- forallb_rev in Hd.
    destruct (rev (list_ascii_of_string s)) as [|d l'] eqn:Er.
    - exfalso. apply Hne. destruct s as [|ch r]; [reflexivity|].
      cbn [list_ascii_of_string rev] in Er. apply (f_equal (@length _)) in Er.
      rewrite length_app in Er. simpl in Er. lia.
    - simpl in Hd. apply andb_true_iff in Hd as [Hd _]. cbn [app string_of_list_ascii lstrip_ws].
      rewrite digit_not_space by exact Hd. reflexivity. }
  rewrite H2. apply rev_str_involutive.
Qed.

Lemma int_body_digits s :
  s <> EmptyString -> str_forallb is_digit s = true -> int_body s = Ok (digits_value s).
Proof.
  intros Hne H. destruct s as [|ch r]; [contradiction|].
  simpl in H. apply andb_true_iff in H as [H1 H2].
  unfold int_body. cbn [int_body_ok str_filter]. rewrite H1, int_body_ok_digits by exact H2.
  rewrite str_filter_all by exact H2. reflexivity.
Qed.

Lemma py_int_signed sg v :
  (sg = "+" \/ sg = "-") -> 0 <= v -> py_int (sg ++ str_Z v) = Ok (signed_count sg v).
Proof.
  intros Hsg Hv. apply Z.le_lteq in Hv as [Hv| <-]; [|destruct Hsg as [-> | ->]; reflexivity].
  destruct (str_Z_pos v Hv) as [Hne [Hd Hp]].
  rewrite (py_int_digits _ Hne Hd) in Hp. injection Hp as Hp.
  destruct Hsg as [-> | ->]; cbn [append]; unfold py_int;
    (rewrite strip_ws_sign_digits by (reflexivity || assumption));
    cbn [Ascii.eqb Bool.eqb]; unfold signed_count; simpl String.eqb;
    rewrite int_body_digits, Hp by assumption; reflexivity.
Qed.

Lemma fold_left_inv {A B} (P : A -> Prop) (f : A -> B -> A) l a :
  (forall a x, In x l -> P a -> P (f a x)) -> P a -> P (fold_left f l a).
Proof.
  revert a. induction l as [|x t IH]; intros a Hf Ha; simpl; [exact Ha|].
  apply IH; [intros a' y Hy; apply Hf; right; exact Hy | apply Hf; [left; reflexivity | exact Ha]].
Qed.

Lemma span_fst p s : str_forallb p (fst (span p s)) = true.
Proof.
  induction s as [|ch r IH]; simpl; [reflexivity|].
  destruct (p ch) eqn:E; [|reflexivity]. destruct (span p r) as [a b]. simpl in *. rewrite E. exact IH.
Qed.

Lemma str_filter_forallb p s : str_forallb p (str_filter p s) = true.
Proof.
  induction s as [|ch r IH]; simpl; [reflexivity|]. destruct (p ch) eqn:E; simpl; [rewrite E|]; auto.
Qed.

Lemma digits_value_acc_nonneg s acc :
  str_forallb is_digit s = true -> 0 <= acc -> 0 <= digits_value_acc s acc.
Proof.
  revert acc. induction s as [|ch r IH]; intros acc H Hacc; cbn [digits_value_acc]; [exact Hacc|].
  simpl in H. apply andb_true_iff in H as [H1 H2]. apply IH; [exact H2|].
  unfold is_digit, in_range in H1. apply andb_true_iff in H1 as [H1 _]. apply Nat.leb_le in H1.
  unfold digit_val. lia.
Qed.

Lemma digits_value_nonneg s : str_forallb is_digit s = true -> 0 <= digits_value s.
Proof. intros H. apply digits_value_acc_nonneg; [exact H | lia]. Qed.

Lemma dget0_nonneg d k : nonneg_dict d -> 0 <= dget0 d k.
Proof.
  unfold dget0, aget0. induction 1 as [|[k' v] t Hv _ IH]; simpl; [lia|].
  destruct (pykey_eqb k' k); [exact Hv | exact IH].
Qed.

Lemma aggregate_nonneg d1 d2 : nonneg_dict d1 -> nonneg_dict d2 -> nonneg_dict (aggregate_dict_values d1 d2).
Proof.
  unfold nonneg_dict. intros H1 H2. unfold aggregate_dict_values. apply fold_left_inv; [|exact H2].
  intros a [k v] Hx Ha. simpl. apply aset_Forall; [exact Ha | intros k0 v0 _ | ];
    simpl; rewrite Forall_forall in H1; specialize (H1 _ Hx); simpl in H1;
    pose proof (dget0_nonneg a k Ha); lia.
Qed.

Lemma elem_count_nonneg elem m : 0 <= m -> nonneg_dict (elem_count elem m).
Proof.
  intros Hm. unfold elem_count. constructor; [|constructor]. simpl.
  destruct (String.eqb _ "").
  - lia.
  - apply Z.mul_nonneg_nonneg; [apply digits_value_nonneg, str_filter_forallb | exact Hm].
Qed.

Lemma grouped_at_digits r inner ds r3 :
  grouped_at r = Some (inner, ds, r3) -> str_forallb is_digit ds = true.
Proof.
  unfold grouped_at. destruct (span _ r) as [i r1].
  destruct (String.eqb i ""); [discriminate|].
  destruct r1 as [|ch r2]; [discriminate|]. destruct (Ascii.eqb ch ")"%char); [|discriminate].
  pose proof (span_fst is_digit r2) as Hs. destruct (span is_digit r2) as [d r4]. simpl in Hs.
  destruct (String.eqb d ""); [discriminate|]. intros H. injection H as _ <- _. exact Hs.
Qed.

Lemma findall_grouped_digits fuel s :
  Forall (fun p => str_forallb is_digit (snd p) = true) (findall_grouped fuel s).
Proof.
  revert s. induction fuel as [|f IH]; intros s; simpl; [constructor|].
  destruct s as [|ch r]; [constructor|].
  destruct (if Ascii.eqb ch "("%char then grouped_at r else None) as [[[inner ds] rest]|] eqn:E;
    [|apply IH].
  constructor; [|apply IH]. simpl.
  destruct (Ascii.eqb ch "("%char); [|discriminate]. exact (grouped_at_digits _ _ _ _ E).
Qed.

Lemma get_element_count_nonneg f : nonneg_dict (get_element_count f).
Proof.
  unfold get_element_count.
  assert (Hm : forall ds rest, span is_digit f = (ds, rest) ->
                 0 <= (if String.eqb ds "" then 1 else digits_value ds)).
  { intros ds rest E. destruct (String.eqb ds ""); [lia|]. apply digits_value_nonneg.
    pose proof (span_fst is_digit f) as H. rewrite E in H. exact H. }
  destruct (span is_digit f) as [ds rest] eqn:E. specialize (Hm ds rest eq_refl).
  set (mult := if String.eqb ds "" then 1 else digits_value ds) in *.
  set (f1 := if String.eqb ds "" then f else dot_star rest).
  replace (let '(mult0, f0) := (if String.eqb ds "" then (1, f) else (digits_value ds, dot_star rest)) in _)
    with (let f2 := match str_assoc compound_abbreviations f1 with Some g => g | None => f1 end in
          fold_left (fun acc sd => fold_left (fun acc2 elem => aggregate_dict_values (elem_count elem (snd sd * mult)) acc2)
                     (snd (upper_runs (fst sd))) acc)
           (map (fun p => (fst p, digits_value (snd p))) (findall_grouped (S (String.length f2)) f2) ++
            map (fun a => (a, 1)) (findall_standalone (S (String.length f2)) f2)) [])
    by (unfold mult, f1; destruct (String.eqb ds ""); reflexivity).
  cbv zeta. apply fold_left_inv; [|constructor].
  intros acc sd Hsd Hacc. apply fold_left_inv; [|exact Hacc].
  intros acc2 elem _ H2. apply aggregate_nonneg; [|exact H2]. apply elem_count_nonneg.
  apply Z.mul_nonneg_nonneg; [|exact Hm].
  apply in_app_or in Hsd as [Hsd|Hsd]; apply in_map_iff in Hsd as [p [<- Hp]]; simpl; [|lia].
  apply digits_value_nonneg. pose proof (findall_grouped_digits (S (String.length
    (match str_assoc compound_abbreviations f1 with Some g => g | None => f1 end)))
    (match str_assoc compound_abbreviations f1 with Some g => g | None => f1 end)) as HF.
  rewrite Forall_forall in HF. exact (HF p Hp).
Qed.

Lemma signed_dict_spec sign d acc :
  (sign = "+" \/ sign = "-") -> nonneg_dict d ->
  signed_dict sign d acc = Ok (fold_left (fun acc kv => dset acc (fst kv) (signed_count sign (snd kv))) d acc).
Proof.
  intros Hs Hd. revert acc. induction Hd as [|[k v] t Hv _ IH]; intros acc; simpl; [reflexivity|].
  rewrite py_int_signed by assumption. cbn [bind]. apply IH.
Qed.

Lemma split_sign_shape s : exists seg rest, split_sign s = seg :: rest /\ Forall sign_ok (pairs rest).
Proof.
  induction s as [|ch r [seg [rest [E H]]]]; [exists "", []; split; [reflexivity | constructor]|].
  simpl. rewrite E. destruct (is_sign ch) eqn:Hs.
  - exists "", (String ch "" :: seg :: rest). split; [reflexivity|]. simpl. constructor; [|exact H].
    unfold sign_ok, is_sign in *. simpl.
    apply orb_true_iff in Hs as [Q|Q]; apply Ascii.eqb_eq in Q; subst; [left|right]; reflexivity.
  - exists (String ch seg), rest. split; [reflexivity | exact H].
Qed.

Lemma apply_terms_spec_eq l upd :
  Forall sign_ok l -> apply_terms l upd = Ok (apply_terms_spec l upd).
Proof.
  unfold apply_terms_spec. intros Hl. revert upd.
  induction Hl as [|[sign term] t Hs _ IH]; intros upd; simpl; [reflexivity|].
  rewrite signed_dict_spec by (exact Hs || apply get_element_count_nonneg). cbn [bind]. apply IH.
Qed.

Lemma modify_updated_spec_eq fd adduct : modify_updated fd adduct = Ok (modify_updated_spec fd adduct).
Proof.
  unfold modify_updated, modify_updated_spec. apply apply_terms_spec_eq.
  destruct (split_sign_shape adduct) as [seg [rest [-> H]]]. exact H.
Qed.

Lemma has_negative_spec d : has_negative d = true <-> exists kv, In kv d /\ snd kv < 0.
Proof.
  unfold has_negative. rewrite existsb_exists. split; intros [kv [H1 H2]]; exists kv; split; auto;
    [apply Z.ltb_lt | apply Z.ltb_lt in H2]; exact H2.
Qed.

(** C5.  [modify_formula_dict] never raises: it returns [None] when a
    count of the updated map is negative and the updated map otherwise,
    where the updated map is the base map, scaled by the leading [<N>M]
    multiplier when there is one, with every term's counts added after a
    [+] and subtracted after a [-].  Strings are ASCII in this model,
    and the interpreter's limit on the number of digits [int] converts
    is not modelled. *)
Theorem modify_formula_dict_none_iff_negative (fd : dict) (adduct : string) :
  modify_formula_dict fd adduct =
    Ok (if has_negative (modify_updated_spec fd adduct) then None
        else Some (modify_updated_spec fd adduct)) /\
  (modify_formula_dict fd adduct = Ok None <->
   exists kv, In kv (modify_updated_spec fd adduct) /\ snd kv < 0).
Proof.
  assert (E : modify_formula_dict fd adduct =
    Ok (if has_negative (modify_updated_spec fd adduct) then None
        else Some (modify_updated_spec fd adduct))).
  { unfold modify_formula_dict. rewrite modify_updated_spec_eq. reflexivity. }
  split; [exact E|]. rewrite E, <- has_negative_spec.
  destruct (has_negative _); split; intros H; try reflexivity; discriminate.
Qed.

(* ------------------------------------------------------------------ *)
(** ** The elements of a compound *)

Lemma build_element_count_key_err db L acc s v :
  Forall (fun kv => exists s0, fst kv = KStr s0) L ->
  In (KStr s, v) L -> v <> 0 -> db_getitem_str db s = Err KeyError ->
  build_element_count db L acc = Err KeyError.
Proof.
  intros HL. revert acc. induction HL as [|[k0 v0] t [s0 Hs0] _ IH]; intros acc Hin Hv Hs;
    [destruct Hin|]. simpl in Hs0; subst k0. simpl.
  destruct Hin as [E|Hin].
  - injection E as -> ->. apply Z.eqb_neq in Hv. rewrite Hv. simpl. rewrite Hs. reflexivity.
  - destruct (v0 =? 0); [apply IH; assumption|].
    simpl. destruct (db_getitem_str db s0) as [e|e] eqn:E; cbn [bind]; [apply IH; assumption|].
    apply db_getitem_str_err in E. subst. reflexivity.
Qed.

Lemma normalize_keeps l s v :
  NoDup (map fst l) -> In (s, v) l -> v <> 0 -> In (s, v) (filter nonzero (sunion valid_zeros l)).
Proof.
  intros Hl Hin Hv. apply filter_In. split.
  - apply saget_some_in. rewrite sunion_aget by exact Hl. rewrite (saget_in l s v Hl Hin). reflexivity.
  - unfold nonzero. simpl. apply Z.eqb_neq in Hv. rewrite Hv. reflexivity.
Qed.

Lemma build_element_count_keyerr_inv db L acc :
  Forall (fun kv => exists s0, fst kv = KStr s0) L ->
  build_element_count db L acc = Err KeyError ->
  exists s v, In (KStr s, v) L /\ v <> 0 /\ db_getitem_str db s = Err KeyError.
Proof.
  intros HL. revert acc. induction HL as [|[k0 v0] t [s0 Hs0] _ IH]; intros acc H;
    [discriminate|]. simpl in Hs0; subst k0. cbn [build_element_count db_getitem_key] in H.
  destruct (v0 =? 0) eqn:Ev.
  - destruct (IH _ H) as [s [v [Hi R]]]. exists s, v. split; [right; exact Hi | exact R].
  - destruct (db_getitem_str db s0) as [e|e] eqn:E; cbn [bind] in H.
    + destruct (IH _ H) as [s [v [Hi R]]]. exists s, v. split; [right; exact Hi | exact R].
    + injection H as ->. exists s0, v0. split; [left; reflexivity|].
      split; [apply Z.eqb_neq; exact Ev | exact E].
Qed.

Lemma normalize_from l s v :
  NoDup (map fst l) -> In (s, v) (filter nonzero (sunion valid_zeros l)) -> In (s, v) l /\ v <> 0.
Proof.
  intros Hl H. apply filter_In in H as [Hin Hnz].
  assert (Hv : v <> 0) by (unfold nonzero in Hnz; simpl in Hnz; intros ->; discriminate).
  split; [|exact Hv].
  assert (Hz : NoDup (map fst valid_zeros)) by (repeat constructor; simpl; intuition discriminate).
  apply (saget_in _ _ _ (sunion_nodup _ _ Hz Hl)) in Hin.
  rewrite sunion_aget in Hin by exact Hl.
  destruct (aget String.eqb l s) as [v'|] eqn:E.
  - injection Hin as ->. apply saget_some_in. exact E.
  - apply saget_some_in in Hin. unfold valid_zeros in Hin.
    apply in_map_iff in Hin as [x [Ex _]]. injection Ex as _ Hv0. congruence.
Qed.

(** C8 (amended).  Every entry of the [element_count] of any constructed
    compound, whatever dict it was built from (string keys of a parsed
    formula or the [Element] keys that [get_updated_compound] passes on),
    has a nonzero count and an element of the isotope table, whether or
    not its symbol is in [VALID_ELEMENTS]; and when the formula maps
    distinct symbols to counts, construction fails with [KeyError]
    exactly when a symbol with a nonzero count is not resolved by the
    isotope table, so no symbol the table resolves is rejected. *)
Theorem Compound_new_element_count (db : isotope_db) :
  (forall d c, Compound_new db d = Ok c ->
     Forall (fun ev => In (fst ev) db /\ snd ev <> 0) (element_count c)) /\
  (forall l, NoDup (map fst l) ->
     (Compound_new db (sdict l) = Err KeyError <->
      exists s v, In (s, v) l /\ v <> 0 /\ db_getitem_str db s = Err KeyError)).
Proof.
  split.
  - intros d c Hc. apply Compound_new_ok in Hc as [Hb _].
    exact (build_element_count_entries db _ [] _ (Forall_nil _) Hb).
  - intros l Hl.
    assert (HF : forall X, Forall (fun kv => exists s0, fst kv = KStr s0) (sdict X)).
    { intros X. apply Forall_forall. intros kv Hkv. unfold sdict in Hkv.
      apply in_map_iff in Hkv as [[k0 v0] [<- _]]. exists k0. reflexivity. }
    unfold Compound_new, Compound_init. rewrite order_elements_sdict. split.
    + intros H.
      destruct (build_element_count db (sdict (filter nonzero (sunion valid_zeros l))) [])
        as [ec|e] eqn:Eb; cbn [bind] in H.
      * exfalso. destruct (mass_and_abundance ec 0 1) as [[m a]|e] eqn:Em; cbn [bind] in H.
        -- destruct (Qeq_bool m 0); [discriminate|].
           destruct (map_res monoisotope (map fst ec)) as [|e] eqn:Emr; cbn [bind] in H; [discriminate|].
           injection H as ->. apply map_res_monoisotope_err in Emr. discriminate.
        -- injection H as ->. apply mass_and_abundance_err in Em. discriminate.
      * injection H as ->.
        destruct (build_element_count_keyerr_inv db _ [] (HF _) Eb) as [s [v [Hin [Hv Hs]]]].
        unfold sdict in Hin. apply in_map_iff in Hin as [[s' v'] [Es Hin]].
        injection Es as -> ->. apply normalize_from in Hin as [Hin _]; [|exact Hl].
        exists s, v. auto.
    + intros [s [v [Hin [Hv Hs]]]].
      rewrite (build_element_count_key_err db _ [] s v); [reflexivity | apply HF | | exact Hv | exact Hs].
      unfold sdict. apply (in_map (fun kv => (KStr (fst kv), snd kv)) _ (s, v)).
      apply normalize_keeps; assumption.
Qed.

Lemma Compound_new_element_count_witness :
  Compound_new sample_db (sdict [("C", 1); ("K", 1)]) = Err KeyError.
Proof.
  apply (proj2 (proj2 (Compound_new_element_count sample_db) [("C", 1); ("K", 1)]
           ltac:(repeat constructor; simpl; intuition discriminate))).
  exists "K", 1. split; [right; left; reflexivity|]. split; [lia | reflexivity].
Defined.

Lemma iron_compound_accepted :
  ~ In "Fe" VALID_ELEMENTS /\
  exists c, Compound_new sample_db (sdict [("Fe", 1)]) = Ok c /\ In (el_Fe, 1) (element_count c).
Proof.
  split; [simpl; intuition discriminate|].
  eexists. split; [vm_compute; reflexivity|]. left. reflexivity.
Qed.

(* ------------------------------------------------------------------ *)
(** ** The store of dicts *)

Import Heap.

Lemma load_app_l h t a : (a < length h)%nat -> load (h ++ t)%list a = load h a.
Proof. intros H. unfold load. apply app_nth1. exact H. Qed.

Lemma load_alloc h d : load (h ++ [d])%list (length h) = d.
Proof. unfold load. rewrite app_nth2, Nat.sub_diag by lia. reflexivity. Qed.

Lemma update_app h t a d : (length h <= a)%nat -> update (h ++ t)%list a d = (h ++ update t (a - length h) d)%list.
Proof.
  revert a. induction h as [|x h IH]; intros a Ha; simpl; [rewrite Nat.sub_0_r; reflexivity|].
  destruct a as [|a]; [simpl in Ha; lia|]. simpl in Ha. rewrite IH by lia. reflexivity.
Qed.

Lemma update_alloc h d d' : update (h ++ [d])%list (length h) d' = (h ++ [d'])%list.
Proof. rewrite update_app, Nat.sub_diag by lia. reflexivity. Qed.

Lemma prefix_trans (h0 h1 h2 : store) :
  (exists t, h1 = h0 ++ t)%list -> (exists t, h2 = h1 ++ t)%list -> (exists t, h2 = h0 ++ t)%list.
Proof. intros [t1 ->] [t2 ->]. exists (t1 ++ t2)%list. symmetry. apply app_assoc. Qed.

Lemma prefix_length (h0 h : store) : (exists t, h = h0 ++ t)%list -> (length h0 <= length h)%nat.
Proof. intros [t ->]. rewrite length_app. lia. Qed.

Lemma prefix_load (h0 h : store) a : (exists t, h = h0 ++ t)%list -> (a < length h0)%nat -> load h a = load h0 a.
Proof. intros [t ->] Ha. apply load_app_l. exact Ha. Qed.

Lemma apply_terms_h_spec l (h0 h : store) u h' r :
  (exists t, h = h0 ++ t)%list -> (length h0 <= u < length h)%nat ->
  apply_terms_h l h u = (h', r) ->
  (exists t, h' = h0 ++ t)%list /\
  match r with
  | Ok u' => (length h0 <= u' < length h')%nat /\ apply_terms l (load h u) = Ok (load h' u')
  | Err e => apply_terms l (load h u) = Err e
  end.
Proof.
  revert h u. induction l as [|[sign term] t IH]; intros h u Hp Hu E.
  - simpl in E. injection E as <- <-. split; [exact Hp|]. split; [exact Hu | reflexivity].
  - cbn [apply_terms_h alloc] in E. rewrite load_alloc in E.
    assert (Hp1 : (exists t0, (h ++ [get_element_count term])%list = h0 ++ t0)%list)
      by (eapply prefix_trans; [exact Hp | eexists; reflexivity]).
    cbn [apply_terms]. destruct (signed_dict sign (get_element_count term) []) as [sd|e] eqn:Es;
      cbn [bind].
    + unfold aggregate_dict_values_h in E. rewrite update_alloc, load_alloc in E.
      set (h1 := (h ++ [get_element_count term])%list) in *.
      assert (Hu1 : (u < length h1)%nat) by (unfold h1; rewrite length_app; simpl; lia).
      rewrite (load_app_l h1 [sd] u Hu1) in E. unfold h1 in E. rewrite load_app_l in E by lia.
      fold h1 in E.
      set (X := aggregate_dict_values (load h u) sd) in *.
      edestruct (IH (h1 ++ [X])%list (length h1)) as [Hp' Hr]; [| | exact E |].
      * eapply prefix_trans; [exact Hp1 | eexists; reflexivity].
      * rewrite length_app. simpl. pose proof (prefix_length _ _ Hp1). lia.
      * split; [exact Hp'|]. rewrite load_alloc in Hr. exact Hr.
    + injection E as <- <-. split; [exact Hp1 | reflexivity].
Qed.

Ltac finish_modify h h2 u1 Hp2 Hu1 :=
  match goal with
  | E : (let (_, _) := apply_terms_h ?l h2 u1 in _) = (_, _) |- _ =>
      let h3 := fresh "h3" in let r3 := fresh "r3" in let Ea := fresh "Ea" in
      let Hp3 := fresh "Hp3" in let Hr3 := fresh "Hr3" in
      destruct (apply_terms_h l h2 u1) as [h3 r3] eqn:Ea;
      destruct (apply_terms_h_spec _ h h2 u1 h3 r3 Hp2 Hu1 Ea) as [Hp3 Hr3];
      destruct r3 as [u|e]; injection E as <- <-; (split; [exact Hp3|]);
      [ let Hu := fresh "Hu" in let Hr := fresh "Hr" in
        destruct Hr3 as [Hu Hr]; rewrite Hr; cbn [bind];
        destruct (has_negative (load h3 u)); [reflexivity | split; [exact Hu | reflexivity]]
      | rewrite Hr3; reflexivity ]
  end.

Lemma modify_formula_dict_h_spec h fd adduct h' r :
  (fd < length h)%nat -> modify_formula_dict_h h fd adduct = (h', r) ->
  (exists t, h' = h ++ t)%list /\
  match r with
  | Ok (Some u) => (length h <= u < length h')%nat /\ modify_formula_dict (load h fd) adduct = Ok (Some (load h' u))
  | Ok None => modify_formula_dict (load h fd) adduct = Ok None
  | Err e => modify_formula_dict (load h fd) adduct = Err e
  end.
Proof.
  intros Hfd E. unfold modify_formula_dict_h in E. cbn [alloc] in E.
  set (h1 := (h ++ [load h fd])%list) in *.
  assert (Hl : load h1 (length h) = load h fd) by apply load_alloc.
  assert (Hp1 : (exists t, h1 = h ++ t)%list) by (eexists; reflexivity).
  assert (Hlen1 : length h1 = S (length h)) by (unfold h1; rewrite length_app; simpl; lia).
  unfold modify_formula_dict, modify_updated.
  destruct (multiplier_prefix (hd "" (split_sign adduct))) as [n|]; cbn [alloc] in E.
  - set (h2 := (h1 ++ [scale_dict n (load h1 (length h))])%list) in *.
    assert (Hb : load h2 (length h1) = scale_dict n (load h fd))
      by (unfold h2; rewrite load_alloc, Hl; reflexivity).
    assert (Hp2 : (exists t, h2 = h ++ t)%list)
      by (eapply prefix_trans; [exact Hp1 | eexists; reflexivity]).
    assert (Hu1 : (length h <= length h1 < length h2)%nat)
      by (unfold h2; rewrite length_app; simpl; lia).
    rewrite <- Hb. finish_modify h h2 (length h1) Hp2 Hu1.
  - assert (Hu1 : (length h <= length h < length h1)%nat) by lia.
    rewrite <- Hl. finish_modify h h1 (length h) Hp1 Hu1.
Qed.

(** X22.  [modify_formula_dict] only allocates
    dicts: the store after the call extends the one before, so the
    [formula_dict] argument and every other dict are unchanged, and a
    returned map is a new dict.  [get_updated_compound] likewise leaves
    the original compound and its [element_count] unchanged; it returns a
    new compound, with a new [element_count], when the updated formula
    builds a compound; its outcome is the one of the value model, and it
    raises [TypeError] exactly when [modify_formula_dict] signals an
    infeasible adduct with [None], which is not passed back. *)
Theorem get_updated_compound_frame (db : isotope_db) (h : store) (self : cobj) (adduct : string) :
  (forall fd h' r, (fd < length h)%nat -> modify_formula_dict_h h fd adduct = (h', r) ->
     (exists t, h' = h ++ t)%list /\ load h' fd = load h fd /\
     match r with
     | Ok (Some u) => (length h <= u)%nat /\ modify_formula_dict (load h fd) adduct = Ok (Some (load h' u))
     | Ok None => modify_formula_dict (load h fd) adduct = Ok None
     | Err e => modify_formula_dict (load h fd) adduct = Err e
     end) /\
  (obj_ok h self -> forall h' r, get_updated_compound_h db h self adduct = (h', r) ->
     (exists t, h' = h ++ t)%list /\ obj_ok h' self /\
     match r with
     | Ok o => (length h <= c_ec o)%nat /\ obj_ok h' o /\
               get_updated_compound db (c_val self) adduct = Ok (c_val o)
     | Err e => get_updated_compound db (c_val self) adduct = Err e /\
                (get_updated_compound db (c_val self) adduct = Err TypeError <->
                 modify_formula_dict (ec_dict (element_count (c_val self))) adduct = Ok None)
     end).
Proof.
  split.
  - intros fd h' r Hfd E. destruct (modify_formula_dict_h_spec h fd adduct h' r Hfd E) as [Hp Hr].
    split; [exact Hp|]. split; [exact (prefix_load h h' fd Hp Hfd)|].
    destruct r as [[u|]|e]; [destruct Hr as [[Hu _] Hr]; split; [exact Hu|]|..]; exact Hr.
  - intros [Hself Hec] h' r E. unfold get_updated_compound_h in E.
    destruct (modify_formula_dict_h h (c_ec self) adduct) as [h1 r1] eqn:Em.
    destruct (modify_formula_dict_h_spec h (c_ec self) adduct h1 r1 Hself Em) as [Hp1 Hr1].
    rewrite Hec in Hr1.
    assert (Hok1 : obj_ok h1 self).
    { split; [pose proof (prefix_length _ _ Hp1); lia|]. rewrite (prefix_load h h1); assumption. }
    unfold get_updated_compound.
    destruct r1 as [m|e].
    + assert (Hv : modify_formula_dict (ec_dict (element_count (c_val self))) adduct = Ok (option_map (load h1) m)).
      { destruct m as [u|]; [destruct Hr1 as [_ Hr1]|]; exact Hr1. }
      rewrite Hv. cbn [bind].
      destruct (Compound_init db (option_map (load h1) m)) as [c|e] eqn:Ec.
      * cbn [alloc] in E. injection E as <- <-. simpl.
        split; [eapply prefix_trans; [exact Hp1 | eexists; reflexivity]|].
        split; [destruct Hok1 as [H1 H2]; split;
                [rewrite length_app; lia | rewrite load_app_l by exact H1; exact H2]|].
        split; [pose proof (prefix_length _ _ Hp1); lia|].
        split; [split; [rewrite length_app; simpl; lia | apply load_alloc] | reflexivity].
      * injection E as <- <-. split; [exact Hp1|]. split; [exact Hok1|]. split; [reflexivity|].
        split; [|intros H; destruct m; [discriminate|]; simpl in Ec; injection Ec as <-; reflexivity].
        intros He. inversion He; subst. destruct m as [u|]; [|reflexivity].
        exfalso. simpl in Ec. unfold Compound_init in Ec.
        destruct (order_elements db (load h1 u)) as [[ec fml]|e0] eqn:Eo; cbn [bind] in Ec.
        -- destruct (mass_and_abundance ec 0 1) as [[m0 a0]|e0] eqn:Ema; cbn [bind] in Ec.
           ++ destruct (Qeq_bool m0 0); [discriminate|].
              destruct (map_res monoisotope (map fst ec)) as [|e0] eqn:Emr; cbn [bind] in Ec; [discriminate|].
              injection Ec as ->. apply map_res_monoisotope_err in Emr. discriminate.
           ++ injection Ec as ->. apply mass_and_abundance_err in Ema. discriminate.
        -- injection Ec as ->. unfold order_elements in Eo.
           destruct (build_element_count _ _ _) as [|e1] eqn:Eb; cbn [bind] in Eo; [discriminate|].
           injection Eo as ->. clear -Eb.
           revert Eb. generalize (dict_union (map (fun s => (KStr s, 0)) VALID_ELEMENTS) (load h1 u)) as L.
           generalize (@nil (element * Z)) as acc.
           intros acc L. revert acc. induction L as [|[k v] t IH]; intros acc; simpl; [discriminate|].
           destruct (v =? 0); [apply IH|].
           destruct (db_getitem_key db k) as [x|e'] eqn:Ek; cbn [bind]; [apply IH|].
           intros H. injection H as ->. destruct k as [s|x]; simpl in Ek;
             [apply db_getitem_str_err in Ek | apply db_getitem_elem_err in Ek as [Ek|Ek]]; discriminate.
    + injection E as <- <-. split; [exact Hp1|]. split; [exact Hok1|].
      rewrite Hr1. cbn [bind]. split; [reflexivity|].
      split; [intros H; injection H as ->|discriminate].
      exfalso. clear -Hr1. unfold get_updated_compound, modify_formula_dict in *.
      rewrite modify_updated_spec_eq in Hr1. discriminate.
Qed.

Lemma get_updated_compound_frame_witness :
  exists h' o,
    get_updated_compound_h sample_db [ec_dict (element_count ethanol)] (mkCobj 0 ethanol) "[M+H]+"
      = (h', Ok o) /\
    load h' 0 = ec_dict (element_count ethanol) /\ (1 <= c_ec o)%nat /\ formula (c_val o) = "C2H7O".
Proof.
  assert (Hok : obj_ok [ec_dict (element_count ethanol)] (mkCobj 0 ethanol))
    by (split; [simpl; lia | reflexivity]).
  destruct (get_updated_compound_h sample_db [ec_dict (element_count ethanol)] (mkCobj 0 ethanol) "[M+H]+")
    as [h' r] eqn:E.
  destruct (proj2 (get_updated_compound_frame sample_db [ec_dict (element_count ethanol)]
                     (mkCobj 0 ethanol) "[M+H]+") Hok h' r E) as [_ [[_ Hs] Hr]].
  destruct r as [o|e].
  - exists h', o. split; [reflexivity|]. split; [exact Hs|].
    destruct Hr as [Hc [_ Hv]]. split; [exact Hc|].
    cbn [c_val] in Hv.
    assert (Hf : match get_updated_compound sample_db ethanol "[M+H]+" with
                 | Ok c' => formula c' = "C2H7O" | Err _ => False end) by (vm_compute; reflexivity).
    rewrite Hv in Hf. exact Hf.
  - exfalso. destruct Hr as [Hv _]. vm_compute in Hv. discriminate.
Defined.

(** C9 (code bug).  [modify_formula_dict] signals the infeasible adduct
    [M+H-NH4] on C5H8O2 (four more H than the compound has) with [None],
    but [get_updated_compound] hands that [None] unchecked to [Compound],
    where [order | None] raises [TypeError]: the infeasible outcome is
    raised, not passed back to the caller as a null result. *)
Lemma infeasible_adduct_no_compound :
  exists c, Compound_new sample_db (sdict [("C", 5); ("H", 8); ("O", 2)]) = Ok c /\
            modify_formula_dict (ec_dict (element_count c)) "[M+H-NH4]" = Ok None /\
            get_updated_compound sample_db c "[M+H-NH4]" = Err TypeError.
Proof.
  eexists. split; [vm_compute; reflexivity|]. split; vm_compute; reflexivity.
Qed.

(* ================================================================== *)
(** * Further properties of the code *)

(* ------------------------------------------------------------------ *)
(** ** Element-count dictionaries *)

Lemma pykey_eqb_str k s : pykey_eqb k (KStr s) = String.eqb (key_symbol k) s.
Proof. destruct k; reflexivity. Qed.

Lemma dget_dset_str d a b w :
  dget (dset d (KStr a) w) (KStr b) = if String.eqb a b then Some w else dget d (KStr b).
Proof.
  unfold dget, dset. induction d as [|[k0 v0] t IH]; [reflexivity|].
  cbn [aset]. rewrite pykey_eqb_str. destruct (String.eqb (key_symbol k0) a) eqn:E0; cbn [aget].
  - rewrite pykey_eqb_str. apply String.eqb_eq in E0. rewrite E0. destruct (String.eqb a b); reflexivity.
  - rewrite pykey_eqb_str. destruct (String.eqb (key_symbol k0) b) eqn:E1.
    + destruct (String.eqb a b) eqn:E2; [|reflexivity].
      apply String.eqb_eq in E1, E2. subst. rewrite String.eqb_refl in E0. discriminate.
    + exact IH.
Qed.

Lemma dget0_dset_str d a b w :
  dget0 (dset d (KStr a) w) (KStr b) = if String.eqb a b then w else dget0 d (KStr b).
Proof.
  unfold dget0, aget0. change (aget pykey_eqb) with dget. rewrite dget_dset_str.
  destruct (String.eqb a b); reflexivity.
Qed.

Lemma sdict_str_keys L : str_keys (sdict L).
Proof.
  unfold str_keys, sdict. induction L as [|kv t IH]; constructor; [|exact IH].
  exists (fst kv). reflexivity.
Qed.

Lemma aggregate_get d1 d2 k : str_keys d1 ->
  dget0 (aggregate_dict_values d1 d2) (KStr k) = dget0 d2 (KStr k) + key_sum d1 k.
Proof.
  revert d2. induction d1 as [|[k1 v1] t IH]; intros d2 H; [simpl; lia|].
  inversion H as [|? ? [s Hs] Ht]; subst. simpl in Hs. subst k1.
  change (aggregate_dict_values ((KStr s, v1) :: t) d2)
    with (aggregate_dict_values t (dset d2 (KStr s) (dget0 d2 (KStr s) + v1))).
  rewrite (IH _ Ht), dget0_dset_str. simpl.
  destruct (String.eqb s k) eqn:E; [apply String.eqb_eq in E; subst|]; lia.
Qed.

(** X1.  [aggregate_dict_values(dict1, dict2)] adds the counts up: when
    the keys of [dict1] are strings, the count the result holds under a
    symbol is the count [dict2] held under it (0 if none) plus every count
    [dict1] lists under that symbol. *)
Theorem aggregate_dict_values_counts (d1 d2 : dict) (k : string) :
  str_keys d1 -> dget0 (aggregate_dict_values d1 d2) (KStr k) = dget0 d2 (KStr k) + key_sum d1 k.
Proof. apply aggregate_get. Qed.

Lemma aggregate_dict_values_counts_witness :
  str_keys (sdict [("H", 1); ("O", 1); ("H", 2)]) /\
  dget0 (aggregate_dict_values (sdict [("H", 1); ("O", 1); ("H", 2)]) (sdict [("H", 5)])) (KStr "H")
  = dget0 (sdict [("H", 5)]) (KStr "H") + key_sum (sdict [("H", 1); ("O", 1); ("H", 2)]) "H".
Proof.
  split; [apply sdict_str_keys|]. apply aggregate_dict_values_counts. apply sdict_str_keys.
Defined.

Lemma upper_runs_shape s :
  str_forallb (fun c => negb (is_upper c)) (fst (upper_runs s)) = true /\
  Forall (fun x => exists c pre, x = String c pre /\ is_upper c = true /\
                                 str_forallb (fun c => negb (is_upper c)) pre = true)
         (snd (upper_runs s)).
Proof.
  induction s as [|c r IH]; simpl; [split; [reflexivity | constructor]|].
  destruct (upper_runs r) as [pre l]. simpl in IH. destruct IH as [Hp Hl].
  destruct (is_upper c) eqn:E; simpl.
  - split; [reflexivity|]. constructor; [exists c, pre; auto | exact Hl].
  - rewrite E, Hp. split; [reflexivity | exact Hl].
Qed.

Lemma filter_alpha_lower s :
  str_forallb (fun c => negb (is_upper c)) s = true -> str_forallb is_lower (str_filter is_alpha s) = true.
Proof.
  induction s as [|c r IH]; simpl; [reflexivity|]. intros H. apply andb_true_iff in H as [H1 H2].
  unfold is_alpha. destruct (is_upper c); [discriminate|]. simpl.
  destruct (is_lower c) eqn:E; simpl; [rewrite E|]; auto.
Qed.

Lemma elem_count_str_keys elem m : str_keys (elem_count elem m).
Proof. constructor; [eexists; reflexivity | constructor]. Qed.

Lemma aggregate_elem_count_keys elem m acc :
  (exists c pre, elem = String c pre /\ is_upper c = true /\
                 str_forallb (fun c => negb (is_upper c)) pre = true) ->
  Forall (fun kv => exists s, fst kv = KStr s /\ capitalised s = true) acc ->
  Forall (fun kv => exists s, fst kv = KStr s /\ capitalised s = true)
         (aggregate_dict_values (elem_count elem m) acc).
Proof.
  intros [c [pre [-> [Hc Hp]]]] Hacc. unfold aggregate_dict_values, elem_count. simpl.
  apply aset_Forall; [exact Hacc | | ].
  - intros k0 v0 Hin. rewrite Forall_forall in Hacc. exact (Hacc _ Hin).
  - simpl. unfold is_alpha at 1. rewrite Hc. simpl. eexists; split; [reflexivity|].
    simpl. rewrite Hc. apply filter_alpha_lower. exact Hp.
Qed.

Lemma get_element_count_keys f :
  Forall (fun kv => exists s, fst kv = KStr s /\ capitalised s = true) (get_element_count f).
Proof.
  unfold get_element_count. destruct (span is_digit f) as [ds rest].
  destruct (String.eqb ds ""); cbv beta iota zeta;
  (apply fold_left_inv; [|constructor]); intros acc sd _ Hacc;
  (apply fold_left_inv; [|exact Hacc]); intros acc2 elem Hin Hacc2;
  (apply aggregate_elem_count_keys; [|exact Hacc2]);
  pose proof (proj2 (upper_runs_shape (fst sd))) as Hs; rewrite Forall_forall in Hs; exact (Hs _ Hin).
Qed.

(** X2.  Every entry of [get_element_count(formula)] is keyed by a capital
    followed by small letters (the digits and other characters of the
    matched text are dropped) and holds a non-negative count. *)
Theorem get_element_count_entries (f : string) :
  Forall (fun kv => exists s, fst kv = KStr s /\ capitalised s = true /\ 0 <= snd kv)
         (get_element_count f).
Proof.
  pose proof (get_element_count_keys f) as Hk. pose proof (get_element_count_nonneg f) as Hn.
  unfold nonneg_dict in Hn. rewrite Forall_forall in *. intros kv Hkv.
  destruct (Hk kv Hkv) as [s [Hs Hc]]. exists s. split; [exact Hs|]. split; [exact Hc|]. exact (Hn kv Hkv).
Qed.

Lemma key_sum_elem_count elem x m k :
  key_sum (elem_count elem (x * m)) k = m * key_sum (elem_count elem x) k.
Proof.
  unfold elem_count, key_sum. simpl.
  destruct (String.eqb (str_filter is_alpha elem) k); destruct (String.eqb (str_filter is_digit elem) ""); ring.
Qed.

Lemma get_elems m x E acc k :
  dget0 (fold_left (fun acc2 elem => aggregate_dict_values (elem_count elem (x * m)) acc2) E acc) (KStr k)
  = dget0 acc (KStr k) + m * fold_right (fun elem t2 => key_sum (elem_count elem x) k + t2) 0 E.
Proof.
  revert acc. induction E as [|elem t IH]; intros acc; cbn [fold_left fold_right]; [ring|].
  rewrite IH, aggregate_get by apply elem_count_str_keys. rewrite key_sum_elem_count. ring.
Qed.

Lemma get_groups m L acc k :
  dget0 (fold_left (fun acc sd => fold_left (fun acc2 elem => aggregate_dict_values
                                               (elem_count elem (snd sd * m)) acc2)
                                            (snd (upper_runs (fst sd))) acc) L acc) (KStr k)
  = dget0 acc (KStr k) + m * groups_total L k.
Proof.
  unfold groups_total. revert acc.
  induction L as [|sd t IH]; intros acc; cbn [fold_left fold_right]; [ring|].
  rewrite IH, get_elems. ring.
Qed.

Lemma span_digits_app a f :
  str_forallb is_digit a = true ->
  match f with String c _ => is_digit c = false | EmptyString => True end ->
  span is_digit (a ++ f) = (a, f).
Proof.
  intros Ha Hf. induction a as [|c r IH]; simpl.
  - destruct f as [|c r]; simpl; [reflexivity|]. rewrite Hf. reflexivity.
  - simpl in Ha. apply andb_true_iff in Ha as [H1 H2]. rewrite H1, IH by exact H2. reflexivity.
Qed.

Lemma digits_value_str_Z n : 0 < n -> digits_value (str_Z n) = n.
Proof.
  intros Hn. destruct n as [|p|p]; try lia.
  pose proof (DecimalZ.of_to (Zpos p)) as Hof. unfold str_Z. simpl in *.
  rewrite digits_value_str_uint. exact Hof.
Qed.

(** X3.  A leading count multiplies [get_element_count]: for a formula
    that does not start with a digit and has no newline, every count of
    [get_element_count(str(n) + formula)] is [n] times the count of
    [get_element_count(formula)] ([2DMSO] counts twice the atoms of
    [DMSO]). *)
Theorem get_element_count_multiplier (n : Z) (f k : string) :
  0 < n ->
  str_forallb (fun c => negb (Ascii.eqb c newline)) f = true ->
  match f with String c _ => is_digit c = false | EmptyString => True end ->
  dget0 (get_element_count (str_Z n ++ f)) (KStr k) = n * dget0 (get_element_count f) (KStr k).
Proof.
  intros Hn Hnl Hhd. destruct (str_Z_pos n Hn) as [Hne [Hd _]].
  unfold get_element_count. rewrite (span_digits_app (str_Z n) f Hd Hhd).
  rewrite (span_digits_app "" f eq_refl Hhd : span is_digit f = ("", f)). cbv beta iota.
  destruct (String.eqb (str_Z n) "") eqn:E; [apply String.eqb_eq in E; contradiction|].
  change (String.eqb "" "") with true. cbv beta iota zeta.
  rewrite digits_value_str_Z by exact Hn.
  replace (dot_star f) with f by (unfold dot_star; rewrite span_all by exact Hnl; reflexivity).
  rewrite !get_groups. replace (dget0 [] (KStr k)) with 0 by reflexivity. ring.
Qed.

Lemma get_element_count_multiplier_witness :
  0 < 2 /\ str_forallb (fun c => negb (Ascii.eqb c newline)) "DMSO" = true /\
  dget0 (get_element_count (str_Z 2 ++ "DMSO")) (KStr "H") = 2 * dget0 (get_element_count "DMSO") (KStr "H").
Proof.
  split; [lia|]. split; [reflexivity|].
  apply get_element_count_multiplier; [lia | reflexivity | reflexivity].
Defined.

Lemma count_str_parse v :
  1 <= v -> (if String.eqb (count_str v) "" then Ok 1 else py_int (count_str v)) = Ok v.
Proof.
  intros Hv. unfold count_str. destruct (v =? 1) eqn:E1; [apply Z.eqb_eq in E1; subst; reflexivity|].
  apply Z.eqb_neq in E1. destruct (str_Z_pos v) as [Hne [_ Hp]]; [lia|].
  destruct (String.eqb (str_Z v) "") eqn:E; [apply String.eqb_eq in E; contradiction|]. exact Hp.
Qed.

Lemma build_str_dict_last L acc :
  Forall (fun kv => 1 <= snd kv) L ->
  build_str_dict (map (fun kv => (fst kv, count_str (snd kv))) L) acc =
  Ok (fold_left (fun d kv => dset d (KStr (fst kv)) (snd kv)) L acc).
Proof.
  revert acc. induction L as [|[k v] t IH]; intros acc H; [reflexivity|].
  inversion H as [|? ? Hv Ht]; subst. simpl in Hv. simpl. rewrite (count_str_parse v Hv). simpl.
  apply IH. exact Ht.
Qed.

Lemma dget_fold_dset L acc k :
  dget (fold_left (fun d kv => dset d (KStr (fst kv)) (snd kv)) L acc) (KStr k) =
  fold_left (fun o kv => if String.eqb (fst kv) k then Some (snd kv) else o) L (dget acc (KStr k)).
Proof.
  revert acc. induction L as [|[a v] t IH]; intros acc; simpl; [reflexivity|].
  rewrite IH, dget_dset_str. reflexivity.
Qed.

(** X4.  [str_to_dict] does not add up repeated symbols: on a formula
    written as symbols with counts, the count it gives a symbol is the
    count of the symbol's last occurrence ([CH3CH3] reads as [CH3]). *)
Theorem str_to_dict_last_count (L : list (string * Z)) :
  Forall (fun kv => element_symbol_ok (fst kv) = true /\ 1 <= snd kv) L ->
  exists d, str_to_dict (render_pairs L) = Ok d /\ forall k, dget d (KStr k) = last_value L k.
Proof.
  intros H. unfold str_to_dict.
  rewrite strip_charge_no_sign by (apply render_pairs_no_sign; exact H).
  rewrite split_sym_render by exact H. rewrite pairs_flat.
  rewrite build_str_dict_last by (eapply Forall_impl; [|exact H]; intros kv [_ Hv]; exact Hv).
  eexists; split; [reflexivity|]. intros k. rewrite dget_fold_dset. reflexivity.
Qed.

Lemma str_to_dict_last_count_witness :
  Forall (fun kv => element_symbol_ok (fst kv) = true /\ 1 <= snd kv) [("C", 1); ("H", 3); ("C", 1); ("H", 3)] /\
  exists d, str_to_dict "CH3CH3" = Ok d /\ dget d (KStr "C") = Some 1 /\ dget d (KStr "H") = Some 3.
Proof.
  assert (H0 : Forall (fun kv => element_symbol_ok (fst kv) = true /\ 1 <= snd kv)
                      [("C", 1); ("H", 3); ("C", 1); ("H", 3)]).
  { repeat constructor; simpl; lia. }
  split; [exact H0|].
  destruct (str_to_dict_last_count _ H0) as [d [Hd Hl]]. exists d.
  split; [exact Hd|]. split; rewrite Hl; reflexivity.
Defined.

(* ------------------------------------------------------------------ *)
(** ** Decoy masses and database lookups *)

Lemma is_sign_cases c : is_sign c = true -> c = "+"%char \/ c = "-"%char.
Proof.
  unfold is_sign. intros H. apply orb_true_iff in H as [H|H]; apply Ascii.eqb_eq in H; auto.
Qed.

Lemma get_decoy_info_signed sg r :
  is_sign sg = true ->
  get_decoy_info (String sg r) =
    Ok (dot_star (snd (span is_digit r)),
        (if String.eqb (fst (span is_digit r)) "" then 1 else digits_value (fst (span is_digit r))),
        signed_count (String sg "") 1).
Proof.
  intros Hs. unfold get_decoy_info, decoy_match. rewrite Hs.
  destruct (span is_digit r) as [ds rest] eqn:Esp. simpl fst; simpl snd.
  assert (Hsg : py_int (String sg "1") = Ok (signed_count (String sg "") 1)).
  { destruct (is_sign_cases sg Hs); subst; reflexivity. }
  pose proof (span_fst is_digit r) as Hd. rewrite Esp in Hd. simpl in Hd.
  cbn [bind]. rewrite Hsg. cbn [bind].
  destruct ds as [|c0 r0]; [reflexivity|].
  rewrite py_int_digits by (discriminate || exact Hd). reflexivity.
Qed.

(** X5.  [IsotopeDB.get_mass_update] raises [ValueError] exactly for the
    decoys that do not start with a sign; a decoy that starts with one
    either gives a mass or fails in the database lookup. *)
Theorem get_mass_update_value_error (db : isotope_db) (d : string) :
  get_mass_update db d = Err ValueError <->
  match d with String c _ => is_sign c = false | EmptyString => True end.
Proof.
  split.
  - destruct d as [|c r]; [trivial|]. destruct (is_sign c) eqn:Hs; [|reflexivity].
    unfold get_mass_update. rewrite (get_decoy_info_signed c r Hs). cbn [bind].
    destruct (db_getitem_str db _) as [e|err] eqn:Ed; cbn [bind].
    + destruct (monoisotope e) as [m|err] eqn:Em; cbn [bind]; [discriminate|].
      intros E. inversion E; subst. unfold monoisotope in Em.
      destruct (rev (iso_sorted (el_isotopes e))); discriminate.
    + apply db_getitem_str_err in Ed. intros E. inversion E; subst. discriminate.
  - destruct d as [|c r]; intros H; unfold get_mass_update, get_decoy_info; simpl;
      [reflexivity|]. rewrite H. reflexivity.
Qed.

(** X6.  A well-formed decoy [sign, count, symbol] gets the monoisotopic
    mass of the database entry of the symbol times the signed count: for a
    sign [sg], a count [n >= 1] written as the formula writes it (nothing
    for 1) and a symbol [s] that does not start with a digit or contain a
    newline, [get_mass_update] agrees with the lookup of [s] followed by
    the product, including the [KeyError] of a symbol the database lacks. *)
Theorem get_mass_update_decoy (db : isotope_db) (sg : ascii) (n : Z) (s : string) :
  is_sign sg = true -> 1 <= n ->
  str_forallb (fun c => negb (Ascii.eqb c newline)) s = true ->
  match s with String c _ => is_digit c = false | EmptyString => True end ->
  res_Qeq (get_mass_update db (String sg (count_str n ++ s)))
          (let* e := db_getitem_str db s in
           let* m := monoisotope e in
           Ok (iso_mass m * inject_Z (signed_count (String sg "") n))%Q).
Proof.
  intros Hs Hn Hnl Hhd. unfold get_mass_update. rewrite (get_decoy_info_signed sg _ Hs).
  rewrite (span_digits_app (count_str n) s (count_str_digits n Hn) Hhd). simpl fst; simpl snd.
  replace (dot_star s) with s by (unfold dot_star; rewrite span_all by exact Hnl; reflexivity).
  assert (Hm : (if String.eqb (count_str n) "" then 1 else digits_value (count_str n)) = n).
  { unfold count_str. destruct (n =? 1) eqn:E1; [apply Z.eqb_eq in E1; subst; reflexivity|].
    apply Z.eqb_neq in E1. destruct (str_Z_pos n) as [Hne _]; [lia|].
    destruct (String.eqb (str_Z n) "") eqn:E; [apply String.eqb_eq in E; contradiction|].
    apply digits_value_str_Z. lia. }
  rewrite Hm. cbn [bind].
  destruct (db_getitem_str db s) as [e|err]; cbn [bind res_Qeq]; [|reflexivity].
  destruct (monoisotope e) as [m|err]; cbn [bind res_Qeq]; [|reflexivity].
  unfold signed_count. destruct (String.eqb (String sg "") "-").
  - rewrite !inject_Z_opp. ring.
  - ring.
Qed.

Lemma get_mass_update_decoy_witness :
  is_sign "-" = true /\ 1 <= 2 /\
  res_Qeq (get_mass_update sample_db "-2H")
          (let* e := db_getitem_str sample_db "H" in
           let* m := monoisotope e in
           Ok (iso_mass m * inject_Z (signed_count "-" 2))%Q).
Proof.
  split; [reflexivity|]. split; [lia|].
  exact (get_mass_update_decoy sample_db "-" 2 "H" eq_refl ltac:(lia) eq_refl eq_refl).
Defined.

(** Neither an element's symbol nor one of its isotopes' symbols is [s]. *)
Lemma db_getitem_str_spec db s :
  (db_getitem_str db s = Err KeyError <->
     forall e, In e db -> el_symbol e <> s /\ ~ In s (map iso_symbol (el_isotopes e))) /\
  (forall e, db_getitem_str db s = Ok e ->
     exists pre post, db = (pre ++ e :: post)%list /\
       (el_symbol e = s \/ In s (map iso_symbol (el_isotopes e))) /\
       forall e', In e' pre -> el_symbol e' <> s /\ ~ In s (map iso_symbol (el_isotopes e'))).
Proof.
  assert (Hx : forall e, (String.eqb (el_symbol e) s
                          || existsb (fun i => String.eqb (iso_symbol i) s) (el_isotopes e)) = true
                         <-> el_symbol e = s \/ In s (map iso_symbol (el_isotopes e))).
  { intros e. rewrite orb_true_iff, String.eqb_eq, existsb_exists, in_map_iff.
    split; intros [H|[x [H1 H2]]]; auto; right; exists x; split; auto;
      [apply String.eqb_eq in H2 | apply String.eqb_eq]; auto. }
  induction db as [|e t [IH1 IH2]]; simpl.
  - split; [split; [intros _ e []|reflexivity]|]. intros e H. discriminate.
  - destruct (String.eqb (el_symbol e) s || existsb (fun i => String.eqb (iso_symbol i) s) (el_isotopes e))
      eqn:E.
    + apply Hx in E. split.
      * split; [discriminate|]. intros H. destruct (H e (or_introl eq_refl)) as [H1 H2].
        destruct E; contradiction.
      * intros e' H. inversion H; subst. exists [], t. split; [reflexivity|]. split; [exact E|].
        intros _ [].
    + assert (Hn : el_symbol e <> s /\ ~ In s (map iso_symbol (el_isotopes e))).
      { split; intros H; [assert (Hc : el_symbol e = s \/ In s (map iso_symbol (el_isotopes e)))
          by (left; exact H) | assert (Hc : el_symbol e = s \/ In s (map iso_symbol (el_isotopes e)))
          by (right; exact H)]; apply Hx in Hc; congruence. }
      split.
      * rewrite IH1. split; [intros H e' [<-|He']; [exact Hn | exact (H e' He')]|].
        intros H e' He'. apply H. right. exact He'.
      * intros e' H. destruct (IH2 e' H) as [pre [post [Ht [Hs Hpre]]]].
        exists (e :: pre), post. split; [rewrite Ht; reflexivity|]. split; [exact Hs|].
        intros e'' [<-|He'']; [exact Hn | exact (Hpre e'' He'')].
Qed.

(** X7.  [IsotopeDB.__getitem__] with a string raises [KeyError] exactly
    when no element has that symbol or an isotope of that symbol;
    otherwise it returns the first such element of [self.elements]. *)
Theorem IsotopeDB_getitem_str (db : isotope_db) (s : string) :
  (db_getitem_str db s = Err KeyError <->
     forall e, In e db -> el_symbol e <> s /\ ~ In s (map iso_symbol (el_isotopes e))) /\
  (forall e, db_getitem_str db s = Ok e ->
     exists pre post, db = (pre ++ e :: post)%list /\
       (el_symbol e = s \/ In s (map iso_symbol (el_isotopes e))) /\
       forall e', In e' pre -> el_symbol e' <> s /\ ~ In s (map iso_symbol (el_isotopes e'))).
Proof. apply db_getitem_str_spec. Qed.

Lemma kget_kset_str {V} (d : list (string * V)) a b v :
  kget String.eqb (kset String.eqb d a v) b = if String.eqb a b then Some v else kget String.eqb d b.
Proof.
  induction d as [|[k0 v0] t IH]; simpl; [reflexivity|].
  destruct (String.eqb k0 a) eqn:E0; simpl.
  - apply String.eqb_eq in E0. subst. destruct (String.eqb a b); reflexivity.
  - destruct (String.eqb k0 b) eqn:E1; [|exact IH].
    destruct (String.eqb a b) eqn:E2; [|reflexivity].
    apply String.eqb_eq in E1, E2. subst. rewrite String.eqb_refl in E0. discriminate.
Qed.

Lemma kget_isotope_fold l acc s :
  kget String.eqb (fold_left (fun acc i => kset String.eqb acc (iso_symbol i) i) l acc) s =
  fold_left (fun o i => if String.eqb (iso_symbol i) s then Some i else o) l (kget String.eqb acc s).
Proof.
  revert acc. induction l as [|i t IH]; intros acc; simpl; [reflexivity|].
  rewrite IH, kget_kset_str. reflexivity.
Qed.

Lemma last_iso_absent l s o :
  ~ In s (map iso_symbol l) ->
  fold_left (fun o i => if String.eqb (iso_symbol i) s then Some i else o) l o = o.
Proof.
  revert o. induction l as [|i t IH]; intros o H; simpl; [reflexivity|].
  simpl in H. destruct (String.eqb (iso_symbol i) s) eqn:E; [apply String.eqb_eq in E; tauto|].
  apply IH. tauto.
Qed.

Lemma last_iso_unique l s i o :
  NoDup (map iso_symbol l) -> In i l -> iso_symbol i = s ->
  fold_left (fun o i => if String.eqb (iso_symbol i) s then Some i else o) l o = Some i.
Proof.
  revert o. induction l as [|j t IH]; intros o Hnd Hin Hs; [destruct Hin|].
  simpl in Hnd. inversion Hnd as [|? ? Hj Hnd']; subst. simpl.
  destruct Hin as [<-|Hin].
  - rewrite String.eqb_refl. apply last_iso_absent. exact Hj.
  - apply IH; auto.
Qed.

(** X8.  [Element.__getitem__] with the symbol of one of the element's
    isotopes returns that isotope, and with a symbol that is neither the
    element's nor an isotope's raises [KeyError] (when the isotope symbols
    are distinct). *)
Theorem element_getitem_isotope (e : element) (s : string) :
  NoDup (map iso_symbol (el_isotopes e)) -> s <> el_symbol e ->
  (forall i, In i (el_isotopes e) -> iso_symbol i = s -> element_getitem e s = Ok i) /\
  (~ In s (map iso_symbol (el_isotopes e)) -> element_getitem e s = Err KeyError).
Proof.
  intros Hnd Hs. unfold element_getitem, isotope_lookup.
  destruct (String.eqb s (el_symbol e)) eqn:E; [apply String.eqb_eq in E; contradiction|].
  rewrite kget_isotope_fold. simpl kget. split.
  - intros i Hi Hsym. rewrite (last_iso_unique _ s i None Hnd Hi Hsym). reflexivity.
  - intros Hn. rewrite last_iso_absent by exact Hn. reflexivity.
Qed.

Lemma element_getitem_isotope_witness :
  NoDup (map iso_symbol (el_isotopes el_Fe)) /\ "57Fe" <> el_symbol el_Fe /\
  element_getitem el_Fe "57Fe" = Ok (iso "57Fe" 56.9353940 0.02119) /\
  element_getitem el_Fe "59Fe" = Err KeyError.
Proof.
  assert (Hnd : NoDup (map iso_symbol (el_isotopes el_Fe))).
  { simpl. repeat constructor; simpl; intuition discriminate. }
  split; [exact Hnd|]. split; [discriminate|]. split.
  - apply (proj1 (element_getitem_isotope el_Fe "57Fe" Hnd ltac:(discriminate))).
    + simpl. right; right; left; reflexivity.
    + reflexivity.
  - apply (proj2 (element_getitem_isotope el_Fe "59Fe" Hnd ltac:(discriminate))).
    simpl. intuition discriminate.
Defined.

(* ------------------------------------------------------------------ *)
(** ** [Element.monoisotope] *)

Lemma iso_insert_hd y x l : abund_le y x -> HdRel abund_le y l -> HdRel abund_le y (iso_insert x l).
Proof.
  intros Hyx Hl. destruct l as [|z t]; simpl; [constructor; exact Hyx|].
  destruct (iso_lt x z); constructor; [exact Hyx|]. inversion Hl; assumption.
Qed.

Lemma iso_lt_false a b : iso_lt a b = false -> abund_le b a.
Proof.
  unfold iso_lt, Qlt_bool, abund_le. intros H. apply negb_false_iff in H. apply Qle_bool_iff. exact H.
Qed.

Lemma iso_lt_true a b : iso_lt a b = true -> abund_le a b.
Proof.
  unfold iso_lt, Qlt_bool, abund_le. intros H. apply negb_true_iff in H.
  apply Qlt_le_weak. apply Qnot_le_lt. intros H'. apply Qle_bool_iff in H'. congruence.
Qed.

Lemma iso_insert_sorted x l : Sorted abund_le l -> Sorted abund_le (iso_insert x l).
Proof.
  induction 1 as [|y t Ht IH Hhd]; simpl; [repeat constructor|].
  destruct (iso_lt x y) eqn:E.
  - constructor; [constructor; assumption | constructor; apply iso_lt_true; exact E].
  - constructor; [exact IH|]. apply iso_insert_hd; [apply iso_lt_false; exact E | exact Hhd].
Qed.

Lemma iso_insert_perm x l : Permutation (iso_insert x l) (x :: l).
Proof.
  induction l as [|y t IH]; simpl; [reflexivity|]. destruct (iso_lt x y); [reflexivity|].
  rewrite IH. apply perm_swap.
Qed.

Lemma iso_sorted_sorted l : Sorted abund_le (iso_sorted l).
Proof.
  unfold iso_sorted. apply fold_left_inv; [|constructor]. intros acc x _ H. apply iso_insert_sorted. exact H.
Qed.

Lemma iso_sorted_perm l : Permutation (iso_sorted l) l.
Proof.
  unfold iso_sorted. rewrite <- (app_nil_r l) at 2. generalize (@nil isotope) as acc.
  induction l as [|x t IH]; intros acc; simpl; [reflexivity|].
  rewrite IH, iso_insert_perm. apply Permutation_sym, Permutation_middle.
Qed.

Lemma monoisotope_split e m :
  monoisotope e = Ok m -> iso_sorted (el_isotopes e) = (other_isotopes e ++ [m])%list.
Proof.
  unfold monoisotope, other_isotopes. destruct (rev (iso_sorted (el_isotopes e))) as [|x t] eqn:E;
    intros H; inversion H; subst.
  rewrite <- (rev_involutive (iso_sorted (el_isotopes e))), E. simpl. rewrite removelast_last.
  reflexivity.
Qed.

Lemma abund_le_trans a b c : abund_le a b -> abund_le b c -> abund_le a c.
Proof. unfold abund_le. apply Qle_trans. Qed.

Lemma strongly_sorted_last l m : StronglySorted abund_le (l ++ [m])%list -> forall i, In i l -> abund_le i m.
Proof.
  induction l as [|a t IH]; simpl; intros H i Hi; [destruct Hi|].
  inversion H as [|? ? H1 H2]; subst. destruct Hi as [<-|Hi].
  - rewrite Forall_forall in H2. apply H2. apply in_or_app. right. left. reflexivity.
  - apply IH; assumption.
Qed.

(** X9.  [Element.monoisotope] is an isotope of the element with the
    largest abundance, and [other_isotopes] followed by [monoisotope]
    lists every isotope once, in ascending order of abundance. *)
Theorem monoisotope_most_abundant (e : element) (m : isotope) :
  monoisotope e = Ok m ->
  In m (el_isotopes e) /\ (forall i, In i (el_isotopes e) -> (iso_abund i <= iso_abund m)%Q) /\
  Permutation (other_isotopes e ++ [m])%list (el_isotopes e) /\
  Sorted abund_le (other_isotopes e ++ [m])%list.
Proof.
  intros H. pose proof (monoisotope_split e m H) as Hs.
  pose proof (iso_sorted_perm (el_isotopes e)) as Hp. pose proof (iso_sorted_sorted (el_isotopes e)) as Hso.
  rewrite Hs in Hp, Hso.
  assert (Hin : forall i, In i (el_isotopes e) -> i = m \/ In i (other_isotopes e)).
  { intros i Hi. apply (Permutation_in _ (Permutation_sym Hp)) in Hi. apply in_app_or in Hi.
    destruct Hi as [Hi|[<-|[]]]; auto. }
  split; [apply (Permutation_in _ Hp); apply in_or_app; right; left; reflexivity|].
  split; [|split; [exact Hp | exact Hso]].
  intros i Hi. destruct (Hin i Hi) as [->|Ho]; [apply Qle_refl|].
  apply (strongly_sorted_last (other_isotopes e)); [|exact Ho].
  apply Sorted_StronglySorted; [exact abund_le_trans | exact Hso].
Qed.

Lemma monoisotope_most_abundant_witness :
  monoisotope el_Fe = Ok (iso "56Fe" 55.9349375 0.91754) /\
  forall i, In i (el_isotopes el_Fe) -> (iso_abund i <= 0.91754)%Q.
Proof.
  assert (H : monoisotope el_Fe = Ok (iso "56Fe" 55.9349375 0.91754)) by (vm_compute; reflexivity).
  split; [exact H|]. exact (proj1 (proj2 (monoisotope_most_abundant _ _ H))).
Defined.

Lemma monoisotope_ok_nonempty e : el_isotopes e <> [] -> exists m, monoisotope e = Ok m.
Proof.
  intros Hne. unfold monoisotope. destruct (rev (iso_sorted (el_isotopes e))) as [|x t] eqn:E; [|eauto].
  exfalso. apply Hne. apply Permutation_nil. apply Permutation_sym.
  rewrite <- (iso_sorted_perm (el_isotopes e)), <- (rev_involutive (iso_sorted _)), E. reflexivity.
Qed.

(** X10.  When no two isotopes of an element have equal abundances,
    [Element.monoisotope] does not depend on the iteration order of the
    isotope set; with an empty set it raises [IndexError] in any order. *)
Theorem monoisotope_order_independent (s : string) (l1 l2 : list isotope) :
  Permutation l1 l2 ->
  (forall i j, In i l1 -> In j l1 -> (iso_abund i == iso_abund j)%Q -> i = j) ->
  monoisotope (mkElement s l1) = monoisotope (mkElement s l2).
Proof.
  intros Hp Hinj. destruct l1 as [|x t] eqn:E1.
  - apply Permutation_nil in Hp. subst. reflexivity.
  - rewrite <- E1 in *.
    destruct (monoisotope_ok_nonempty (mkElement s l1)) as [m1 H1]; [simpl; rewrite E1; discriminate|].
    destruct (monoisotope_ok_nonempty (mkElement s l2)) as [m2 H2].
    { simpl. intros E. subst l2. apply Permutation_sym, Permutation_nil in Hp. rewrite Hp in E1. discriminate. }
    rewrite H1, H2. f_equal.
    destruct (monoisotope_most_abundant _ _ H1) as [Hin1 [Hmax1 _]].
    destruct (monoisotope_most_abundant _ _ H2) as [Hin2 [Hmax2 _]]. simpl in *.
    apply Hinj; [exact Hin1 | apply (Permutation_in _ (Permutation_sym Hp)); exact Hin2|].
    apply Qle_antisym; [apply Hmax2; apply (Permutation_in _ Hp); exact Hin1|].
    apply Hmax1. apply (Permutation_in _ (Permutation_sym Hp)). exact Hin2.
Qed.

Lemma monoisotope_order_independent_witness :
  Permutation (el_isotopes el_Fe) (rev (el_isotopes el_Fe)) /\
  monoisotope el_Fe = monoisotope (mkElement "Fe" (rev (el_isotopes el_Fe))).
Proof.
  assert (Hp : Permutation (el_isotopes el_Fe) (rev (el_isotopes el_Fe))) by apply Permutation_rev.
  split; [exact Hp|]. apply (monoisotope_order_independent "Fe" _ _ Hp).
  intros i j Hi Hj Hq. simpl in Hi, Hj.
  repeat destruct Hi as [<-|Hi]; try destruct Hi; repeat destruct Hj as [<-|Hj]; try destruct Hj;
    try reflexivity; vm_compute in Hq; discriminate.
Defined.

(* ------------------------------------------------------------------ *)
(** ** [get_adducts] *)

Lemma span_cat p s : (fst (span p s) ++ snd (span p s))%string = s.
Proof.
  induction s as [|c r IH]; simpl; [reflexivity|]. destruct (p c); [|reflexivity].
  destruct (span p r) as [a b]. simpl in *. rewrite IH. reflexivity.
Qed.

Lemma sign_not_digit c : is_sign c = true -> is_digit c = false.
Proof. intros H. destruct (is_sign_cases c H); subst; reflexivity. Qed.

Lemma adduct_tail_spec r :
  adduct_tail r = true <->
  exists ds sg rest, r = (ds ++ String sg rest)%string /\ str_forallb is_digit ds = true /\ is_sign sg = true.
Proof.
  unfold adduct_tail. split.
  - intros H. pose proof (span_cat is_digit r) as Hc. pose proof (span_fst is_digit r) as Hd.
    destruct (span is_digit r) as [ds rs]. simpl in *. destruct rs as [|sg rest]; [discriminate|].
    exists ds, sg, rest. auto.
  - intros [ds [sg [rest [-> [Hd Hs]]]]].
    rewrite (span_digits_app ds (String sg rest) Hd (sign_not_digit sg Hs)). exact Hs.
Qed.

Lemma adduct_body_spec r :
  adduct_body r = true <->
  exists pre ds sg rest,
    r = (pre ++ String "]" (ds ++ String sg rest))%string /\
    str_forallb (fun ch => negb (Ascii.eqb ch newline)) pre = true /\
    str_forallb is_digit ds = true /\ is_sign sg = true.
Proof.
  split.
  - induction r as [|c t IH]; simpl; [discriminate|]. intros H. apply orb_true_iff in H as [H|H].
    + apply andb_true_iff in H as [H1 H2]. apply Ascii.eqb_eq in H1. subst.
      apply adduct_tail_spec in H2 as [ds [sg [rest [-> [Hd Hs]]]]]. exists "", ds, sg, rest. auto.
    + apply andb_true_iff in H as [H1 H2]. destruct (IH H2) as [pre [ds [sg [rest [-> [Hp [Hd Hs]]]]]]].
      exists (String c pre), ds, sg, rest. simpl. rewrite H1, Hp. auto.
  - intros [pre [ds [sg [rest [-> [Hp [Hd Hs]]]]]]]. induction pre as [|c p IH]; simpl.
    + replace (adduct_tail (ds ++ String sg rest)) with true
        by (symmetry; apply adduct_tail_spec; exists ds, sg, rest; auto). reflexivity.
    + simpl in Hp. apply andb_true_iff in Hp as [H1 H2]. rewrite H1, (IH H2).
      apply orb_true_iff. right. reflexivity.
Qed.

(** X11.  [get_adducts] keeps, in order, exactly the items that start
    with [M], [[], [+] or [-] and contain, before their first newline, a
    closing bracket followed by digits (possibly none) and a sign; the
    brackets need not pair up, and text may follow the sign. *)
Theorem get_adducts_spec (header : list string) (s : string) :
  In s (get_adducts header) <->
  In s header /\
  exists c pre ds sg rest,
    s = String c (pre ++ String "]" (ds ++ String sg rest)) /\
    (c = "M" \/ c = "[" \/ c = "+" \/ c = "-")%char /\
    str_forallb (fun ch => negb (Ascii.eqb ch newline)) pre = true /\
    str_forallb is_digit ds = true /\ is_sign sg = true.
Proof.
  unfold get_adducts. rewrite filter_In. apply and_iff_compat_l. unfold adduct_match. split.
  - destruct s as [|c r]; [discriminate|]. intros H. apply andb_true_iff in H as [Hh Hb].
    apply adduct_body_spec in Hb as [pre [ds [sg [rest [-> HH]]]]].
    exists c, pre, ds, sg, rest. split; [reflexivity|]. split; [|exact HH].
    unfold adduct_head, is_sign in Hh.
    destruct (Ascii.eqb_spec c "M"); [tauto|]. destruct (Ascii.eqb_spec c "["); [tauto|].
    destruct (Ascii.eqb_spec c "+"); [tauto|]. destruct (Ascii.eqb_spec c "-"); [tauto|discriminate].
  - intros [c [pre [ds [sg [rest [-> [Hc HH]]]]]]]. apply andb_true_iff. split.
    + destruct Hc as [ -> | [ -> | [ -> | -> ]]]; reflexivity.
    + apply adduct_body_spec. exists pre, ds, sg, rest. auto.
Qed.

(* ------------------------------------------------------------------ *)
(** ** [remove_noise] and [normalize_intensity] *)

Lemma Qmax2_ge a b : (a <= Qmax2 a b /\ b <= Qmax2 a b)%Q.
Proof.
  unfold Qmax2. destruct (Qle_bool a b) eqn:E.
  - apply Qle_bool_iff in E. split; [exact E | apply Qle_refl].
  - split; [apply Qle_refl|]. apply Qlt_le_weak, Qnot_le_lt. intros H. apply Qle_bool_iff in H. congruence.
Qed.

Lemma fold_Qmax_ge t a : (a <= fold_left Qmax2 t a)%Q /\ forall x, In x t -> (x <= fold_left Qmax2 t a)%Q.
Proof.
  revert a. induction t as [|y t IH]; intros a; simpl; [split; [apply Qle_refl | intros _ []]|].
  destruct (IH (Qmax2 a y)) as [H1 H2]. destruct (Qmax2_ge a y) as [Ha Hy].
  split; [apply (Qle_trans _ _ _ Ha H1)|].
  intros x [<-|Hx]; [apply (Qle_trans _ _ _ Hy H1) | exact (H2 x Hx)].
Qed.

Lemma fold_Qmax_in t a : In (fold_left Qmax2 t a) (a :: t).
Proof.
  revert a. induction t as [|y t IH]; intros a; simpl; [left; reflexivity|].
  destruct (IH (Qmax2 a y)) as [E|E]; [|right; right; exact E].
  assert (Hm : Qmax2 a y = y \/ Qmax2 a y = a) by (unfold Qmax2; destruct (Qle_bool a y); auto).
  destruct Hm as [Hm|Hm]; rewrite Hm in *; [right; left | left]; exact E.
Qed.

Lemma Qmax_list_ge l x : In x l -> (x <= Qmax_list l)%Q.
Proof.
  destruct l as [|a t]; [intros []|]. simpl. destruct (fold_Qmax_ge t a) as [H1 H2].
  intros [<-|Hx]; [exact H1 | exact (H2 x Hx)].
Qed.

Lemma Qmax_list_in l : l <> [] -> In (Qmax_list l) l.
Proof. destruct l as [|a t]; [congruence|]. intros _. apply fold_Qmax_in. Qed.

Lemma Qmax_list_eq l m : In m l -> (forall x, In x l -> x <= m)%Q -> (Qmax_list l == m)%Q.
Proof.
  intros Hm H. apply Qle_antisym.
  - apply H, Qmax_list_in. intros E. subst. destruct Hm.
  - apply Qmax_list_ge. exact Hm.
Qed.

Lemma Qle_bool_compat a a' b : (a == a')%Q -> Qle_bool a b = Qle_bool a' b.
Proof.
  intros E. destruct (Qle_bool a b) eqn:E1, (Qle_bool a' b) eqn:E2; try reflexivity.
  - apply Qle_bool_iff in E1. rewrite E in E1. apply Qle_bool_iff in E1. congruence.
  - apply Qle_bool_iff in E2. rewrite <- E in E2. apply Qle_bool_iff in E2. congruence.
Qed.

Lemma remove_noise_map sp n :
  sp <> [] -> remove_noise sp (Some n) = Ok (map (noise_keep (Qmax_list (map snd sp) * n)) sp).
Proof. destruct sp; [congruence|]. reflexivity. Qed.

(** X13.  With non-negative intensities and a noise fraction of at most
    1, [remove_noise] keeps the m/z column and the largest intensity, and
    applying it a second time changes nothing. *)
Theorem remove_noise_idempotent (spectra out : spectrum_rows) (n : Q) :
  Forall (fun p => 0 <= snd p)%Q spectra -> (n <= 1)%Q ->
  remove_noise spectra (Some n) = Ok out ->
  map fst out = map fst spectra /\ (Qmax_list (map snd out) == Qmax_list (map snd spectra))%Q /\
  remove_noise out (Some n) = Ok out.
Proof.
  intros Hnn Hn H.
  assert (Hne : spectra <> []) by (intros ->; discriminate).
  rewrite (remove_noise_map spectra n Hne) in H. injection H as <-.
  set (mx := Qmax_list (map snd spectra)).
  assert (Hmx0 : (0 <= mx)%Q).
  { destruct spectra as [|p0 t]; [congruence|]. inversion Hnn; subst.
    apply (Qle_trans _ (snd p0)); [assumption|]. apply Qmax_list_ge. left. reflexivity. }
  assert (Hthr : (mx * n <= mx)%Q).
  { rewrite (Qmult_comm mx n). apply (Qle_trans _ (1 * mx)); [apply Qmult_le_compat_r; assumption|].
    rewrite Qmult_1_l. apply Qle_refl. }
  assert (Hmne : map snd spectra <> []) by (destruct spectra; [congruence | discriminate]).
  assert (Hmax : (Qmax_list (map snd (map (noise_keep (mx * n)) spectra)) == mx)%Q).
  { apply Qmax_list_eq.
    - pose proof (Qmax_list_in _ Hmne) as Hi. apply in_map_iff in Hi as [p [Hp Hin]].
      apply in_map_iff. exists (noise_keep (mx * n) p). split; [|apply in_map; exact Hin].
      unfold noise_keep. simpl. fold mx in Hp. rewrite Hp.
      replace (Qle_bool (mx * n) mx) with true by (symmetry; apply Qle_bool_iff; exact Hthr).
      reflexivity.
    - intros w Hw. apply in_map_iff in Hw as [q [<- Hq]]. apply in_map_iff in Hq as [p [<- Hp]].
      unfold noise_keep. simpl. destruct (Qle_bool _ _); [|exact Hmx0].
      apply Qmax_list_ge, in_map. exact Hp. }
  split; [rewrite map_map; apply map_ext; reflexivity|]. split; [exact Hmax|].
  rewrite remove_noise_map by (destruct spectra; [congruence | discriminate]).
  f_equal. rewrite map_map. apply map_ext. intros p. unfold noise_keep. simpl.
  destruct (Qle_bool (mx * n) (snd p)) eqn:E; simpl.
  - rewrite (Qle_bool_compat _ (mx * n)), E; [reflexivity|]. rewrite Hmax. reflexivity.
  - destruct (Qle_bool _ 0); reflexivity.
Qed.

Lemma remove_noise_idempotent_witness :
  remove_noise [(100, 10); (101, 0.5); (102, 4)]%Q (Some 0.2%Q) = Ok [(100, 10); (101, 0); (102, 4)]%Q /\
  remove_noise [(100, 10); (101, 0); (102, 4)]%Q (Some 0.2%Q) = Ok [(100, 10); (101, 0); (102, 4)]%Q.
Proof.
  assert (H : remove_noise [(100, 10); (101, 0.5); (102, 4)]%Q (Some 0.2%Q)
              = Ok [(100, 10); (101, 0); (102, 4)]%Q) by reflexivity.
  split; [exact H|].
  refine (proj2 (proj2 (remove_noise_idempotent _ _ _ _ _ H))).
  - repeat constructor; vm_compute; intros E; discriminate E.
  - vm_compute; intros E; discriminate E.
Defined.

Lemma Qlt_bool_true a b : (a < b)%Q -> Qlt_bool a b = true.
Proof.
  intros H. unfold Qlt_bool. apply negb_true_iff. destruct (Qle_bool b a) eqn:E; [|reflexivity].
  apply Qle_bool_iff in E. exfalso. apply (Qlt_not_le _ _ H E).
Qed.

Lemma fold_Qplus_acc l a : (fold_left Qplus l a == a + fold_left Qplus l 0)%Q.
Proof.
  revert a. induction l as [|x t IH]; intros a; simpl; [ring|].
  rewrite (IH (a + x)%Q), (IH (0 + x)%Q). ring.
Qed.

Lemma fold_Qplus_div l S : ~ (S == 0)%Q ->
  (fold_left Qplus (map (fun v => v / S) l) 0 == fold_left Qplus l 0 / S)%Q.
Proof.
  intros HS. induction l as [|x t IH]; simpl; [field; exact HS|].
  rewrite (fold_Qplus_acc _ (0 + x / S)%Q), (fold_Qplus_acc t (0 + x)%Q), IH. field. exact HS.
Qed.

Lemma fold_Qplus_nonneg l : Forall (fun v => 0 <= v)%Q l -> (0 <= fold_left Qplus l 0)%Q.
Proof.
  induction 1 as [|y t Hy _ IH]; simpl; [apply Qle_refl|].
  rewrite fold_Qplus_acc. lra.
Qed.

Lemma fold_Qplus_ge l x : Forall (fun v => 0 <= v)%Q l -> In x l -> (x <= fold_left Qplus l 0)%Q.
Proof.
  induction 1 as [|y t Hy Ht IH]; [intros []|]. intros Hx. simpl. rewrite fold_Qplus_acc.
  pose proof (fold_Qplus_nonneg t Ht) as H0. destruct Hx as [<-|Hx].
  - lra.
  - pose proof (IH Hx). lra.
Qed.

(** X14.  [normalize_intensity] keeps the m/z column and returns the
    spectrum unchanged when the intensities do not have a positive sum
    (in particular for an empty spectrum); when they do, it divides every
    intensity by the same positive sum, so the order between any two
    intensities is kept, and non-negative intensities land in [0, 1]. *)
Theorem normalize_intensity_total (spectrum : spectrum_rows) :
  map fst (normalize_intensity spectrum) = map fst spectrum /\
  ((intensity_sum spectrum <= 0)%Q -> normalize_intensity spectrum = spectrum) /\
  ((0 < intensity_sum spectrum)%Q ->
   (forall i j a b a' b', nth_error spectrum i = Some a -> nth_error spectrum j = Some b ->
      nth_error (normalize_intensity spectrum) i = Some a' ->
      nth_error (normalize_intensity spectrum) j = Some b' ->
      (snd a <= snd b)%Q -> (snd a' <= snd b')%Q) /\
   (Forall (fun p => 0 <= snd p)%Q spectrum ->
      Forall (fun p => 0 <= snd p <= 1)%Q (normalize_intensity spectrum))).
Proof.
  unfold normalize_intensity. split; [|split].
  - destruct (_ && _); [rewrite map_map; reflexivity | reflexivity].
  - intros H. destruct (_ && _) eqn:E; [|reflexivity]. apply andb_true_iff in E as [_ E].
    unfold Qlt_bool in E. apply negb_true_iff in E. apply Qle_bool_iff in H. congruence.
  - intros H. destruct spectrum as [|p t] eqn:Es.
    + exfalso. apply (Qlt_irrefl 0). exact H.
    + rewrite <- Es in *. rewrite (Qlt_bool_true _ _ H).
      replace ((0 <? length spectrum)%nat) with true by (rewrite Es; reflexivity). cbn [andb].
      set (S := intensity_sum spectrum) in *.
      assert (HS : (0 <= / S)%Q) by (apply Qlt_le_weak, Qinv_lt_0_compat; exact H).
      split.
      * intros i j a b a' b' Ha Hb Ha' Hb' Hab.
        rewrite nth_error_map, Ha in Ha'. rewrite nth_error_map, Hb in Hb'.
        injection Ha' as <-. injection Hb' as <-. simpl.
        unfold Qdiv. apply Qmult_le_compat_r; [exact Hab | exact HS].
      * intros Hn. apply Forall_forall. intros q Hq. apply in_map_iff in Hq as [p' [<- Hp']]. simpl.
        pose proof (proj1 (Forall_forall _ _) Hn p' Hp') as H0. simpl in H0.
        assert (Hle : (snd p' <= S)%Q).
        { unfold S, intensity_sum. apply fold_Qplus_ge; [|apply in_map; exact Hp'].
          apply Forall_forall. intros v Hv. apply in_map_iff in Hv as [r [<- Hr]].
          exact (proj1 (Forall_forall _ _) Hn r Hr). }
        split.
        -- apply Qle_shift_div_l; [exact H|]. rewrite Qmult_0_l. exact H0.
        -- apply Qle_shift_div_r; [exact H|]. rewrite Qmult_1_l. exact Hle.
Qed.

(* ------------------------------------------------------------------ *)
(** ** Retention times of [Spectra] *)

Lemma existsb_valid u : existsb (String.eqb u) VALID_RT_UNITS = true <-> In u VALID_RT_UNITS.
Proof.
  rewrite existsb_exists. split.
  - intros [x [Hx E]]. apply String.eqb_eq in E. subst. exact Hx.
  - intros H. exists u. split; [exact H | apply String.eqb_refl].
Qed.

Lemma configure_invalid st t unit :
  ~ In unit VALID_RT_UNITS -> configure_retention_time st t unit = Err ValueError.
Proof.
  intros H. unfold configure_retention_time, configure_retention_time_unit.
  destruct (existsb _ _) eqn:E; [exfalso; apply H, existsb_valid, E | reflexivity].
Qed.

Lemma configure_valid_none t unit :
  In unit VALID_RT_UNITS -> configure_retention_time None t unit = Ok (Some unit, t).
Proof.
  intros H. unfold configure_retention_time, configure_retention_time_unit.
  rewrite (proj2 (existsb_valid unit) H). reflexivity.
Qed.

Lemma secs_seconds : secs_per_unit "seconds" = 1%Q.
Proof. reflexivity. Qed.
Lemma secs_minute : secs_per_unit "minute" = 60%Q.
Proof. reflexivity. Qed.
Lemma secs_hour : secs_per_unit "hour" = 3600%Q.
Proof. reflexivity. Qed.

Lemma configure_valid_some u t unit :
  In u VALID_RT_UNITS -> In unit VALID_RT_UNITS ->
  exists q, configure_retention_time (Some u) t unit = Ok (Some u, q) /\
            (q * secs_per_unit u == t * secs_per_unit unit)%Q.
Proof.
  intros Hu Hn.
  destruct Hu as [<-|[<-|[<-|[]]]]; destruct Hn as [<-|[<-|[<-|[]]]];
    (eexists; split; [reflexivity | cbv beta; rewrite ?secs_seconds, ?secs_minute, ?secs_hour; field]).
Qed.

(** X15.  [_configure_retention_time] raises [ValueError] for a unit
    outside seconds, minute and hour; the first valid unit becomes the
    target unit and its time is kept; later times are converted to the
    target unit, the same amount of time in seconds. *)
Theorem configure_retention_time_conversion (st : option string) (t : Q) (unit : string) :
  (~ In unit VALID_RT_UNITS -> configure_retention_time st t unit = Err ValueError) /\
  (In unit VALID_RT_UNITS ->
   (st = None -> configure_retention_time st t unit = Ok (Some unit, t)) /\
   (forall u, st = Some u -> In u VALID_RT_UNITS ->
      exists q, configure_retention_time st t unit = Ok (Some u, q) /\
                (q * secs_per_unit u == t * secs_per_unit unit)%Q)).
Proof.
  split; [apply configure_invalid|]. intros Hn. split.
  - intros ->. apply configure_valid_none. exact Hn.
  - intros u -> Hu. apply configure_valid_some; assumption.
Qed.

Lemma read_run_some path scans u0 :
  In u0 VALID_RT_UNITS -> Forall (fun sc => In (snd (scan_time sc)) VALID_RT_UNITS) scans ->
  exists sps, read_run path scans (Some u0) = Ok (Some u0, sps) /\
              Forall2 (spectrum_of_scan u0) (map (pair path) scans) sps.
Proof.
  intros Hu. induction scans as [|sc t IH]; intros Hv; [exists []; split; [reflexivity | constructor]|].
  inversion Hv as [|? ? Hsc Ht]; subst.
  destruct (configure_valid_some u0 (fst (scan_time sc)) (snd (scan_time sc)) Hu Hsc) as [q [Eq Hq]].
  destruct (IH Ht) as [sps [Er Hf]].
  eexists. split.
  - cbn [read_run]. rewrite Eq. cbn [bind]. rewrite Er. cbn [bind]. reflexivity.
  - constructor; [|exact Hf]. unfold spectrum_of_scan. cbn. repeat split; exact Hq.
Qed.

Lemma read_run_err path scans u0 :
  In u0 VALID_RT_UNITS -> Exists (fun sc => ~ In (snd (scan_time sc)) VALID_RT_UNITS) scans ->
  read_run path scans (Some u0) = Err ValueError.
Proof.
  intros Hu. induction scans as [|sc t IH]; intros Hx; [inversion Hx|].
  destruct (in_dec string_dec (snd (scan_time sc)) VALID_RT_UNITS) as [Hv|Hv].
  - destruct (configure_valid_some u0 (fst (scan_time sc)) _ Hu Hv) as [q [Eq _]].
    cbn [read_run]. rewrite Eq. cbn [bind].
    inversion Hx as [? ? Hh|? ? Ht]; subst; [contradiction|]. rewrite (IH Ht). reflexivity.
  - cbn [read_run]. rewrite (configure_invalid _ _ _ Hv). reflexivity.
Qed.

Lemma read_run_outcome path scans u0 :
  In u0 VALID_RT_UNITS ->
  read_run path scans (Some u0) = Err ValueError \/
  exists sps, read_run path scans (Some u0) = Ok (Some u0, sps).
Proof.
  intros Hu. induction scans as [|sc t IH]; [right; exists []; reflexivity|].
  destruct (in_dec string_dec (snd (scan_time sc)) VALID_RT_UNITS) as [Hv|Hv].
  - destruct (configure_valid_some u0 (fst (scan_time sc)) _ Hu Hv) as [q [Eq _]].
    cbn [read_run]. rewrite Eq. cbn [bind].
    destruct IH as [E|[sps E]]; rewrite E; [left | right; eexists]; reflexivity.
  - left. cbn [read_run]. rewrite (configure_invalid _ _ _ Hv). reflexivity.
Qed.

Lemma all_scans_cons path scans t :
  all_scans ((path, scans) :: t) = (map (pair path) scans ++ all_scans t)%list.
Proof. reflexivity. Qed.

Lemma read_files_some files u0 :
  In u0 VALID_RT_UNITS -> Forall (fun ps => In (snd (scan_time (snd ps))) VALID_RT_UNITS) (all_scans files) ->
  exists sps, read_mzml_files files (Some u0) = Ok (Some u0, sps) /\
              Forall2 (spectrum_of_scan u0) (all_scans files) sps.
Proof.
  intros Hu. induction files as [|[path scans] t IH]; intros Hv;
    [exists []; split; [reflexivity | constructor]|].
  rewrite all_scans_cons in *. apply Forall_app in Hv as [H1 H2].
  apply Forall_map in H1.
  destruct (read_run_some path scans u0 Hu H1) as [s1 [E1 F1]]. destruct (IH H2) as [s2 [E2 F2]].
  exists (s1 ++ s2)%list. split.
  - cbn [read_mzml_files]. rewrite E1. cbn [bind]. rewrite E2. reflexivity.
  - apply Forall2_app; assumption.
Qed.

Lemma read_files_err files u0 :
  In u0 VALID_RT_UNITS -> Exists (fun ps => ~ In (snd (scan_time (snd ps))) VALID_RT_UNITS) (all_scans files) ->
  read_mzml_files files (Some u0) = Err ValueError.
Proof.
  intros Hu. induction files as [|[path scans] t IH]; intros Hx; [inversion Hx|].
  rewrite all_scans_cons in Hx. apply Exists_app in Hx as [Hx|Hx].
  - apply (Exists_map (pair path) (fun ps => ~ In (snd (scan_time (snd ps))) VALID_RT_UNITS) scans) in Hx.
    cbn [read_mzml_files]. rewrite (read_run_err path scans u0 Hu Hx). reflexivity.
  - cbn [read_mzml_files]. destruct (read_run_outcome path scans u0 Hu) as [E|[sps E]]; rewrite E;
      cbn [bind]; [reflexivity|]. rewrite (IH Hx). reflexivity.
Qed.

Lemma read_files_nil_head path t st :
  read_mzml_files ((path, []) :: t) st = read_mzml_files t st.
Proof. cbn [read_mzml_files read_run bind]. destruct (read_mzml_files t st) as [[a b]|e]; reflexivity. Qed.

Lemma read_files_cons_none path sc scs t :
  In (snd (scan_time sc)) VALID_RT_UNITS ->
  read_mzml_files ((path, sc :: scs) :: t) None =
  match read_mzml_files ((path, scs) :: t) (Some (snd (scan_time sc))) with
  | Ok (st, l) =>
      Ok (st, mkSpectrum (sc_index sc) (sc_ms_level sc) (fst (scan_time sc)) (sc_ID sc) path
                         (sc_mz sc) (sc_i sc)
                         (match negative_scan sc with Some b => if b then 0 else 1 | None => -1 end)
                         (Some (snd (scan_time sc))) :: l)
  | Err e => Err e
  end.
Proof.
  intros Hv. cbn [read_mzml_files read_run]. rewrite (configure_valid_none _ _ Hv). cbn [bind].
  destruct (read_run path scs (Some _)) as [[st1 l1]|e]; cbn [bind]; [|reflexivity].
  destruct (read_mzml_files t st1) as [[st2 l2]|e]; reflexivity.
Qed.

(** X16.  [Spectra(filepaths)] raises [ValueError] when some scan has a
    retention-time unit other than seconds, minute and hour.  Otherwise
    it reads one spectrum per scan, in order, with the scan's file and
    data, and every retention time expressed in the unit of the first
    scan, which becomes [rtime_unit]; with no scan at all [rtime_unit]
    stays [None]. *)
Theorem Spectra_init_retention_times (files : list (string * list scan)) :
  (Exists (fun ps => ~ In (snd (scan_time (snd ps))) VALID_RT_UNITS) (all_scans files) ->
   Spectra_init files = Err ValueError) /\
  (Forall (fun ps => In (snd (scan_time (snd ps))) VALID_RT_UNITS) (all_scans files) ->
   match all_scans files with
   | [] => Spectra_init files = Ok (None, [])
   | ps0 :: _ =>
       exists sps, Spectra_init files = Ok (Some (snd (scan_time (snd ps0))), sps) /\
                   Forall2 (spectrum_of_scan (snd (scan_time (snd ps0)))) (all_scans files) sps
   end).
Proof.
  unfold Spectra_init. induction files as [|[path scans] t IH].
  - split; [intros Hx; inversion Hx | intros _; reflexivity].
  - destruct scans as [|sc scs].
    + rewrite read_files_nil_head. exact IH.
    + change (all_scans ((path, sc :: scs) :: t))
        with ((path, sc) :: (map (pair path) scs ++ all_scans t)%list).
      destruct (in_dec string_dec (snd (scan_time sc)) VALID_RT_UNITS) as [Hv|Hv].
      * rewrite (read_files_cons_none path sc scs t Hv). split.
        -- intros Hx. inversion Hx as [? ? Hh|? ? Ht]; subst; [contradiction|].
           rewrite (read_files_err ((path, scs) :: t) _ Hv Ht). reflexivity.
        -- intros Hf. inversion Hf as [|? ? Hh Ht]; subst.
           destruct (read_files_some ((path, scs) :: t) _ Hv Ht) as [sps [E F]]. rewrite E.
           eexists. split; [reflexivity|]. constructor; [|exact F].
           unfold spectrum_of_scan. cbn. repeat split; reflexivity.
      * split; [intros _ | intros Hf; inversion Hf; contradiction].
        cbn [read_mzml_files read_run]. rewrite (configure_invalid _ _ _ Hv). reflexivity.
Qed.

(* ------------------------------------------------------------------ *)
(** ** [Peaks] *)

Lemma nunique_fold_nodup l acc :
  NoDup (acc ++ l) ->
  fold_left (fun acc x => if existsb (String.eqb x) acc then acc else (acc ++ [x])%list) l acc = (acc ++ l)%list.
Proof.
  revert acc. induction l as [|x t IH]; intros acc H; simpl; [rewrite app_nil_r; reflexivity|].
  assert (Hx : existsb (String.eqb x) acc = false).
  { destruct (existsb _ _) eqn:E; [|reflexivity]. exfalso.
    apply existsb_exists in E as [y [Hy Ey]]. apply String.eqb_eq in Ey. subst.
    apply NoDup_remove_2 in H. apply H. apply in_or_app. left. exact Hy. }
  rewrite Hx. rewrite IH; [rewrite <- app_assoc; reflexivity|]. rewrite <- app_assoc. exact H.
Qed.

Lemma nunique_fold_le l acc :
  (length (fold_left (fun acc x => if existsb (String.eqb x) acc then acc else (acc ++ [x])%list) l acc)
   <= length acc + length l)%nat.
Proof.
  revert acc. induction l as [|x t IH]; intros acc; simpl; [lia|].
  destruct (existsb _ _); [specialize (IH acc); lia|].
  specialize (IH (acc ++ [x])%list). rewrite length_app in IH. simpl in IH. lia.
Qed.

Lemma nunique_fold_lt l acc :
  NoDup acc -> ~ NoDup (acc ++ l) ->
  (length (fold_left (fun acc x => if existsb (String.eqb x) acc then acc else (acc ++ [x])%list) l acc)
   < length acc + length l)%nat.
Proof.
  revert acc. induction l as [|x t IH]; intros acc Ha Hn; simpl.
  - rewrite app_nil_r in Hn. contradiction.
  - destruct (existsb (String.eqb x) acc) eqn:E.
    + pose proof (nunique_fold_le t acc). lia.
    + assert (Hx : ~ In x acc).
      { intros Hi. assert (existsb (String.eqb x) acc = true) by
          (apply existsb_exists; exists x; split; [exact Hi | apply String.eqb_refl]). congruence. }
      assert (Ha' : NoDup (acc ++ [x])).
      { apply NoDup_app; [exact Ha | constructor; [intros [] | constructor] |].
        intros y Hy [<-|[]]. contradiction. }
      specialize (IH (acc ++ [x])%list Ha'). rewrite <- app_assoc in IH. simpl in IH.
      rewrite length_app in IH. simpl in IH. specialize (IH Hn). lia.
Qed.

Lemma validate_peak_ids_spec df :
  (NoDup (map row_peak_id df) -> validate_peak_ids df = Ok df) /\
  (~ NoDup (map row_peak_id df) -> validate_peak_ids df = Err ValueError).
Proof.
  unfold validate_peak_ids, nunique. split; intros H.
  - rewrite (nunique_fold_nodup _ [] H). simpl. rewrite length_map, Nat.eqb_refl. reflexivity.
  - pose proof (nunique_fold_lt (map row_peak_id df) [] (NoDup_nil _) H) as Hl.
    simpl in Hl. rewrite length_map in Hl.
    destruct (Nat.eqb_spec (length df)
      (length (fold_left (fun acc x => if existsb (String.eqb x) acc then acc else (acc ++ [x])%list)
                         (map row_peak_id df) []))); [lia | reflexivity].
Qed.

Lemma kset_fresh {V} (d : list (string * V)) k v :
  ~ In k (map fst d) -> kset String.eqb d k v = (d ++ [(k, v)])%list.
Proof.
  induction d as [|[k0 v0] t IH]; intros H; simpl; [reflexivity|].
  destruct (String.eqb k0 k) eqn:E.
  - apply String.eqb_eq in E. subst. exfalso. apply H. left. reflexivity.
  - rewrite IH; [reflexivity|]. intros Hi. apply H. right. exact Hi.
Qed.

Lemma kget_in_nodup {V} (d : list (string * V)) k v :
  NoDup (map fst d) -> In (k, v) d -> kget String.eqb d k = Some v.
Proof.
  induction d as [|[k0 v0] t IH]; intros Hn Hi; [destruct Hi|]. simpl in *.
  inversion Hn as [|? ? Hk Ht]; subst. destruct Hi as [E|Hi].
  - injection E as -> ->. rewrite String.eqb_refl. reflexivity.
  - destruct (String.eqb k0 k) eqn:E.
    + apply String.eqb_eq in E. subst. exfalso. apply Hk. apply (in_map fst) in Hi. exact Hi.
    + apply IH; assumption.
Qed.

Lemma kget_notin {V} (d : list (string * V)) k :
  ~ In k (map fst d) -> kget String.eqb d k = None.
Proof.
  induction d as [|[k0 v0] t IH]; intros H; simpl; [reflexivity|].
  destruct (String.eqb k0 k) eqn:E.
  - apply String.eqb_eq in E. subst. exfalso. apply H. left. reflexivity.
  - apply IH. intros Hi. apply H. right. exact Hi.
Qed.

Lemma process_rows_spec db rows acc :
  NoDup (map fst acc ++ map row_peak_id rows) ->
  match process_rows db rows acc with
  | Ok ps => exists pl, ps = (acc ++ pl)%list /\
      Forall2 (fun r ip => fst ip = row_peak_id r /\
                 Peak_new db (row_peak_id r) (row_mz r) (row_rt r) (row_formula r)
                          (row_level r) (row_accession r) (row_annotation r) = Ok (snd ip)) rows pl
  | Err e => exists pre r post, rows = (pre ++ r :: post)%list /\
      Forall (fun r' => exists p, Peak_new db (row_peak_id r') (row_mz r') (row_rt r') (row_formula r')
                 (row_level r') (row_accession r') (row_annotation r') = Ok p) pre /\
      Peak_new db (row_peak_id r) (row_mz r) (row_rt r) (row_formula r)
               (row_level r) (row_accession r) (row_annotation r) = Err e
  end.
Proof.
  revert acc. induction rows as [|r t IH]; intros acc Hn; simpl.
  - exists []. split; [rewrite app_nil_r; reflexivity | constructor].
  - destruct (Peak_new db (row_peak_id r) (row_mz r) (row_rt r) (row_formula r)
                       (row_level r) (row_accession r) (row_annotation r)) as [p|e] eqn:Ep; cbn [bind].
    + assert (Hf : ~ In (row_peak_id r) (map fst acc)).
      { intros Hi. apply NoDup_remove_2 in Hn. apply Hn. apply in_or_app. left. exact Hi. }
      rewrite (kset_fresh acc _ p Hf).
      assert (Hn' : NoDup (map fst (acc ++ [(row_peak_id r, p)]) ++ map row_peak_id t)).
      { rewrite map_app, <- app_assoc. exact Hn. }
      specialize (IH _ Hn'). destruct (process_rows db t _) as [ps|e].
      * destruct IH as [pl [-> Hpl]]. exists ((row_peak_id r, p) :: pl).
        split; [rewrite <- app_assoc; reflexivity|]. constructor; [split; [reflexivity | exact Ep] | exact Hpl].
      * destruct IH as [pre [r' [post [-> [Hpre Er']]]]]. exists (r :: pre), r', post.
        split; [reflexivity|]. split; [constructor; [exists p; exact Ep | exact Hpre] | exact Er'].
    + exists [], r, t. split; [reflexivity|]. split; [constructor | exact Ep].
Qed.

Lemma Forall2_in_l {A B} (R : A -> B -> Prop) l1 l2 x :
  Forall2 R l1 l2 -> In x l1 -> exists y, In y l2 /\ R x y.
Proof.
  induction 1 as [|a b t1 t2 Hab Ht IH]; intros Hi; [destruct Hi|].
  destruct Hi as [<-|Hi]; [exists b; split; [left; reflexivity | exact Hab]|].
  destruct (IH Hi) as [y [Hy Ry]]. exists y. split; [right; exact Hy | exact Ry].
Qed.

Lemma Forall2_keys rows (pl : list (string * peak)) (P : peak_row -> peak -> Prop) :
  Forall2 (fun r ip => fst ip = row_peak_id r /\ P r (snd ip)) rows pl ->
  map fst pl = map row_peak_id rows.
Proof. induction 1 as [|r ip t1 t2 [Hk _] _ IH]; simpl; [reflexivity|]. rewrite Hk, IH. reflexivity. Qed.

(** X17.  [Peaks] raises [ValueError] when two rows share a peak id.
    With distinct ids it raises what the [Peak] of the first failing row
    raises (every earlier row builds its [Peak]); otherwise the result holds one peak per row, the peak of each row is
    found under its id, and looking up any other id raises [KeyError]. *)
Theorem process_peaks_spec (db : isotope_db) (df : list peak_row) :
  (~ NoDup (map row_peak_id df) -> process_peaks db df = Err ValueError) /\
  (NoDup (map row_peak_id df) ->
   match process_peaks db df with
   | Ok ps =>
       length ps = length df /\
       (forall r, In r df -> exists p,
          Peak_new db (row_peak_id r) (row_mz r) (row_rt r) (row_formula r)
                   (row_level r) (row_accession r) (row_annotation r) = Ok p /\
          peak_id p = row_peak_id r /\ Peaks_getitem ps (row_peak_id r) = Ok p) /\
       (forall item, ~ In item (map row_peak_id df) -> Peaks_getitem ps item = Err KeyError)
   | Err e => exists pre r post, df = (pre ++ r :: post)%list /\
       Forall (fun r' => exists p, Peak_new db (row_peak_id r') (row_mz r') (row_rt r') (row_formula r')
                  (row_level r') (row_accession r') (row_annotation r') = Ok p) pre /\
       Peak_new db (row_peak_id r) (row_mz r) (row_rt r) (row_formula r)
                (row_level r) (row_accession r) (row_annotation r) = Err e
   end).
Proof.
  unfold process_peaks. split.
  - intros H. rewrite (proj2 (validate_peak_ids_spec df) H). reflexivity.
  - intros H. rewrite (proj1 (validate_peak_ids_spec df) H). cbn [bind].
    pose proof (process_rows_spec db df [] H) as Hs.
    destruct (process_rows db df []) as [ps|e]; [|exact Hs].
    destruct Hs as [pl [-> Hpl]]. simpl app.
    pose proof (Forall2_keys df pl (fun r p => Peak_new db (row_peak_id r) (row_mz r) (row_rt r)
      (row_formula r) (row_level r) (row_accession r) (row_annotation r) = Ok p) Hpl) as Hk.
    split; [|split].
    + rewrite <- (length_map fst pl), Hk, length_map. reflexivity.
    + intros r Hr. destruct (Forall2_in_l _ _ _ _ Hpl Hr) as [[k p] [Hin [Hk1 Hp]]].
      simpl in Hk1, Hp. subst k. exists p. split; [exact Hp|]. split.
      * unfold Peak_new in Hp. destruct (Peak_formula _ _); cbn [bind] in Hp; [|discriminate].
        injection Hp as <-. reflexivity.
      * unfold Peaks_getitem. rewrite (kget_in_nodup pl _ p); [reflexivity | rewrite Hk; exact H | exact Hin].
    + intros item Hi. unfold Peaks_getitem. rewrite kget_notin; [reflexivity|]. rewrite Hk. exact Hi.
Qed.

Lemma span_snd_forallb p q s : str_forallb q s = true -> str_forallb q (snd (span p s)) = true.
Proof.
  induction s as [|c r IH]; simpl; [reflexivity|]. intros H. apply andb_true_iff in H as [H1 H2].
  destruct (p c); [|simpl; rewrite H1; exact H2].
  specialize (IH H2). destruct (span p r) as [a b]. exact IH.
Qed.

Lemma strip_charge_forallb q s : str_forallb q s = true -> str_forallb q (strip_charge s) = true.
Proof.
  induction s as [|c r IH]; simpl; [reflexivity|]. intros H. apply andb_true_iff in H as [H1 H2].
  destruct (is_sign c && charge_tail r); [apply span_snd_forallb; exact H2|].
  simpl. rewrite H1. exact (IH H2).
Qed.

Lemma split_sym_no_upper s : str_forallb (fun c => negb (is_upper c)) s = true -> split_sym s = [s].
Proof.
  induction s as [|c r IH]; simpl; [reflexivity|]. intros H. apply andb_true_iff in H as [H1 H2].
  apply negb_true_iff in H1. rewrite H1, (IH H2). reflexivity.
Qed.

(** X18.  A formula string without any capital letter (so without an
    element symbol, such as a lower-case formula or an empty string)
    gives an empty element count, and the compound of mass zero raises
    the plain [Exception]; [Peak] only ignores [ValueError], so building
    such a peak raises. *)
Theorem Peak_new_formula_without_symbol (db : isotope_db) (pid : string) (mz rt : Q) (f : string)
  (level : option Z) (accession annotation : option string) :
  str_forallb (fun c => negb (is_upper c)) f = true ->
  Peak_new db pid mz rt (Some f) level accession annotation = Err MassError.
Proof.
  intros H. unfold Peak_new, Peak_formula, from_str, str_to_dict.
  rewrite (split_sym_no_upper _ (strip_charge_forallb _ _ H)). reflexivity.
Qed.

Lemma Peak_new_formula_without_symbol_witness :
  Peak_new sample_db "p1" 18 60 (Some "h2o") None None None = Err MassError.
Proof. exact (Peak_new_formula_without_symbol sample_db "p1" 18 60 "h2o" None None None eq_refl). Defined.

(* ------------------------------------------------------------------ *)
(** ** The end of [Compound.isopattern] *)

Section SortProps.
Context {A : Type} (lt : A -> A -> bool).

Lemma sort_insert_perm x l : Permutation (sort_insert lt x l) (x :: l).
Proof.
  induction l as [|y t IH]; simpl; [apply Permutation_refl|].
  destruct (lt x y); [apply Permutation_refl|].
  eapply Permutation_trans; [apply perm_skip, IH | apply perm_swap].
Qed.

Lemma sort_fold_perm l acc :
  Permutation (fold_left (fun acc x => sort_insert lt x acc) l acc) (l ++ acc).
Proof.
  revert acc. induction l as [|x t IH]; intros acc; simpl; [apply Permutation_refl|].
  eapply Permutation_trans; [apply IH|].
  eapply Permutation_trans; [apply Permutation_app_head, sort_insert_perm|].
  apply Permutation_sym, Permutation_middle.
Qed.

Lemma sort_by_perm l : Permutation (sort_by lt l) l.
Proof. unfold sort_by. pose proof (sort_fold_perm l []) as H. rewrite app_nil_r in H. exact H. Qed.

Context (le : A -> A -> Prop).
Hypothesis Hlt : forall x y, lt x y = true -> le x y.
Hypothesis Hnlt : forall x y, lt x y = false -> le y x.

Lemma sort_insert_hd a x l : HdRel le a l -> le a x -> HdRel le a (sort_insert lt x l).
Proof.
  intros Hh Hax. destruct l as [|y t]; simpl; [constructor; exact Hax|].
  destruct (lt x y); constructor; [exact Hax | inversion Hh; assumption].
Qed.

Lemma sort_insert_sorted x l : Sorted le l -> Sorted le (sort_insert lt x l).
Proof.
  induction l as [|y t IH]; intros Hs; simpl; [repeat constructor|].
  destruct (lt x y) eqn:E.
  - constructor; [exact Hs | constructor; apply Hlt; exact E].
  - inversion Hs as [|? ? Ht Hh]; subst.
    constructor; [apply IH; exact Ht | apply sort_insert_hd; [exact Hh | apply Hnlt; exact E]].
Qed.

Lemma sort_by_sorted l : Sorted le (sort_by lt l).
Proof.
  unfold sort_by.
  assert (H : forall acc, Sorted le acc -> Sorted le (fold_left (fun acc x => sort_insert lt x acc) l acc)).
  { induction l as [|x t IH]; intros acc Ha; simpl; [exact Ha | apply IH, sort_insert_sorted, Ha]. }
  apply H. constructor.
Qed.
End SortProps.

Lemma combine_map_same {A B C} (g : A -> B) (h : A -> C) l :
  combine (map g l) (map h l) = map (fun x => (g x, h x)) l.
Proof. induction l as [|x t IH]; simpl; [reflexivity|]. rewrite IH. reflexivity. Qed.

Lemma map_snd_combine {A B} (l1 : list A) (l2 : list B) :
  length l1 = length l2 -> map snd (combine l1 l2) = l2.
Proof.
  revert l2. induction l1 as [|x t IH]; intros [|y l2] H; simpl in *; try discriminate; [reflexivity|].
  rewrite IH by lia. reflexivity.
Qed.

Lemma Qlt_bool_le a b : Qlt_bool a b = true -> (a <= b)%Q.
Proof.
  unfold Qlt_bool. intros H. apply negb_true_iff in H. apply Qlt_le_weak, Qnot_le_lt.
  intros E. apply Qle_bool_iff in E. congruence.
Qed.

Lemma Qlt_bool_false a b : Qlt_bool a b = false -> (b <= a)%Q.
Proof. unfold Qlt_bool. intros H. apply negb_false_iff in H. apply Qle_bool_iff. exact H. Qed.

Lemma pf_before_asym x y : pf_before x y = true -> pf_before y x = false.
Proof.
  destruct x as [a| | |], y as [b| | |]; simpl; intros H; try discriminate; try reflexivity.
  destruct (Qlt_bool a b) eqn:E; [|reflexivity]. exfalso.
  unfold Qlt_bool in E, H. apply negb_true_iff in E, H.
  destruct (Qlt_le_dec a b) as [L|L]; [apply Qlt_le_weak in L|]; apply Qle_bool_iff in L; congruence.
Qed.

Lemma Qmin2_le a b : (Qmin2 a b <= a /\ Qmin2 a b <= b)%Q.
Proof.
  unfold Qmin2. destruct (Qle_bool a b) eqn:E.
  - apply Qle_bool_iff in E. split; [apply Qle_refl | exact E].
  - split; [|apply Qle_refl]. apply Qlt_le_weak, Qnot_le_lt. intros H. apply Qle_bool_iff in H. congruence.
Qed.

Lemma fold_Qmin_le t a : (fold_left Qmin2 t a <= a)%Q /\ forall x, In x t -> (fold_left Qmin2 t a <= x)%Q.
Proof.
  revert a. induction t as [|y t IH]; intros a; simpl; [split; [apply Qle_refl | intros _ []]|].
  destruct (IH (Qmin2 a y)) as [H1 H2]. destruct (Qmin2_le a y) as [Ha Hy].
  split; [apply (Qle_trans _ _ _ H1 Ha)|].
  intros x [<-|Hx]; [apply (Qle_trans _ _ _ H1 Hy) | exact (H2 x Hx)].
Qed.

Lemma fold_Qmin_in t a : In (fold_left Qmin2 t a) (a :: t).
Proof.
  revert a. induction t as [|y t IH]; intros a; simpl; [left; reflexivity|].
  destruct (IH (Qmin2 a y)) as [E|E]; [|right; right; exact E].
  assert (Hm : Qmin2 a y = a \/ Qmin2 a y = y) by (unfold Qmin2; destruct (Qle_bool a y); auto).
  destruct Hm as [Hm|Hm]; rewrite Hm in *; [left | right; left]; exact E.
Qed.

Lemma Qmin_list_le l x : In x l -> (Qmin_list l <= x)%Q.
Proof.
  destruct l as [|a t]; [intros []|]. simpl. destruct (fold_Qmin_le t a) as [H1 H2].
  intros [<-|Hx]; [exact H1 | exact (H2 x Hx)].
Qed.

Lemma Qmin_list_in l : l <> [] -> In (Qmin_list l) l.
Proof. destruct l as [|a t]; [congruence|]. intros _. apply fold_Qmin_in. Qed.

(** X19.  With a scale other than [rel], the [(mass, abundance)] pairs
    [isopattern] returns are sorted by mass; their abundances are those of
    the rows with a non-zero abundance, up to order, and without a charge
    the pairs are those rows' masses and abundances. *)
Theorem finalize_sorted_by_mass (charge : Z) (scale : string) (rows : list row) :
  scale <> "rel" ->
  Sorted (fun x y => fst x <= fst y)%Q (finalize charge scale rows) /\
  Permutation (map snd (finalize charge scale rows))
    (map (fun r => Fin (abundance r)) (filter (fun r => negb (Qeq_bool (abundance r) 0)) rows)) /\
  (charge = 0 -> Permutation (finalize charge scale rows)
    (map (fun r => (mass r, Fin (abundance r))) (filter (fun r => negb (Qeq_bool (abundance r) 0)) rows))).
Proof.
  intros Hs. unfold finalize. cbv zeta.
  destruct (String.eqb_spec scale "rel") as [E|_]; [contradiction|].
  rewrite (map_map abundance Fin), combine_map_same.
  split; [|split].
  - apply (sort_by_sorted _ (fun x y => fst x <= fst y)%Q).
    + intros x y. apply Qlt_bool_le.
    + intros x y. apply Qlt_bool_false.
  - eapply Permutation_trans; [apply Permutation_map, sort_by_perm|].
    rewrite map_map. apply Permutation_refl.
  - intros ->. apply sort_by_perm.
Qed.

Lemma finalize_sorted_by_mass_witness :
  let rows := [mkRow [] 30 (1/2) 0 0 None; mkRow [] 10 (1/4) 0 0 None; mkRow [] 20 0 0 0 None]%Q in
  "abs" <> "rel" /\
  Sorted (fun x y => fst x <= fst y)%Q (finalize 0 "abs" rows) /\
  Permutation (map snd (finalize 0 "abs" rows))
    (map (fun r => Fin (abundance r)) (filter (fun r => negb (Qeq_bool (abundance r) 0)) rows)) /\
  (0 = 0 -> Permutation (finalize 0 "abs" rows)
    (map (fun r => (mass r, Fin (abundance r))) (filter (fun r => negb (Qeq_bool (abundance r) 0)) rows))).
Proof.
  intros rows. assert (H : "abs" <> "rel") by discriminate.
  split; [exact H | exact (finalize_sorted_by_mass 0 "abs" rows H)].
Defined.

(** X20.  With the [rel] scale, [isopattern] returns one pair per row
    with a non-zero abundance, sorted by decreasing relative abundance.
    When all those abundances are equal every relative abundance is NaN
    (0/0); otherwise they are all non-negative, the smallest abundance
    gives exactly 0, and the largest abundance gives the largest relative
    abundance of the result (100 up to rounding). *)
Theorem finalize_relative_scale (charge : Z) (rows : list row) :
  let ab := map abundance (filter (fun r => negb (Qeq_bool (abundance r) 0)) rows) in
  let out := finalize charge "rel" rows in
  length out = length ab /\
  Sorted (fun x y => pf_before (snd y) (snd x) = false) out /\
  ((forall a b, In a ab -> In b ab -> (a == b)%Q) -> Forall (fun p => snd p = NaN) out) /\
  ((exists a b, In a ab /\ In b ab /\ ~ (a == b)%Q) ->
   Forall (fun p => exists q, snd p = Fin q /\ (0 <= q)%Q) out /\
   (exists p q, In p out /\ snd p = Fin q /\ (q == 0)%Q) /\
   (exists p q, In p out /\ snd p = py_div (100 * (Qmax_list ab - Qmin_list ab)) (Qmax_list ab - Qmin_list ab)%Q /\
      snd p = Fin q /\
      forall p' q', In p' out -> snd p' = Fin q' -> (q' <= q)%Q)).
Proof.
  intros ab out.
  set (F := fun a => py_div (100 * (a - Qmin_list ab)) (Qmax_list ab - Qmin_list ab)%Q).
  assert (Hp : exists masses,
    out = sort_by (fun x y => pf_before (snd x) (snd y)) (combine masses (map F ab)) /\
    length masses = length ab).
  { eexists. split; [reflexivity|]. unfold ab. rewrite !length_map. reflexivity. }
  destruct Hp as [masses [Eo Hl]].
  assert (Hs : Permutation (map snd out) (map F ab)).
  { rewrite Eo. rewrite <- (map_snd_combine masses (map F ab)) at 2 by (rewrite length_map; exact Hl).
    apply Permutation_map, sort_by_perm. }
  assert (Hin : forall p, In p out -> exists a, In a ab /\ snd p = F a).
  { intros p Hp. apply (in_map snd), (Permutation_in _ Hs), in_map_iff in Hp.
    destruct Hp as [a [Ea Ha]]. exists a. split; [exact Ha | symmetry; exact Ea]. }
  assert (Hex : forall a, In a ab -> exists p, In p out /\ snd p = F a).
  { intros a Ha. apply (in_map F), (Permutation_in _ (Permutation_sym Hs)), in_map_iff in Ha.
    destruct Ha as [p [Ep Hp]]. exists p. split; [exact Hp | exact Ep]. }
  split; [|split; [|split]].
  - rewrite <- (length_map snd out), (Permutation_length Hs), length_map. reflexivity.
  - rewrite Eo. apply (sort_by_sorted _ (fun x y => pf_before (snd y) (snd x) = false)).
    + intros x y. apply pf_before_asym.
    + intros x y E. exact E.
  - intros Hall. apply Forall_forall. intros p Hp. destruct (Hin p Hp) as [a [Ha ->]].
    assert (Hne : ab <> []) by (intros E; rewrite E in Ha; destruct Ha).
    pose proof (Qmin_list_in ab Hne) as Hmn. pose proof (Qmax_list_in ab Hne) as Hmx.
    unfold F, py_div.
    rewrite (proj2 (Qeq_bool_iff _ _)) by (rewrite (Hall _ _ Hmx Hmn); ring).
    rewrite (proj2 (Qeq_bool_iff _ _)) by (rewrite (Hall _ _ Ha Hmn); ring).
    reflexivity.
  - intros [a [b [Ha [Hb Hab]]]].
    set (mn := Qmin_list ab). set (mx := Qmax_list ab).
    assert (Hne : ab <> []) by (intros E; rewrite E in Ha; destruct Ha).
    assert (Hmn : forall x, In x ab -> (mn <= x)%Q) by (intros x; apply Qmin_list_le).
    assert (Hmx : forall x, In x ab -> (x <= mx)%Q) by (intros x; apply Qmax_list_ge).
    assert (Hpos : (0 < mx - mn)%Q).
    { destruct (Qlt_le_dec mn mx) as [H|H]; [lra|]. exfalso. apply Hab.
      pose proof (Hmn a Ha). pose proof (Hmn b Hb). pose proof (Hmx a Ha). pose proof (Hmx b Hb).
      apply Qle_antisym; lra. }
    assert (Hnz : ~ (mx - mn == 0)%Q) by (intros E; rewrite E in Hpos; apply (Qlt_irrefl 0); exact Hpos).
    assert (HF : forall x, F x = Fin (100 * (x - mn) / (mx - mn))%Q).
    { intros x. unfold F, py_div. fold mn mx.
      destruct (Qeq_bool (mx - mn) 0) eqn:E; [|reflexivity]. apply Qeq_bool_iff in E. contradiction. }
    split; [|split].
    + apply Forall_forall. intros p Hp. destruct (Hin p Hp) as [x [Hx ->]].
      exists (100 * (x - mn) / (mx - mn))%Q. split; [apply HF|].
      pose proof (Hmn x Hx). apply Qle_shift_div_l; [exact Hpos|]. lra.
    + destruct (Hex mn (Qmin_list_in ab Hne)) as [p [Hp Ep]].
      exists p, (100 * (mn - mn) / (mx - mn))%Q. split; [exact Hp|]. split; [rewrite Ep; apply HF|].
      field. exact Hnz.
    + destruct (Hex mx (Qmax_list_in ab Hne)) as [p [Hp Ep]].
      exists p, (100 * (mx - mn) / (mx - mn))%Q. split; [exact Hp|].
      split; [exact Ep|]. split; [rewrite Ep; apply HF|].
      intros p' q' Hp' Eq'. destruct (Hin p' Hp') as [x [Hx Ex]]. rewrite Ex, HF in Eq'.
      injection Eq' as <-. pose proof (Hmx x Hx).
      unfold Qdiv. apply Qmult_le_compat_r; [lra | apply Qlt_le_weak, Qinv_lt_0_compat; exact Hpos].
Qed.

(* ------------------------------------------------------------------ *)
(** ** [get_file_delimiter] *)

Lemma str_split_nonempty sep s : (1 <= length (str_split sep s))%nat.
Proof.
  induction s as [|c r IH]; simpl; [lia|].
  destruct (Ascii.eqb c sep); simpl; [lia|]. destruct (str_split sep r); simpl in *; lia.
Qed.

Lemma str_split_many sep s :
  (1 <? length (str_split sep s))%nat = negb (str_forallb (fun c => negb (Ascii.eqb c sep)) s).
Proof.
  induction s as [|c r IH]; simpl; [reflexivity|].
  destruct (Ascii.eqb c sep); simpl.
  - pose proof (str_split_nonempty sep r). apply Nat.ltb_lt. lia.
  - rewrite <- IH. destruct (str_split sep r); reflexivity.
Qed.

(** X21.  [get_file_delimiter] raises [StopIteration] on an empty file;
    otherwise it returns a comma when the stripped first line contains
    one, else a tab when it contains one, and else a space, whether or
    not the line contains a space. *)
Theorem get_file_delimiter_spec (content : string) :
  get_file_delimiter content =
  match content with
  | EmptyString => Err StopIteration
  | _ =>
      let first_line := strip_ws (fst (span (fun c => negb (is_line_break c)) content)) in
      Ok (if negb (str_forallb (fun c => negb (Ascii.eqb c ","%char)) first_line) then ","
          else if negb (str_forallb (fun c => negb (Ascii.eqb c tab)) first_line) then String tab ""
          else " ")
  end.
Proof.
  unfold get_file_delimiter. destruct content as [|c r]; [reflexivity|].
  cbv zeta. rewrite !str_split_many. reflexivity.
Qed.
